(** * Cosmo's Dungeon: a shallow embedding of [dungeon.py]

    The game core of the roguelike is embedded as Rocq functions: Python
    integers are [Z], Python lists are [list] with the interpreter's
    indexing rules written out, raised exceptions are values of [result],
    and the module-level random generator is an explicit stream threaded
    through every function that draws from it. *)

From Stdlib Require Import ZArith Lia String Bool DecimalString.
From stdpp Require Import base list strings relations.

Local Open Scope Z_scope.

(** ** Exceptions and results *)

(** The exceptions the modelled code can raise. *)
Inductive exn : Type :=
  | ValueError      (* random.randint on an empty range *)
  | IndexError      (* list index out of range *)
  | AttributeError. (* attribute access on None *)

(** The outcome of running a piece of code: a value, a raised exception,
    or [Diverged] when a loop of the model ran out of its iteration budget
    (shown below never to happen for the loops of this program). *)
Inductive result (A : Type) : Type :=
  | Ok (a : A)
  | Raise (e : exn)
  | Diverged.
Arguments Ok {A} a.
Arguments Raise {A} e.
Arguments Diverged {A}.

Global Instance result_ret : MRet result := fun A a => Ok a.
Global Instance result_bind : MBind result := fun A B k m =>
  match m with
  | Ok a => k a
  | Raise e => Raise e
  | Diverged => Diverged
  end.

(** ** Python list indexing *)

(** [py_index n i]: the position a Python index [i] denotes in a list of
    length [n]; negative indices count from the end. *)
Definition py_index (n : nat) (i : Z) : option nat :=
  if (0 <=? i) && (i <? Z.of_nat n) then Some (Z.to_nat i)
  else if (- Z.of_nat n <=? i) && (i <? 0) then Some (Z.to_nat (Z.of_nat n + i))
  else None.

(** [l[i]] *)
Definition py_get {A} (l : list A) (i : Z) : result A :=
  match py_index (length l) i with
  | Some k => match l !! k with Some a => Ok a | None => Raise IndexError end
  | None => Raise IndexError
  end.

(** [l[i] = v] *)
Definition py_set {A} (l : list A) (i : Z) (v : A) : result (list A) :=
  match py_index (length l) i with
  | Some k => Ok (<[k := v]> l)
  | None => Raise IndexError
  end.

(** [g[y][x]] *)
Definition grid_get {A} (g : list (list A)) (x y : Z) : result A :=
  row ← py_get g y; py_get row x.

(** [g[y][x] = v] *)
Definition grid_set {A} (g : list (list A)) (x y : Z) (v : A)
  : result (list (list A)) :=
  row ← py_get g y;
  row' ← py_set row x v;
  py_set g y row'.

(** [range(a, b)] *)
Definition range (a b : Z) : list Z :=
  map (fun k => a + Z.of_nat k) (seq 0 (Z.to_nat (b - a))).

(** ** The random source *)

(** The module-level generator: an arbitrary stream of raw draws and the
    number of draws consumed so far. *)
Record Rng := mkRng { raw : nat -> Z; pos : nat }.

Definition rng_next (r : Rng) : Rng := mkRng (raw r) (S (pos r)).

(** [random.randint(a, b)]: uniform in [a, b]; raises ValueError when the
    range is empty. *)
Definition randint (a b : Z) (r : Rng) : result (Z * Rng) :=
  if b <? a then Raise ValueError
  else Ok (a + raw r (pos r) mod (b - a + 1), rng_next r).

(** [random.random()]: a float k / 2^53 with 0 <= k < 2^53, represented by
    its numerator k. *)
Definition random_unit (r : Rng) : Z * Rng :=
  (raw r (pos r) mod 2 ^ 53, rng_next r).

(** [random.choice(l)]: raises IndexError on an empty sequence. *)
Definition choice {A} (l : list A) (r : Rng) : result (A * Rng) :=
  match l !! Z.to_nat (raw r (pos r) mod Z.of_nat (length l)) with
  | Some a => Ok (a, rng_next r)
  | None => Raise IndexError
  end.

(** ** Entities *)

(** The tile characters. *)
Inductive Tile : Type := WALL | FLOOR | DOOR | STAIRS.

Definition tile_eqb (a b : Tile) : bool :=
  match a, b with
  | WALL, WALL | FLOOR, FLOOR | DOOR, DOOR | STAIRS, STAIRS => true
  | _, _ => false
  end.

(** [SCROLL_EFFECTS]: the second component of each entry. *)
Inductive Effect : Type := damage | heal | buff_atk | buff_def | reveal.

(** The [kind] attribute of an item together with its [value]. *)
Inductive Kind : Type :=
  | potion (value : Z)
  | weapon (value : Z)
  | gold (value : Z)
  | scroll (name : string) (effect : Effect).

(** An item entity: on the floor, or carried in the inventory. *)
Record Item := mkItem {
  i_x : Z; i_y : Z; i_name : string; i_kind : Kind }.

(** A monster entity. *)
Record Monster := mkMonster {
  m_x : Z; m_y : Z; m_name : string;
  m_hp : Z; m_max_hp : Z; m_atk : Z; m_xp : Z }.

(** An entry of a merchant's stock. *)
Record StockEntry := mkEntry {
  e_name : string; e_kind : Kind; e_price : Z }.

(** ** Player *)

Record Player := mkPlayer {
  p_x : Z; p_y : Z;
  max_hp : Z; hp : Z;
  base_atk : Z; atk_bonus : Z; defense : Z;
  xp : Z; level : Z; p_gold : Z;
  p_weapon : string;
  kills : Z; p_depth : Z; max_depth : Z;
  inventory : list Item }.

(** [Player.__init__] *)
Definition Player_init (x y : Z) : Player :=
  {| p_x := x; p_y := y; max_hp := 30; hp := 30; base_atk := 3;
     atk_bonus := 0; defense := 0; xp := 0; level := 1; p_gold := 0;
     p_weapon := "fists"; kills := 0; p_depth := 1; max_depth := 1;
     inventory := [] |}.

Definition atk (p : Player) : Z := base_atk p + atk_bonus p.

Definition xp_to_next (p : Player) : Z := level p * 20.

Definition set_pos (x y : Z) (p : Player) : Player :=
  mkPlayer x y (max_hp p) (hp p) (base_atk p) (atk_bonus p) (defense p)
    (xp p) (level p) (p_gold p) (p_weapon p) (kills p) (p_depth p)
    (max_depth p) (inventory p).
Definition set_hp (v : Z) (p : Player) : Player :=
  mkPlayer (p_x p) (p_y p) (max_hp p) v (base_atk p) (atk_bonus p)
    (defense p) (xp p) (level p) (p_gold p) (p_weapon p) (kills p)
    (p_depth p) (max_depth p) (inventory p).
Definition set_xp (v : Z) (p : Player) : Player :=
  mkPlayer (p_x p) (p_y p) (max_hp p) (hp p) (base_atk p) (atk_bonus p)
    (defense p) v (level p) (p_gold p) (p_weapon p) (kills p) (p_depth p)
    (max_depth p) (inventory p).
Definition set_base_atk (v : Z) (p : Player) : Player :=
  mkPlayer (p_x p) (p_y p) (max_hp p) (hp p) v (atk_bonus p) (defense p)
    (xp p) (level p) (p_gold p) (p_weapon p) (kills p) (p_depth p)
    (max_depth p) (inventory p).
Definition set_defense (v : Z) (p : Player) : Player :=
  mkPlayer (p_x p) (p_y p) (max_hp p) (hp p) (base_atk p) (atk_bonus p) v
    (xp p) (level p) (p_gold p) (p_weapon p) (kills p) (p_depth p)
    (max_depth p) (inventory p).
Definition set_gold (v : Z) (p : Player) : Player :=
  mkPlayer (p_x p) (p_y p) (max_hp p) (hp p) (base_atk p) (atk_bonus p)
    (defense p) (xp p) (level p) v (p_weapon p) (kills p) (p_depth p)
    (max_depth p) (inventory p).
Definition set_kills (v : Z) (p : Player) : Player :=
  mkPlayer (p_x p) (p_y p) (max_hp p) (hp p) (base_atk p) (atk_bonus p)
    (defense p) (xp p) (level p) (p_gold p) (p_weapon p) v (p_depth p)
    (max_depth p) (inventory p).
Definition set_depth (d md : Z) (p : Player) : Player :=
  mkPlayer (p_x p) (p_y p) (max_hp p) (hp p) (base_atk p) (atk_bonus p)
    (defense p) (xp p) (level p) (p_gold p) (p_weapon p) (kills p) d md
    (inventory p).
Definition set_inventory (v : list Item) (p : Player) : Player :=
  mkPlayer (p_x p) (p_y p) (max_hp p) (hp p) (base_atk p) (atk_bonus p)
    (defense p) (xp p) (level p) (p_gold p) (p_weapon p) (kills p)
    (p_depth p) (max_depth p) v.
(** [p.weapon = name; p.atk_bonus = value] *)
Definition equip (name : string) (value : Z) (p : Player) : Player :=
  mkPlayer (p_x p) (p_y p) (max_hp p) (hp p) (base_atk p) value (defense p)
    (xp p) (level p) (p_gold p) name (kills p) (p_depth p) (max_depth p)
    (inventory p).

(** One iteration of the body of the [while] loop of [gain_xp]. *)
Definition level_up (p : Player) : Player :=
  mkPlayer (p_x p) (p_y p) (max_hp p + 8) (max_hp p + 8) (base_atk p + 1)
    (atk_bonus p) (defense p) (xp p - xp_to_next p) (level p + 1) (p_gold p)
    (p_weapon p) (kills p) (p_depth p) (max_depth p) (inventory p).

(** The [while self.xp >= self.xp_to_next()] loop, with an iteration
    budget. *)
Fixpoint gain_xp_loop (fuel : nat) (p : Player) (leveled : bool)
  : result (Player * bool) :=
  match fuel with
  | O => Diverged
  | S fuel' =>
      if xp_to_next p <=? xp p
      then gain_xp_loop fuel' (level_up p) true
      else Ok (p, leveled)
  end.

(** A bound on the number of iterations left: at a positive level every
    iteration lowers xp by at least 20; at a level [-n <= 0] the loop first
    climbs to level 1, raising xp by [20 * (n + ... + 1)] on the way. *)
Definition xp_budget (p : Player) : Z :=
  if level p <=? 0
  then 1 - level p + xp p + 10 * (- level p) * (1 - level p)
  else xp p.

Definition gain_xp (amount : Z) (p : Player) : result (Player * bool) :=
  let p1 := set_xp (xp p + amount) p in
  gain_xp_loop (S (Z.to_nat (xp_budget p1))) p1 false.

(** ** Static tables *)

(** [MONSTER_DEFS]: name, hp, atk, xp (the glyph and the colour are
    cosmetic and left out, as for every entity below). *)
Definition MONSTER_DEFS : list (string * Z * Z * Z) :=
  [ ("rat", 6, 2, 5); ("snake", 8, 3, 8); ("goblin", 12, 4, 12);
    ("kobold", 15, 5, 16); ("orc", 22, 7, 25); ("skeleton", 20, 6, 22);
    ("troll", 35, 9, 40); ("wraith", 28, 11, 50); ("dragon", 60, 15, 100) ]%string.

Definition WEAPON_NAMES : list (string * Z) :=
  [ ("rusty dagger", 2); ("short sword", 4); ("mace", 6); ("long sword", 8);
    ("battle axe", 10); ("war hammer", 12); ("enchanted blade", 15) ]%string.

Definition SCROLL_EFFECTS : list (string * Effect) :=
  [ ("fireball", damage); ("lightning", damage); ("healing", heal);
    ("strength", buff_atk); ("shield", buff_def); ("mapping", reveal) ]%string.

(** [len(l)] *)
Definition len {A} (l : list A) : Z := Z.of_nat (length l).

(** [str(n)] for an integer, as used by the f-strings. *)
Definition str (n : Z) : string := NilZero.string_of_int (Z.to_int n).

(** ** Floating point

    The two places where the program computes with floats (the depth
    scaling of monster statistics and the ray stepping of the field of
    view) are embedded over an abstract interface of the float operations
    they use. The operations are total: the OverflowError of converting an
    integer beyond the float range is outside the embedding, and the
    theorems below bound the integers that are converted. *)
Class Float64 := {
  float : Type;
  float_of_int : Z -> float;          (* the int -> float coercion *)
  fadd : float -> float -> float;
  fmul : float -> float -> float;
  fdiv : float -> float -> float;
  fcos : float -> float;              (* math.cos *)
  fsin : float -> float;              (* math.sin *)
  fpi : float;                        (* math.pi *)
  f0_15 : float;                      (* the literal 0.15 *)
  f0_1 : float;                       (* the literal 0.1 *)
  int_of_float : float -> Z;          (* int(f): truncation *)
  fround : float -> Z                 (* int(round(f)) *)
}.

(** ** DungeonLevel *)

(** A room is the tuple [(rx, ry, rw, rh)]. *)
Definition Room : Type := Z * Z * Z * Z.

(** The merchant entity and its stock list. *)
Record Merchant := mkMerchant {
  mc_x : Z; mc_y : Z; stock : list StockEntry }.

Record DungeonLevel := mkLevel {
  d_w : Z; d_h : Z; d_depth : Z;
  tiles : list (list Tile);
  revealed : list (list bool);
  visible : list (list bool);
  rooms : list Room;
  monsters : list Monster;
  items : list Item;
  stairs_pos : option (Z * Z);
  merchant : option Merchant }.

Definition set_tiles (t : list (list Tile)) (d : DungeonLevel) :=
  mkLevel (d_w d) (d_h d) (d_depth d) t (revealed d) (visible d) (rooms d)
    (monsters d) (items d) (stairs_pos d) (merchant d).
Definition set_revealed (v : list (list bool)) (d : DungeonLevel) :=
  mkLevel (d_w d) (d_h d) (d_depth d) (tiles d) v (visible d) (rooms d)
    (monsters d) (items d) (stairs_pos d) (merchant d).
Definition set_visible (v : list (list bool)) (d : DungeonLevel) :=
  mkLevel (d_w d) (d_h d) (d_depth d) (tiles d) (revealed d) v (rooms d)
    (monsters d) (items d) (stairs_pos d) (merchant d).
Definition set_rooms (v : list Room) (d : DungeonLevel) :=
  mkLevel (d_w d) (d_h d) (d_depth d) (tiles d) (revealed d) (visible d) v
    (monsters d) (items d) (stairs_pos d) (merchant d).
Definition set_monsters (v : list Monster) (d : DungeonLevel) :=
  mkLevel (d_w d) (d_h d) (d_depth d) (tiles d) (revealed d) (visible d)
    (rooms d) v (items d) (stairs_pos d) (merchant d).
Definition set_items (v : list Item) (d : DungeonLevel) :=
  mkLevel (d_w d) (d_h d) (d_depth d) (tiles d) (revealed d) (visible d)
    (rooms d) (monsters d) v (stairs_pos d) (merchant d).
Definition set_stairs_pos (v : option (Z * Z)) (d : DungeonLevel) :=
  mkLevel (d_w d) (d_h d) (d_depth d) (tiles d) (revealed d) (visible d)
    (rooms d) (monsters d) (items d) v (merchant d).
Definition set_merchant (v : option Merchant) (d : DungeonLevel) :=
  mkLevel (d_w d) (d_h d) (d_depth d) (tiles d) (revealed d) (visible d)
    (rooms d) (monsters d) (items d) (stairs_pos d) v.

(** Running a fallible loop body over a list, as a [for] loop does. *)
Fixpoint for_each {A S} (l : list A) (body : A -> S -> result S) (s : S)
  : result S :=
  match l with
  | [] => Ok s
  | a :: l' => s' ← body a s; for_each l' body s'
  end.

(** [_generate_merchant_stock]: the 1-2 potions. *)
Fixpoint stock_potions (n : nat) (depth : Z) (acc : list StockEntry) (r : Rng)
  : result (list StockEntry * Rng) :=
  match n with
  | O => Ok (acc, r)
  | S n' =>
      '(v, r) ← randint 10 20 r;
      let heal := v + depth * 2 in
      '(price, r) ← randint 15 25 r;
      stock_potions n' depth
        (acc ++ [mkEntry ("potion (+" +:+ str heal +:+ " HP)") (potion heal) price]) r
  end.

(** [_generate_merchant_stock]: the 1-2 scrolls. *)
Fixpoint stock_scrolls (n : nat) (acc : list StockEntry) (r : Rng)
  : result (list StockEntry * Rng) :=
  match n with
  | O => Ok (acc, r)
  | S n' =>
      '(eff, r) ← choice SCROLL_EFFECTS r;
      '(price, r) ← randint 30 50 r;
      stock_scrolls n'
        (acc ++ [mkEntry ("scroll of " +:+ eff.1) (scroll eff.1 eff.2) price]) r
  end.

Definition _generate_merchant_stock (depth : Z) (r : Rng)
  : result (list StockEntry * Rng) :=
  '(n, r) ← randint 1 2 r;
  '(stock, r) ← stock_potions (Z.to_nat n) depth [] r;
  '(t, r) ← randint 0 (depth + 1) r;
  let tier := Z.min t (len WEAPON_NAMES - 1) in
  '(name, bonus) ← py_get WEAPON_NAMES tier;
  let price := 20 + bonus * 3 in
  let stock := stock ++ [mkEntry name (weapon bonus) price] in
  '(n, r) ← randint 1 2 r;
  stock_scrolls (Z.to_nat n) stock r.

(** [_rooms_overlap] *)
Definition _rooms_overlap (a b : Room) : bool :=
  let '(ax, ay, aw, ah) := a in
  let '(bx, b_y, bw, bh) := b in
  negb ((ax + aw + 1 <? bx) || (bx + bw + 1 <? ax) ||
        (ay + ah + 1 <? b_y) || (b_y + bh + 1 <? ay)).

(** [_carve_room] *)
Definition _carve_room (room : Room) (t : list (list Tile))
  : result (list (list Tile)) :=
  let '(rx, ry, rw, rh) := room in
  for_each (range ry (ry + rh)) (fun y t =>
    for_each (range rx (rx + rw)) (fun x t => grid_set t x y FLOOR) t) t.

(** The loop [while x != x2] of [_connect]; the budget is the distance
    left to walk. *)
Fixpoint connect_x (fuel : nat) (x y x2 : Z) (t : list (list Tile))
  : result (Z * list (list Tile)) :=
  if x =? x2 then Ok (x, t)
  else match fuel with
       | O => Diverged
       | S fuel' =>
           t' ← grid_set t x y FLOOR;
           connect_x fuel' (x + (if x <? x2 then 1 else -1)) y x2 t'
       end.

(** The loop [while y != y2] of [_connect]. *)
Fixpoint connect_y (fuel : nat) (x y y2 : Z) (t : list (list Tile))
  : result (Z * list (list Tile)) :=
  if y =? y2 then Ok (y, t)
  else match fuel with
       | O => Diverged
       | S fuel' =>
           t' ← grid_set t x y FLOOR;
           connect_y fuel' x (y + (if y <? y2 then 1 else -1)) y2 t'
       end.

Definition center (r : Room) : Z * Z :=
  let '(rx, ry, rw, rh) := r in (rx + rw `div` 2, ry + rh `div` 2).

(** [_connect] *)
Definition _connect (r1 r2 : Room) (t : list (list Tile))
  : result (list (list Tile)) :=
  let '(x1, y1) := center r1 in
  let '(x2, y2) := center r2 in
  '(x, t) ← connect_x (Z.to_nat (Z.abs (x2 - x1))) x1 y1 x2 t;
  '(_, t) ← connect_y (Z.to_nat (Z.abs (y2 - y1))) x y1 y2 t;
  Ok t.

(** [_place_item]; the roll [k / 2^53] is compared with the doubles
    0.35, 0.6 and 0.85, whose exact values are the thresholds divided by
    [2^53]. *)
Definition _place_item (x y : Z) (s : Rng * DungeonLevel)
  : result (Rng * DungeonLevel) :=
  let '(r, d) := s in
  let '(roll, r) := random_unit r in
  if roll <? 3152519739159347 then
    '(hl, r) ← randint 8 20 r;
    Ok (r, set_items (items d ++
          [mkItem x y ("potion (+" +:+ str hl +:+ " HP)") (potion hl)]) d)
  else if roll <? 5404319552844595 then
    '(t, r) ← randint 0 (d_depth d) r;
    let tier := Z.min t (len WEAPON_NAMES - 1) in
    '(name, bonus) ← py_get WEAPON_NAMES tier;
    Ok (r, set_items (items d ++ [mkItem x y name (weapon bonus)]) d)
  else if roll <? 7656119366529843 then
    '(amount, r) ← randint 5 (15 + d_depth d * 5) r;
    Ok (r, set_items (items d ++
          [mkItem x y (str amount +:+ " gold") (gold amount)]) d)
  else
    '(eff, r) ← choice SCROLL_EFFECTS r;
    Ok (r, set_items (items d ++
          [mkItem x y ("scroll of " +:+ eff.1) (scroll eff.1 eff.2)]) d).

(** The room-placement loop [for _ in range(200)] of [_generate], for the
    [n] attempts that are left. *)
Fixpoint place_rooms (n : nat) (num_rooms : Z) (s : Rng * DungeonLevel)
  : result (Rng * DungeonLevel) :=
  match n with
  | O => Ok s
  | S n' =>
      let '(r, d) := s in
      if num_rooms <=? len (rooms d) then Ok s
      else
        '(rw, r) ← randint 5 12 r;
        '(rh, r) ← randint 4 8 r;
        '(rx, r) ← randint 1 (d_w d - rw - 2) r;
        '(ry, r) ← randint 1 (d_h d - rh - 2) r;
        let room := (rx, ry, rw, rh) in
        if existsb (_rooms_overlap room) (rooms d)
        then place_rooms n' num_rooms (r, d)
        else
          t ← _carve_room room (tiles d);
          t ← match last (rooms d) with
              | Some prev => _connect prev room t
              | None => Ok t
              end;
          place_rooms n' num_rooms
            (r, set_rooms (rooms d ++ [room]) (set_tiles t d))
  end.

Section Generation.
Context `{Float64}.

(** [int(base * (1 + (depth - 1) * c))] *)
Definition scaled (base depth : Z) (c : float) : Z :=
  int_of_float
    (fmul (float_of_int base)
          (fadd (float_of_int 1) (fmul (float_of_int (depth - 1)) c))).

(** One iteration of the inner monster loop of [_generate]. *)
Definition spawn_monster (room : Room) (s : Rng * DungeonLevel)
  : result (Rng * DungeonLevel) :=
  let '(r, d) := s in
  let '(rx, ry, rw, rh) := room in
  '(mx, r) ← randint (rx + 1) (rx + rw - 2) r;
  '(my, r) ← randint (ry + 1) (ry + rh - 2) r;
  t ← grid_get (tiles d) mx my;
  if tile_eqb t FLOOR then
    '(v, r) ← randint 0 (d_depth d) r;
    let tier := Z.min v (len MONSTER_DEFS - 1) in
    '(name, mhp, matk, mxp) ← py_get MONSTER_DEFS tier;
    let m := mkMonster mx my name
               (scaled mhp (d_depth d) f0_15) (scaled mhp (d_depth d) f0_15)
               (scaled matk (d_depth d) f0_1) mxp in
    Ok (r, set_monsters (monsters d ++ [m]) d)
  else Ok (r, d).

(** The monster loop of [_generate] for one room. *)
Definition spawn_monsters (room : Room) (s : Rng * DungeonLevel)
  : result (Rng * DungeonLevel) :=
  let '(r, d) := s in
  '(n, r) ← randint 0 (2 + d_depth d `div` 2) r;
  for_each (range 0 n) (fun _ => spawn_monster room) (r, d).

(** The item loop of [_generate] for one room. *)
Definition spawn_item (room : Room) (s : Rng * DungeonLevel)
  : result (Rng * DungeonLevel) :=
  let '(r, d) := s in
  let '(rx, ry, rw, rh) := room in
  let '(roll, r) := random_unit r in
  if roll <? 4503599627370496 then
    '(ix, r) ← randint (rx + 1) (rx + rw - 2) r;
    '(iy, r) ← randint (ry + 1) (ry + rh - 2) r;
    t ← grid_get (tiles d) ix iy;
    if tile_eqb t FLOOR then _place_item ix iy (r, d) else Ok (r, d)
  else Ok (r, d).

(** The merchant placement of [_generate]. *)
Definition place_merchant (s : Rng * DungeonLevel)
  : result (Rng * DungeonLevel) :=
  let '(r, d) := s in
  if 2 <? len (rooms d) then
    '(mroom, r) ← choice (take (length (rooms d) - 2) (drop 1 (rooms d))) r;
    let '(mx, my) := center mroom in
    '(st, r) ← _generate_merchant_stock (d_depth d) r;
    Ok (r, set_merchant (Some (mkMerchant mx my st)) d)
  else Ok (r, d).

(** [DungeonLevel._generate] *)
Definition _generate (s : Rng * DungeonLevel) : result (Rng * DungeonLevel) :=
  let '(r, d) := s in
  '(num_rooms, r) ← randint 5 9 r;
  '(r, d) ← place_rooms 200 num_rooms (r, d);
  lr ← py_get (rooms d) (-1);
  let '(sx, sy) := center lr in
  t ← grid_set (tiles d) sx sy STAIRS;
  let d := set_stairs_pos (Some (sx, sy)) (set_tiles t d) in
  s ← for_each (drop 1 (rooms d)) spawn_monsters (r, d);
  s ← for_each (rooms s.2) spawn_item s;
  place_merchant s.

(** [DungeonLevel.__init__] *)
Definition DungeonLevel_init (width height depth : Z) (r : Rng)
  : result (Rng * DungeonLevel) :=
  let row {A} (a : A) := replicate (Z.to_nat width) a in
  let grid {A} (a : A) := replicate (Z.to_nat height) (row a) in
  _generate (r, mkLevel width height depth (grid WALL) (grid false)
                  (grid false) [] [] [] None None).

End Generation.

(** The position of the first element that satisfies [f]. Entities are
    objects compared by identity: a search result is the position of the
    object in its list. *)
Fixpoint find_index {A} (f : A -> bool) (l : list A) : option nat :=
  match l with
  | [] => None
  | a :: l' => if f a then Some O else S <$> find_index f l'
  end.

(** [monster_at] *)
Definition monster_at (x y : Z) (d : DungeonLevel) : option nat :=
  find_index (fun m => (m_x m =? x) && (m_y m =? y)) (monsters d).

(** [item_at] *)
Definition item_at (x y : Z) (d : DungeonLevel) : option nat :=
  find_index (fun i => (i_x i =? x) && (i_y i =? y)) (items d).

Definition in_bounds (x y : Z) (d : DungeonLevel) : bool :=
  (0 <=? x) && (x <? d_w d) && (0 <=? y) && (y <? d_h d).

(** [is_walkable] *)
Definition is_walkable (x y : Z) (d : DungeonLevel) : result bool :=
  if in_bounds x y d then
    t ← grid_get (tiles d) x y; Ok (negb (tile_eqb t WALL))
  else Ok false.

(** [reveal_all] *)
Definition reveal_all (d : DungeonLevel) : result DungeonLevel :=
  rev ← for_each (range 0 (d_h d)) (fun y rev =>
           for_each (range 0 (d_w d)) (fun x rev => grid_set rev x y true) rev)
         (revealed d);
  Ok (set_revealed rev d).

(** The two assignments [visible[iy][ix] = True] and
    [revealed[iy][ix] = True] of [compute_fov]. *)
Definition mark (ix iy : Z) (d : DungeonLevel) : result DungeonLevel :=
  vis ← grid_set (visible d) ix iy true;
  rev ← grid_set (revealed d) ix iy true;
  Ok (set_revealed rev (set_visible vis d)).

Section Visibility.
Context `{Float64}.

(** The inner loop of [compute_fov]: the [n] steps left of one ray at
    the float position [(x, y)] with direction [(dx, dy)]. *)
Fixpoint cast_ray (n : nat) (x y dx dy : float) (d : DungeonLevel)
  : result DungeonLevel :=
  match n with
  | O => Ok d
  | S n' =>
      let ix := fround x in
      let iy := fround y in
      if in_bounds ix iy d then
        d' ← mark ix iy d;
        t ← grid_get (tiles d') ix iy;
        if tile_eqb t WALL then Ok d'
        else cast_ray n' (fadd x dx) (fadd y dy) dx dy d'
      else Ok d
  end.

(** The tiles under the first [n] positions of a ray: the position is
    rounded, then advanced by the direction, as in the loop. *)
Fixpoint ray_tiles (n : nat) (x y dx dy : float) : list (Z * Z) :=
  match n with
  | O => []
  | S n' => (fround x, fround y) :: ray_tiles n' (fadd x dx) (fadd y dy) dx dy
  end.

(** [angle_step * math.pi / 180] *)
Definition angle (angle_step : Z) : float :=
  fdiv (fmul (float_of_int angle_step) fpi) (float_of_int 180).

(** The body of the loop over [angle_step]. *)
Definition cast_angle (px py radius : Z) (angle_step : Z) (d : DungeonLevel)
  : result DungeonLevel :=
  cast_ray (Z.to_nat radius) (float_of_int px) (float_of_int py)
    (fcos (angle angle_step)) (fsin (angle angle_step)) d.

(** [compute_fov] *)
Definition compute_fov (px py radius : Z) (d : DungeonLevel)
  : result DungeonLevel :=
  let d := set_visible (map (map (fun _ => false)) (visible d)) d in
  for_each (range 0 360) (cast_angle px py radius) d.

(** The operations of a level that write to its visibility grids. *)
Inductive touches : DungeonLevel -> DungeonLevel -> Prop :=
  | touch_fov px py radius d d' :
      compute_fov px py radius d = Ok d' -> touches d d'
  | touch_reveal d d' :
      reveal_all d = Ok d' -> touches d d'.

End Visibility.

(** The grids of a level have [d_h] rows of [d_w] cells, as [__init__]
    builds them. *)
Definition grid_shape {A} (w h : Z) (g : list (list A)) : Prop :=
  length g = Z.to_nat h /\ Forall (fun row => length row = Z.to_nat w) g.

Definition level_shape (d : DungeonLevel) : Prop :=
  grid_shape (d_w d) (d_h d) (tiles d) /\
  grid_shape (d_w d) (d_h d) (revealed d) /\
  grid_shape (d_w d) (d_h d) (visible d).

(** ** Game *)

(** The [state] field. *)
Inductive State : Type := title | play | dead | in_inventory | shop | win.

(** What [_shop_stock] refers to. A stock list has at most two referents,
    the merchant of the current level and [_shop_stock]: either
    [_shop_stock] is that merchant's list object itself ([OfMerchant]), so
    that a purchase changes both, or it is a list no level refers to
    ([Detached]: the empty list of [__init__], or the stock of a merchant of
    a level that has been left). *)
Inductive StockRef : Type :=
  | Detached (l : list StockEntry)
  | OfMerchant.

Record Game := mkGame {
  running : bool;
  messages : list string;
  player : Player;
  dungeon : option DungeonLevel;
  state : State;
  _shop_stock : StockRef;
  rng : Rng }.

Definition MAP_W : Z := 70.
Definition MAP_H : Z := 22.

(** [Game.__init__] (the curses set-up is left out). *)
Definition Game_init (r : Rng) : Game :=
  mkGame true [] (Player_init 0 0) None title (Detached []) r.

Definition set_running (v : bool) (g : Game) : Game :=
  mkGame v (messages g) (player g) (dungeon g) (state g) (_shop_stock g) (rng g).
Definition set_messages (v : list string) (g : Game) : Game :=
  mkGame (running g) v (player g) (dungeon g) (state g) (_shop_stock g) (rng g).
Definition set_player (v : Player) (g : Game) : Game :=
  mkGame (running g) (messages g) v (dungeon g) (state g) (_shop_stock g) (rng g).
Definition set_dungeon (v : DungeonLevel) (g : Game) : Game :=
  mkGame (running g) (messages g) (player g) (Some v) (state g) (_shop_stock g)
    (rng g).
Definition set_state (v : State) (g : Game) : Game :=
  mkGame (running g) (messages g) (player g) (dungeon g) v (_shop_stock g) (rng g).
Definition set_shop_stock (v : StockRef) (g : Game) : Game :=
  mkGame (running g) (messages g) (player g) (dungeon g) (state g) v (rng g).
Definition set_rng (v : Rng) (g : Game) : Game :=
  mkGame (running g) (messages g) (player g) (dungeon g) (state g)
    (_shop_stock g) v.

(** [self.dungeon], on which every attribute access fails while it is
    still [None]. *)
Definition the_dungeon (g : Game) : result DungeonLevel :=
  match dungeon g with
  | Some d => Ok d
  | None => Raise AttributeError
  end.

(** The list object [_shop_stock] refers to. *)
Definition shop_list (g : Game) : list StockEntry :=
  match _shop_stock g with
  | Detached l => l
  | OfMerchant =>
      match dungeon g with
      | Some d => match merchant d with Some m => stock m | None => [] end
      | None => []
      end
  end.

(** An in-place update of the list object [_shop_stock] refers to. *)
Definition set_shop_list (l : list StockEntry) (g : Game) : Game :=
  match _shop_stock g with
  | Detached _ => set_shop_stock (Detached l) g
  | OfMerchant =>
      match dungeon g with
      | Some d =>
          match merchant d with
          | Some m =>
              set_dungeon (set_merchant (Some (mkMerchant (mc_x m) (mc_y m) l)) d) g
          | None => g
          end
      | None => g
      end
  end.

(** [msg] *)
Definition msg (text : string) (g : Game) : Game :=
  let ms := messages g ++ [text] in
  set_messages (if 5 <? len ms then drop 1 ms else ms) g.

(** The damage of a player attack for the draw [r] of [randint(0, 2)]. *)
Definition player_damage (p : Player) (r : Z) : Z := Z.max 1 (atk p - r).

(** The damage of a monster attack for the draw [r] of [randint(0, 2)]. *)
Definition monster_damage (m : Monster) (p : Player) (r : Z) : Z :=
  Z.max 1 (m_atk m - defense p - r).

Definition set_m_hp (v : Z) (m : Monster) : Monster :=
  mkMonster (m_x m) (m_y m) (m_name m) v (m_max_hp m) (m_atk m) (m_xp m).
Definition set_m_pos (x y : Z) (m : Monster) : Monster :=
  mkMonster x y (m_name m) (m_hp m) (m_max_hp m) (m_atk m) (m_xp m).

(** The element at a position returned by a search of the same list. *)
Definition nth_obj {A} (l : list A) (i : nat) : result A :=
  match l !! i with Some a => Ok a | None => Raise IndexError end.

(** [_attack_monster], for the monster at position [i] of the list. *)
Definition _attack_monster (i : nat) (g : Game) : result Game :=
  let p := player g in
  d ← the_dungeon g;
  mon ← nth_obj (monsters d) i;
  '(r, rng') ← randint 0 2 (rng g);
  let g := set_rng rng' g in
  let dmg := player_damage p r in
  let mon := set_m_hp (m_hp mon - dmg) mon in
  if m_hp mon <=? 0 then
    let g := msg ("You slay the " +:+ m_name mon +:+ "! (+" +:+ str (m_xp mon)
                  +:+ " XP)") g in
    let g := set_dungeon (set_monsters (delete i (monsters d)) d) g in
    let p := set_kills (kills p + 1) p in
    '(p, leveled) ← gain_xp (m_xp mon) p;
    let g := set_player p g in
    let g := if leveled : bool
             then msg ("Level up! You are now level " +:+ str (level p) +:+ "!") g
             else g in
    Ok (if String.eqb (m_name mon) "dragon" && (8 <=? p_depth p)
        then set_state win g else g)
  else
    let g := set_dungeon (set_monsters (<[i := mon]> (monsters d)) d) g in
    Ok (msg ("You hit the " +:+ m_name mon +:+ " for " +:+ str dmg +:+ " dmg. ("
             +:+ str (m_hp mon) +:+ "/" +:+ str (m_max_hp mon) +:+ ")") g).

(** [_pickup], for the item at position [i] of the level's item list. *)
Definition _pickup (i : nat) (g : Game) : result Game :=
  let p := player g in
  d ← the_dungeon g;
  item ← nth_obj (items d) i;
  let g :=
    match i_kind item with
    | potion _ =>
        msg ("Picked up " +:+ i_name item +:+ ". (i to use)")
          (set_player (set_inventory (inventory p ++ [item]) p) g)
    | weapon value =>
        if atk_bonus p <? value then
          msg ("Equipped " +:+ i_name item +:+ "! (ATK +" +:+ str value +:+ ")")
            (set_player (equip (i_name item) value p) g)
        else
          msg ("The " +:+ i_name item +:+ " is weaker than your " +:+ p_weapon p
               +:+ ".") g
    | gold value =>
        let p := set_gold (p_gold p + value) p in
        msg ("Found " +:+ str value +:+ " gold! (Total: " +:+ str (p_gold p)
             +:+ ")") (set_player p g)
    | scroll _ _ =>
        msg ("Picked up " +:+ i_name item +:+ ". (i to use)")
          (set_player (set_inventory (inventory p ++ [item]) p) g)
    end in
  Ok (set_dungeon (set_items (delete i (items d)) d) g).

(** The body of the loop of [_monster_turns] for the monster at position
    [i]; the boolean tells whether the loop goes on ([false] after the
    [return] on the player's death). *)
Definition monster_turn (i : nat) (g : Game) : result (Game * bool) :=
  let p := player g in
  d ← the_dungeon g;
  m ← nth_obj (monsters d) i;
  vis ← grid_get (visible d) (m_x m) (m_y m);
  if negb vis then Ok (g, true)
  else
    let dist := Z.abs (m_x m - p_x p) + Z.abs (m_y m - p_y p) in
    if dist <=? 1 then
      '(r, rng') ← randint 0 2 (rng g);
      let dmg := monster_damage m p r in
      let p := set_hp (hp p - dmg) p in
      let g := set_player p (set_rng rng' g) in
      let g := msg ("The " +:+ m_name m +:+ " hits you for " +:+ str dmg +:+ "!") g in
      if hp p <=? 0 then Ok (set_state dead g, false) else Ok (g, true)
    else if dist <=? 8 then
      let dx := if p_x p =? m_x m then 0 else if m_x m <? p_x p then 1 else -1 in
      let dy := if p_y p =? m_y m then 0 else if m_y m <? p_y p then 1 else -1 in
      let move x y :=
        Ok (set_dungeon (set_monsters (<[i := set_m_pos x y m]> (monsters d)) d) g,
            true) in
      wx ← (if dx =? 0 then Ok false else is_walkable (m_x m + dx) (m_y m) d);
      if wx && negb (bool_decide (is_Some (monster_at (m_x m + dx) (m_y m) d)))
      then move (m_x m + dx) (m_y m)
      else
        wy ← (if dy =? 0 then Ok false else is_walkable (m_x m) (m_y m + dy) d);
        if wy && negb (bool_decide (is_Some (monster_at (m_x m) (m_y m + dy) d)))
        then move (m_x m) (m_y m + dy)
        else Ok (g, true)
    else Ok (g, true).

(** The loop [for m in list(d.monsters)] over the positions of the
    snapshot. No monster is added or removed during a sweep, so the object
    at position [i] of the snapshot is the one at position [i] of
    [d.monsters]. *)
Fixpoint monster_loop (idx : list nat) (g : Game) : result Game :=
  match idx with
  | [] => Ok g
  | i :: rest =>
      '(g, continue) ← monster_turn i g;
      if continue : bool then monster_loop rest g else Ok g
  end.

(** [_monster_turns] *)
Definition _monster_turns (g : Game) : result Game :=
  d ← the_dungeon g;
  monster_loop (seq 0 (length (monsters d))) g.

(** The damage-scroll loop of [_use_item] over the snapshot [ms] of the
    monster list: [kept] collects, in order, the monsters that stay in
    [d.monsters]. *)
Fixpoint blast (ms kept : list Monster) (vis : list (list bool)) (total : Z)
    (p : Player) (r : Rng) : result (list Monster * Z * Player * Rng) :=
  match ms with
  | [] => Ok (kept, total, p, r)
  | m :: ms' =>
      v ← grid_get vis (m_x m) (m_y m);
      if v : bool then
        '(dmg, r) ← randint 10 25 r;
        let m := set_m_hp (m_hp m - dmg) m in
        if m_hp m <=? 0 then
          '(p, _) ← gain_xp (m_xp m) (set_kills (kills p + 1) p);
          blast ms' kept vis (total + 1) p r
        else blast ms' (kept ++ [m]) vis (total + 1) p r
      else blast ms' (kept ++ [m]) vis total p r
  end.

(** [l.pop(i)], for the effect on the list. *)
Definition py_pop {A} (l : list A) (i : Z) : result (list A) :=
  match py_index (length l) i with
  | Some k => Ok (delete k l)
  | None => Raise IndexError
  end.

(** [_use_item] *)
Definition _use_item (idx : Z) (g : Game) : result Game :=
  let p := player g in
  item ← py_get (inventory p) idx;
  g ← match i_kind item with
      | potion value =>
          let p := set_hp (Z.min (max_hp p) (hp p + value)) p in
          Ok (msg ("You drink the potion. (+" +:+ str value +:+ " HP, now "
                   +:+ str (hp p) +:+ "/" +:+ str (max_hp p) +:+ ")")
                (set_player p g))
      | scroll name effect =>
          match effect with
          | damage =>
              d ← the_dungeon g;
              '(kept, total, p, r) ← blast (monsters d) [] (visible d) 0 p (rng g);
              Ok (msg ("The scroll of " +:+ name +:+ " blasts " +:+ str total
                       +:+ " creatures!")
                    (set_dungeon (set_monsters kept d) (set_player p (set_rng r g))))
          | heal =>
              Ok (msg "The scroll fully restores your health!"
                    (set_player (set_hp (max_hp p) p) g))
          | buff_atk =>
              let p := set_base_atk (base_atk p + 2) p in
              Ok (msg ("You feel stronger! (ATK now " +:+ str (atk p) +:+ ")")
                    (set_player p g))
          | buff_def =>
              let p := set_defense (defense p + 2) p in
              Ok (msg ("A magical shield surrounds you! (DEF now "
                       +:+ str (defense p) +:+ ")") (set_player p g))
          | reveal =>
              d ← the_dungeon g;
              d ← reveal_all d;
              Ok (msg "The dungeon layout is revealed!" (set_dungeon d g))
          end
      | _ => Ok g
      end;
  inv ← py_pop (inventory (player g)) idx;
  Ok (set_player (set_inventory inv (player g)) g).

(** [_inventory_screen], for the key read by [getch]. *)
Definition _inventory_screen (key : Z) (g : Game) : result Game :=
  if (key =? 27) || (key =? 105) then Ok (set_state play g)
  else if (97 <=? key) && (key <=? 122) then
    let idx := key - 97 in
    if idx <? len (inventory (player g)) then
      g ← _use_item idx g; Ok (set_state play g)
    else Ok g
  else Ok g.

(** [_shop_screen], for the key read by [getch]. *)
Definition _shop_screen (key : Z) (g : Game) : result Game :=
  let p := player g in
  if key =? 27 then Ok (set_state play g)
  else if (97 <=? key) && (key <=? 122) then
    let idx := key - 97 in
    if idx <? len (shop_list g) then
      entry ← py_get (shop_list g) idx;
      let price := e_price entry in
      if price <=? p_gold p then
        let p := set_gold (p_gold p - price) p in
        let g :=
          match e_kind entry with
          | weapon value =>
              if atk_bonus p <? value then
                msg ("Bought and equipped " +:+ e_name entry +:+ "!")
                  (set_player (equip (e_name entry) value p) g)
              else
                msg ("Bought " +:+ e_name entry +:+ " but your " +:+ p_weapon p
                     +:+ " is better.") (set_player p g)
          | kind =>
              let item := mkItem 0 0 (e_name entry) kind in
              msg ("Bought " +:+ e_name entry +:+ ".")
                (set_player (set_inventory (inventory p ++ [item]) p) g)
          end in
        l ← py_pop (shop_list g) idx;
        Ok (set_shop_list l g)
      else Ok (msg "You can't afford that!" g)
    else Ok g
  else Ok g.

Section Session.
Context `{Float64}.

(** [_try_move] *)
Definition _try_move (dx dy : Z) (g : Game) : result Game :=
  let nx := p_x (player g) + dx in
  let ny := p_y (player g) + dy in
  d ← the_dungeon g;
  let bump :=
    match merchant d with
    | Some mc => (mc_x mc =? nx) && (mc_y mc =? ny)
    | None => false
    end in
  if bump then Ok (set_state shop (set_shop_stock OfMerchant g))
  else
    match monster_at nx ny d with
    | Some mon => _attack_monster mon g
    | None =>
        wk ← is_walkable nx ny d;
        if wk : bool then
          let g := set_player (set_pos nx ny (player g)) g in
          d ← compute_fov nx ny 6 d;
          let g := set_dungeon d g in
          match item_at nx ny d with
          | Some item => _pickup item g
          | None => Ok g
          end
        else Ok g
    end.

(** [new_level]. The level that is left is dropped; when [_shop_stock]
    is its merchant's list, it stays the only referent of that list. *)
Definition new_level (depth : Z) (g : Game) : result Game :=
  '(r, d) ← DungeonLevel_init MAP_W MAP_H depth (rng g);
  let g := set_shop_stock (Detached (shop_list g)) g in
  let g := set_dungeon d (set_rng r g) in
  let p := set_depth depth (Z.max (max_depth (player g)) depth) (player g) in
  room ← py_get (rooms d) 0;
  let '(x, y) := center room in
  let p := set_pos x y p in
  d ← compute_fov x y 6 d;
  Ok (msg ("You descend to depth " +:+ str depth +:+ ".")
        (set_dungeon d (set_player p g))).

(** [_try_descend] *)
Definition _try_descend (g : Game) : result Game :=
  let p := player g in
  d ← the_dungeon g;
  match stairs_pos d with
  | Some (sx, sy) =>
      if (p_x p =? sx) && (p_y p =? sy) then new_level (p_depth p + 1) g
      else Ok (msg "There are no stairs here." g)
  | None => Ok (msg "There are no stairs here." g)
  end.

(** The key codes of curses. *)
Definition KEY_DOWN : Z := 258.
Definition KEY_UP : Z := 259.
Definition KEY_LEFT : Z := 260.
Definition KEY_RIGHT : Z := 261.
Definition KEY_ENTER : Z := 343.

Definition key_in (key : Z) (l : list Z) : bool := existsb (Z.eqb key) l.

(** What the key stands for in [_handle_input]. *)
Inductive Intent : Type :=
  | Move (dx dy : Z)   (* the movement keys and the two wait keys (0, 0) *)
  | Descend
  | OpenInventory
  | Quit
  | Ignore.

(** The [if]/[elif] chain of [_handle_input]; [.] is 46, [5] is 53. *)
Definition intent_of_key (key : Z) : Intent :=
  if key_in key [KEY_UP; 119; 107] then Move 0 (-1)
  else if key_in key [KEY_DOWN; 115; 106] then Move 0 1
  else if key_in key [KEY_LEFT; 97; 104] then Move (-1) 0
  else if key_in key [KEY_RIGHT; 100; 108] then Move 1 0
  else if key_in key [121] then Move (-1) (-1)
  else if key_in key [117] then Move 1 (-1)
  else if key_in key [98] then Move (-1) 1
  else if key_in key [110] then Move 1 1
  else if key_in key [62; 10; KEY_ENTER] then Descend
  else if (key =? 46) || (key =? 53) then Move 0 0
  else if key =? 105 then OpenInventory
  else if key =? 113 then Quit
  else Ignore.

(** [_handle_input], for the key read by [getch]. *)
Definition _handle_input (key : Z) (g : Game) : result Game :=
  match intent_of_key key with
  | Descend => _try_descend g
  | OpenInventory => Ok (set_state in_inventory g)
  | Quit => Ok (set_running false g)
  | Ignore => Ok g
  | Move dx dy =>
      g ← (if negb (dx =? 0) || negb (dy =? 0) then _try_move dx dy g
           else Ok g);
      _monster_turns g
  end.

(** [_title_screen], once a key has been pressed. *)
Definition _title_screen (g : Game) : result Game :=
  new_level 1 (set_messages [] (set_player (Player_init 0 0) (set_state play g))).

(** [_death_screen] and [_win_screen], for the key read by [getch]. *)
Definition _end_screen (key : Z) (g : Game) : Game :=
  if key =? 113 then set_running false g
  else if key =? 32 then set_state title g
  else g.

(** One iteration of the loop of [run], for the key read in it. *)
Definition tick (key : Z) (g : Game) : result Game :=
  match state g with
  | title => _title_screen g
  | play => _handle_input key g
  | dead => Ok (_end_screen key g)
  | in_inventory => _inventory_screen key g
  | shop => _shop_screen key g
  | win => Ok (_end_screen key g)
  end.

(** The states a session goes through: the initial one, and those the
    loop of [run] reaches from it, one key after the other. *)
Inductive reachable : Game -> Prop :=
  | reach_init r : reachable (Game_init r)
  | reach_tick key g g' : reachable g -> tick key g = Ok g' -> reachable g'.

End Session.

(** Every tile revealed in [d] is revealed in [d']. *)
Definition revealed_le (d d' : DungeonLevel) : Prop :=
  forall x y, grid_get (revealed d) x y = Ok true ->
              grid_get (revealed d') x y = Ok true.

(** [sweep idx g g']: the body of the loop of [_monster_turns] runs for the
    positions [idx] in turn, from [g] to [g'], and the loop goes on after
    each of them. *)
Inductive sweep : list nat -> Game -> Game -> Prop :=
  | sweep_nil g : sweep [] g g
  | sweep_cons i idx g g1 g2 :
      monster_turn i g = Ok (g1, true) -> sweep idx g1 g2 ->
      sweep (i :: idx) g g2.

(** The operations that change the player's hp: using an item (potion,
    heal scroll, level-ups from the kills of a damage scroll), gaining XP
    (level-up full heal), attacking a monster (level-ups from the kill) and
    the monster sweep (monster attacks). *)
Inductive hp_op : Game -> Game -> Prop :=
  | op_use_item idx g g' : _use_item idx g = Ok g' -> hp_op g g'
  | op_gain_xp amount g p' leveled :
      gain_xp amount (player g) = Ok (p', leveled) -> hp_op g (set_player p' g)
  | op_attack i g g' : _attack_monster i g = Ok g' -> hp_op g g'
  | op_monsters g g' : _monster_turns g = Ok g' -> hp_op g g'.

(** Every potion of the list heals a non-negative amount. *)
Definition potions_heal (l : list Item) : Prop :=
  Forall (fun it => match i_kind it with potion v => 0 <= v | _ => True end) l.

(** What holds of hp before and after an operation that keeps its bounds:
    [hp <= max_hp] and the potions stay as they are, the state is not
    changed, and a non-negative hp stays so. *)
Definition hp_kept (g g' : Game) : Prop :=
  (hp (player g) <= max_hp (player g) ->
   hp (player g') <= max_hp (player g')) /\
  (potions_heal (inventory (player g)) ->
   potions_heal (inventory (player g'))) /\
  (0 <= hp (player g) <= max_hp (player g) -> 0 <= hp (player g')).

(** A room as the placement loop draws it within a [w] by [h] grid. *)
Definition room_ok (w h : Z) (r : Room) : Prop :=
  let '(rx, ry, rw, rh) := r in
  1 <= rx /\ 1 <= ry /\ 5 <= rw <= 12 /\ 4 <= rh <= 8 /\
  rx + rw <= w - 2 /\ ry + rh <= h - 2.

(** What generation keeps of a level under construction. *)
Definition gen_inv (w h depth : Z) (d : DungeonLevel) : Prop :=
  d_w d = w /\ d_h d = h /\ d_depth d = depth /\
  level_shape d /\ Forall (room_ok w h) (rooms d).

(** Every potion of a stock heals a non-negative amount. *)
Definition stock_heals (l : list StockEntry) : Prop :=
  Forall (fun e => match e_kind e with potion v => 0 <= v | _ => True end) l.

(** The potions on the floor of a level and those its merchant sells heal
    a non-negative amount. *)
Definition level_heals (d : DungeonLevel) : Prop :=
  potions_heal (items d) /\
  match merchant d with Some mc => stock_heals (stock mc) | None => True end.

(** The goods of [g'] are those of [g]: the stock [_shop_stock] refers to
    and, in the level, the items on the floor and the merchant. *)
Definition goods_kept (g g' : Game) : Prop :=
  _shop_stock g' = _shop_stock g /\
  match dungeon g, dungeon g' with
  | Some d, Some d' => items d' = items d /\ merchant d' = merchant d
  | None, None => True
  | _, _ => False
  end.

(** All the potions a game holds in stock or on the floor heal a
    non-negative amount. *)
Definition goods_heal (g : Game) : Prop :=
  stock_heals (shop_list g) /\
  match dungeon g with Some d => level_heals d | None => True end.

(** The invariant of a session: hp is at most [max_hp]; it is positive
    unless the player has died (the state is dead, or title after it);
    every potion heals a non-negative amount; the depth is not negative. *)
Definition game_inv (g : Game) : Prop :=
  hp (player g) <= max_hp (player g) /\
  (0 < hp (player g) \/ state g = dead \/ state g = title) /\
  potions_heal (inventory (player g)) /\
  0 <= p_depth (player g) /\
  goods_heal g.

(** The invariant of a session while the player is alive. *)
Definition sound (g : Game) : Prop :=
  hp (player g) <= max_hp (player g) /\
  0 < hp (player g) /\
  potions_heal (inventory (player g)) /\
  0 <= p_depth (player g) /\
  goods_heal g.

(** ** Generated levels and walks

    What the layout theorems below say of a level. *)

(** What the field of view leaves alone. *)
Definition same_layout (d d' : DungeonLevel) : Prop :=
  d_w d' = d_w d /\ d_h d' = d_h d /\ d_depth d' = d_depth d /\
  tiles d' = tiles d /\ rooms d' = rooms d /\ monsters d' = monsters d /\
  items d' = items d /\ stairs_pos d' = stairs_pos d /\ merchant d' = merchant d.

(** The tiles of a room. *)
Definition inside (x y : Z) (room : Room) : Prop :=
  let '(rx, ry, rw, rh) := room in rx <= x < rx + rw /\ ry <= y < ry + rh.

(** The tiles of a room that monsters and items are drawn from. *)
Definition interior (x y : Z) (room : Room) : Prop :=
  let '(rx, ry, rw, rh) := room in
  rx + 1 <= x <= rx + rw - 2 /\ ry + 1 <= y <= ry + rh - 2.

(** No two rooms of the list overlap, in the sense of [_rooms_overlap]. *)
Definition rooms_apart (rs : list Room) : Prop :=
  forall i j a b, rs !! i = Some a -> rs !! j = Some b -> i <> j ->
                  _rooms_overlap a b = false.

(** What the population of a level leaves alone. *)
Definition same_plan (d d' : DungeonLevel) : Prop :=
  d_w d' = d_w d /\ d_h d' = d_h d /\ d_depth d' = d_depth d /\
  tiles d' = tiles d /\ rooms d' = rooms d /\ stairs_pos d' = stairs_pos d.

(** A monster as generation places it among the rooms [rs] of a level with
    the tiles [t]. *)
Definition monster_placed (rs : list Room) (t : list (list Tile)) (m : Monster)
  : Prop :=
  (exists room, room ∈ rs /\ interior (m_x m) (m_y m) room) /\
  grid_get t (m_x m) (m_y m) = Ok FLOOR /\ m_hp m = m_max_hp m.

(** An item as generation places it. *)
Definition item_placed (rs : list Room) (t : list (list Tile)) (it : Item)
  : Prop :=
  (exists room, room ∈ rs /\ interior (i_x it) (i_y it) room) /\
  grid_get t (i_x it) (i_y it) = Ok FLOOR.

(** The merchant as generation places it: at the centre of a room that is
    neither the first nor the last. *)
Definition merchant_placed (rs : list Room) (mc : option Merchant) : Prop :=
  match mc with
  | Some mc =>
      exists k room, (0 < k < length rs - 1)%nat /\ rs !! k = Some room /\
                     (mc_x mc, mc_y mc) = center room
  | None => len rs <= 2
  end.

(** The state of generation while it populates the level laid out as
    [d0]. *)
Definition populated (d0 : DungeonLevel) (s : Rng * DungeonLevel) : Prop :=
  same_plan d0 s.2 /\
  Forall (monster_placed (drop 1 (rooms d0)) (tiles d0)) (monsters s.2) /\
  Forall (item_placed (rooms d0) (tiles d0)) (items s.2) /\
  merchant s.2 = merchant d0.

(** The tile at [(x, y)] is not a wall. *)
Definition nonwall (t : list (list Tile)) (x y : Z) : Prop :=
  exists a, grid_get t x y = Ok a /\ a <> WALL.

(** Every tile that is not a wall in [t] is not a wall in [t']. *)
Definition tiles_le (t t' : list (list Tile)) : Prop :=
  forall x y, nonwall t x y -> nonwall t' x y.

(** A tile of a [w] by [h] grid that is not a wall. *)
Definition open_at (w h : Z) (t : list (list Tile)) (p : Z * Z) : Prop :=
  0 <= p.1 < w /\ 0 <= p.2 < h /\ nonwall t p.1 p.2.

(** One step between two neighbouring tiles that both satisfy [ok]. *)
Definition step_in (ok : Z * Z -> Prop) (p q : Z * Z) : Prop :=
  ok p /\ ok q /\ Z.abs (q.1 - p.1) + Z.abs (q.2 - p.2) = 1.

(** A tile the player can walk on, as [is_walkable] tells. *)
Definition passable (d : DungeonLevel) (p : Z * Z) : Prop :=
  is_walkable p.1 p.2 d = Ok true.

(** [q] can be reached from [p] by steps over walkable tiles. *)
Definition connected (d : DungeonLevel) (p q : Z * Z) : Prop :=
  rtc (step_in (passable d)) p q.

(** [k] is met when going from [a] towards [b], [b] excluded. *)
Definition between (a k b : Z) : Prop := a <= k < b \/ b < k <= a.

(** The rooms [rs] are carved into the tiles [t] and each is joined to
    the next by open tiles. *)
Definition linked (w h : Z) (t : list (list Tile)) (rs : list Room) : Prop :=
  (forall room x y, room ∈ rs -> inside x y room -> nonwall t x y) /\
  (forall i a b, rs !! i = Some a -> rs !! S i = Some b ->
     rtc (step_in (open_at w h t)) (center a) (center b)).

(** Every visible tile is revealed, cell by cell, in grids of the
    level's dimensions. *)
Definition seen_inv (d : DungeonLevel) : Prop :=
  grid_shape (d_w d) (d_h d) (visible d) /\
  grid_shape (d_w d) (d_h d) (revealed d) /\
  forall ky kx row, visible d !! ky = Some row -> row !! kx = Some true ->
    exists row', revealed d !! ky = Some row' /\ row' !! kx = Some true.

(** A potion as a merchant of the given depth sells it. *)
Definition potion_entry (depth : Z) (e : StockEntry) : Prop :=
  exists heal, e_kind e = potion heal /\
    10 + depth * 2 <= heal <= 20 + depth * 2 /\ 15 <= e_price e <= 25.

(** The weapon a merchant of the given depth sells: one of the first
    [depth + 2] weapons of the table, priced by its bonus. *)
Definition weapon_entry (depth : Z) (e : StockEntry) : Prop :=
  exists k name bonus, WEAPON_NAMES !! k = Some (name, bonus) /\
    Z.of_nat k <= depth + 1 /\ e = mkEntry name (weapon bonus) (20 + bonus * 3).

(** A scroll as a merchant sells it. *)
Definition scroll_entry (e : StockEntry) : Prop :=
  exists name eff, (name, eff) ∈ SCROLL_EFFECTS /\
    e_kind e = scroll name eff /\ 30 <= e_price e <= 50.

(** A level on which no access of the game can fail: its grids have its
    dimensions and its monsters stand within them. *)
Definition level_ok (d : DungeonLevel) : Prop :=
  level_shape d /\
  Forall (fun m => in_bounds (m_x m) (m_y m) d = true) (monsters d).

(** A game that has a level to play on. *)
Definition playable (g : Game) : Prop :=
  0 <= p_depth (player g) /\ exists d, dungeon g = Some d /\ level_ok d.


(** ** Example states

    Small concrete states on which the definitions above are run. *)

(** An instance of the float interface over the integers in which every
    direction is the unit vector of the x axis: all rays of the field of
    view run to the right of the viewer. *)
Definition axis_float : Float64 :=
  {| float := Z; float_of_int := fun z => z;
     fadd := Z.add; fmul := Z.mul; fdiv := Z.div;
     fcos := fun _ => 1; fsin := fun _ => 0; fpi := 3;
     f0_15 := 0; f0_1 := 0;
     int_of_float := fun z => z; fround := fun z => z |}.

Definition ex_rng : Rng := mkRng (fun _ => 0) 0.

(** A random source whose draws vary from one to the next. *)
Definition ex_rng_mixed : Rng :=
  mkRng (fun n => Z.of_nat n * Z.of_nat n * 31 + Z.of_nat n * 7 + 3) 0.

(** A corridor of three floor tiles walled all around. *)
Definition ex_tiles : list (list Tile) :=
  [ [WALL; WALL; WALL; WALL; WALL];
    [WALL; FLOOR; FLOOR; FLOOR; WALL];
    [WALL; WALL; WALL; WALL; WALL] ].

Definition ex_kobold : Monster := mkMonster 2 1 "kobold" 15 15 5 16.

Definition ex_dagger : Item := mkItem 3 1 "rusty dagger" (weapon 2).

(** The corridor, all of it in sight, with a kobold in the middle and a
    rusty dagger at its right end. *)
Definition ex_level : DungeonLevel :=
  mkLevel 5 3 1 ex_tiles
    (replicate 3 (replicate 5 false)) (replicate 3 (replicate 5 true))
    [] [ex_kobold] [ex_dagger] None None.

(** The corridor with nothing in sight and its top left corner seen
    before. *)
Definition ex_seen : DungeonLevel :=
  set_visible (replicate 3 (replicate 5 false))
    (set_revealed (<[0%nat := <[0%nat := true]> (replicate 5 false)]>
                     (replicate 3 (replicate 5 false))) ex_level).

(** A player with 1 hp left at the left end of the corridor, holding a
    short sword. *)
Definition ex_player : Player :=
  set_hp 1 (equip "short sword" 4 (Player_init 1 1)).

Definition ex_game : Game :=
  mkGame true [] ex_player (Some ex_level) play (Detached []) ex_rng.

(** A shop with one entry priced at 20, and a player with 15 gold. *)
Definition ex_shop_entry : StockEntry := mkEntry "potion (+12 HP)" (potion 12) 20.

Definition ex_shop_level : DungeonLevel :=
  set_merchant (Some (mkMerchant 3 1 [ex_shop_entry])) ex_level.

Definition ex_shop_game : Game :=
  mkGame true [] (set_gold 15 ex_player) (Some ex_shop_level) shop OfMerchant
    ex_rng.

(** * Properties *)

#[local] Arguments randint : simpl never.
#[local] Arguments gain_xp : simpl never.
#[local] Arguments xp_budget : simpl never.
#[local] Arguments str : simpl never.
#[local] Arguments grid_get : simpl never.
#[local] Arguments grid_set : simpl never.
#[local] Arguments py_get : simpl never.
#[local] Arguments py_set : simpl never.
#[local] Arguments py_pop : simpl never.
#[local] Arguments py_index : simpl never.
#[local] Arguments _carve_room : simpl never.
#[local] Arguments _connect : simpl never.
#[local] Arguments _place_item : simpl never.
#[local] Arguments _generate_merchant_stock : simpl never.
#[local] Arguments choice : simpl never.
#[local] Arguments random_unit : simpl never.
#[local] Arguments place_rooms : simpl never.

(** ** Results *)

Lemma bind_ok {A B} (m : result A) (k : A -> result B) (b : B) :
  m ≫= k = Ok b -> exists a, m = Ok a /\ k a = Ok b.
Proof. destruct m; simpl; intros E; try discriminate; eauto. Qed.

Lemma bind_Ok {A B} (a : A) (k : A -> result B) : Ok a ≫= k = k a.
Proof. reflexivity. Qed.

Ltac inv_bind H :=
  let a := fresh "a" in
  let E := fresh "E" in
  apply bind_ok in H; destruct H as (a & E & H).

Tactic Notation "bind_inv" hyp(H) "as" simple_intropattern(p) ident(E) :=
  apply bind_ok in H; destruct H as (p & E & H).

(** Runs the first call of a sequence whose result [E] gives, leaving the
    rest of the sequence as it is written. *)
Ltac bind_step E := rewrite E, bind_Ok; cbv beta iota.

(** ** Level-ups *)

Lemma xp_budget_step p :
  xp_to_next p <= xp p -> 0 <= xp_budget (level_up p) < xp_budget p.
Proof.
  unfold xp_budget, level_up; simpl; unfold xp_to_next.
  generalize (level p) (xp p). intros L x Hge.
  destruct (Z.leb_spec L 0); destruct (Z.leb_spec (L + 1) 0); try lia.
  assert (0 <= L * (9 + 10 * L)) by nia. nia.
Qed.

(** The loop of [gain_xp] stays within its budget: it always ends. *)
Lemma gain_xp_loop_total fuel : forall p b,
  (Z.to_nat (xp_budget p) < fuel)%nat ->
  exists p' b', gain_xp_loop fuel p b = Ok (p', b').
Proof.
  induction fuel as [|fuel IH]; intros p b Hf; [lia|]. simpl.
  destruct (xp_to_next p <=? xp p) eqn:E; [|eauto].
  apply Z.leb_le in E. apply IH.
  pose proof (xp_budget_step p E). lia.
Qed.

Lemma gain_xp_total amount p : exists p' b, gain_xp amount p = Ok (p', b).
Proof. unfold gain_xp. apply gain_xp_loop_total. lia. Qed.

(** The result does not depend on the budget once it is large enough. *)
Lemma gain_xp_loop_fuel f1 : forall f2 p b,
  (Z.to_nat (xp_budget p) < f1)%nat -> (Z.to_nat (xp_budget p) < f2)%nat ->
  gain_xp_loop f1 p b = gain_xp_loop f2 p b.
Proof.
  induction f1 as [|f1 IH]; intros [|f2] p b H1 H2; try lia. simpl.
  destruct (xp_to_next p <=? xp p) eqn:E; [|reflexivity].
  apply Z.leb_le in E. pose proof (xp_budget_step p E).
  apply IH; lia.
Qed.

(** With enough budget, the loop unfolds as the [while] does. *)
Lemma gain_xp_loop_unfold fuel p b :
  (Z.to_nat (xp_budget p) < fuel)%nat ->
  gain_xp_loop fuel p b =
    if xp_to_next p <=? xp p
    then gain_xp_loop (S (Z.to_nat (xp_budget (level_up p)))) (level_up p) true
    else Ok (p, b).
Proof.
  destruct fuel as [|fuel]; intros Hf; [lia|].
  change (gain_xp_loop (S fuel) p b)
    with (if xp_to_next p <=? xp p
          then gain_xp_loop fuel (level_up p) true else Ok (p, b)).
  destruct (xp_to_next p <=? xp p) eqn:E; [|reflexivity].
  apply Z.leb_le in E. pose proof (xp_budget_step p E).
  apply gain_xp_loop_fuel; lia.
Qed.

Lemma gain_xp_loop_again p b :
  xp_to_next p <= xp p ->
  gain_xp_loop (S (Z.to_nat (xp_budget p))) p b =
  gain_xp_loop (S (Z.to_nat (xp_budget (level_up p)))) (level_up p) true.
Proof.
  intros Hle. rewrite gain_xp_loop_unfold by lia.
  destruct (Z.leb_spec (xp_to_next p) (xp p)); [reflexivity | lia].
Qed.

Lemma gain_xp_loop_done p b :
  xp p < xp_to_next p ->
  gain_xp_loop (S (Z.to_nat (xp_budget p))) p b = Ok (p, b).
Proof.
  intros Hlt. rewrite gain_xp_loop_unfold by lia.
  destruct (Z.leb_spec (xp_to_next p) (xp p)); [lia | reflexivity].
Qed.

(** One more iteration of the [while] loop, or its end, by arithmetic on
    the test. *)
Ltac while_again :=
  rewrite gain_xp_loop_again by (unfold xp_to_next; simpl; unfold xp_to_next; simpl; lia).
Ltac while_done :=
  rewrite gain_xp_loop_done by (unfold xp_to_next; simpl; unfold xp_to_next; simpl; lia).

(** C1, as stated, fails: 45 XP at level 1 is one level-up, not two. A fresh
    player gaining [2 * xp_to_next() + 5] XP ends at level 2 with 25 xp,
    because the second test compares the 25 xp left with the threshold 40
    of level 2. *)
Lemma gain_xp_45_is_one_level_up :
  let p := Player_init 0 0 in
  exists p',
    gain_xp (2 * xp_to_next p + 5) p = Ok (p', true) /\
    level p' = level p + 1 /\ xp p' = 25 /\
    ~ (level p' = level p + 2 /\ xp p' = 5).
Proof.
  eexists. split; [vm_compute; reflexivity|].
  simpl. repeat split; try reflexivity. intros [Hl _]. discriminate Hl.
Qed.

(** C1 (amended): gaining exactly [xp_to_next()] XP with [x] xp in hand,
    [0 <= x < 20 * (level + 1)], is exactly one level-up (level +1, max_hp
    +8, hp = max_hp, base_atk +1) and leaves xp at [x], which is 0 for a
    player who had none; [2 * xp_to_next() + 5] XP at level 1 with 0 xp is
    exactly one level-up with 25 xp left; two level-ups take the thresholds
    of both levels, and [xp_to_next(1) + xp_to_next(2) + 5] XP at level 1
    gives two level-ups with 5 xp left. *)
Theorem gain_xp_level_ups (p : Player) :
  (0 <= xp p < 20 * (level p + 1) ->
   exists p', gain_xp (xp_to_next p) p = Ok (p', true) /\
     level p' = level p + 1 /\ max_hp p' = max_hp p + 8 /\
     hp p' = max_hp p' /\ base_atk p' = base_atk p + 1 /\ xp p' = xp p) /\
  (level p = 1 /\ xp p = 0 ->
   (exists p', gain_xp (2 * xp_to_next p + 5) p = Ok (p', true) /\
      level p' = 2 /\ max_hp p' = max_hp p + 8 /\
      hp p' = max_hp p' /\ base_atk p' = base_atk p + 1 /\ xp p' = 25) /\
   (exists p', gain_xp (xp_to_next p + 20 * (level p + 1) + 5) p = Ok (p', true) /\
      level p' = 3 /\ max_hp p' = max_hp p + 16 /\
      hp p' = max_hp p' /\ base_atk p' = base_atk p + 2 /\ xp p' = 5)).
Proof.
  split; [intros Hx | intros [Hl Hx]; split].
  - unfold gain_xp. while_again. while_done.
    eexists; split; [reflexivity|]. simpl. unfold xp_to_next; simpl.
    repeat split; lia.
  - unfold gain_xp. while_again. while_done.
    eexists; split; [reflexivity|]. simpl. unfold xp_to_next; simpl.
    repeat split; lia.
  - unfold gain_xp. do 2 while_again. while_done.
    eexists; split; [reflexivity|]. simpl. unfold xp_to_next; simpl.
    repeat split; lia.
Qed.

Lemma gain_xp_level_ups_witness :
  exists p', gain_xp 20 (Player_init 0 0) = Ok (p', true) /\ xp p' = 0.
Proof.
  destruct (gain_xp_level_ups (Player_init 0 0)) as [HA _].
  destruct HA as (p' & E & _ & _ & _ & _ & Hxp); [simpl; lia|].
  exists p'. split; [exact E | exact Hxp].
Defined.

(** ** The random source *)

Lemma randint_range a b r v r' :
  randint a b r = Ok (v, r') -> a <= v <= b.
Proof.
  unfold randint. destruct (Z.ltb_spec b a); [discriminate|].
  intros [= <- <-].
  pose proof (Z.mod_pos_bound (raw r (pos r)) (b - a + 1)). lia.
Qed.

Lemma randint_ok a b r :
  a <= b -> exists v, randint a b r = Ok (v, rng_next r) /\ a <= v <= b.
Proof.
  intros Hab. unfold randint. destruct (Z.ltb_spec b a); [lia|].
  eexists; split; [reflexivity|].
  pose proof (Z.mod_pos_bound (raw r (pos r)) (b - a + 1)). lia.
Qed.

Lemma randint_empty a b r : b < a -> randint a b r = Raise ValueError.
Proof. intros Hab. unfold randint. destruct (Z.ltb_spec b a); [reflexivity|lia]. Qed.

(** ** Frame lemmas for the game record *)

Lemma dungeon_msg t g : dungeon (msg t g) = dungeon g.
Proof. reflexivity. Qed.
Lemma player_msg t g : player (msg t g) = player g.
Proof. reflexivity. Qed.
Lemma state_msg t g : state (msg t g) = state g.
Proof. reflexivity. Qed.
Lemma rng_msg t g : rng (msg t g) = rng g.
Proof. reflexivity. Qed.
Lemma shop_stock_msg t g : _shop_stock (msg t g) = _shop_stock g.
Proof. reflexivity. Qed.
Lemma shop_list_msg t g : shop_list (msg t g) = shop_list g.
Proof. reflexivity. Qed.

(** The message just logged is the last of the log. *)
Lemma msg_last t g : last (messages (msg t g)) = Some t.
Proof.
  unfold msg; simpl. destruct (5 <? len (messages g ++ [t])) eqn:E.
  - destruct (messages g) as [|m ms]; [discriminate E|].
    simpl. rewrite drop_0. apply last_snoc.
  - apply last_snoc.
Qed.

(** ** Combat *)

(** C5: for every [r] in [0, 2], [max(1, player.atk - r)] is at least 1
    and [max(1, monster.atk - player.defense - r)] is exactly 1 whenever
    [player.defense >= monster.atk + 2]; and these are the damages dealt,
    with [r] the draw of [randint(0, 2)], which lies in [0, 2]:
    [_attack_monster] takes the former from the monster's hp (removing the
    monster when that leaves none), and the attack of a visible monster
    next to the player takes the latter from the player's hp. *)
Theorem attack_damage (g : Game) (d : DungeonLevel) (i : nat) (m : Monster) :
  dungeon g = Some d ->
  monsters d !! i = Some m ->
  (forall r, 0 <= r <= 2 ->
     player_damage (player g) r = Z.max 1 (atk (player g) - r) /\
     1 <= player_damage (player g) r /\
     monster_damage m (player g) r
       = Z.max 1 (m_atk m - defense (player g) - r) /\
     (m_atk m + 2 <= defense (player g) ->
      monster_damage m (player g) r = 1)) /\
  exists r rng', randint 0 2 (rng g) = Ok (r, rng') /\ 0 <= r <= 2 /\
    (exists g' d', _attack_monster i g = Ok g' /\ dungeon g' = Some d' /\
       monsters d' =
         if m_hp m - Z.max 1 (atk (player g) - r) <=? 0
         then delete i (monsters d)
         else <[i := set_m_hp (m_hp m - Z.max 1 (atk (player g) - r)) m]>
                (monsters d)) /\
    (grid_get (visible d) (m_x m) (m_y m) = Ok true ->
     Z.abs (m_x m - p_x (player g)) + Z.abs (m_y m - p_y (player g)) <= 1 ->
     exists g' c, monster_turn i g = Ok (g', c) /\
       hp (player g')
         = hp (player g) - Z.max 1 (m_atk m - defense (player g) - r)).
Proof.
  intros Hd Hm. split.
  { intros r Hr. unfold player_damage, monster_damage.
    split; [reflexivity|]. split; [lia|]. split; [reflexivity | lia]. }
  destruct (randint_ok 0 2 (rng g)) as (r & Er & Hr); [lia|].
  exists r, (rng_next (rng g)). split; [exact Er|]. split; [exact Hr|].
  change (Z.max 1 (atk (player g) - r)) with (player_damage (player g) r).
  change (Z.max 1 (m_atk m - defense (player g) - r))
    with (monster_damage m (player g) r).
  split.
  - unfold _attack_monster, the_dungeon, nth_obj.
    rewrite Hd; cbn; rewrite Hm; cbn; rewrite Er; cbn.
    destruct (m_hp m - player_damage (player g) r <=? 0) eqn:E.
    + destruct (gain_xp_total (m_xp m) (set_kills (kills (player g) + 1) (player g)))
        as (p' & b & Eg).
      rewrite Eg. cbn.
      destruct b;
        destruct (String.eqb (m_name m) "dragon" && (8 <=? p_depth p'));
        eexists _, _; (split; [reflexivity|]); split; reflexivity.
    + eexists _, _; split; [reflexivity|]; split; reflexivity.
  - intros Hv Hdist.
    unfold monster_turn, the_dungeon, nth_obj.
    rewrite Hd; cbn; rewrite Hm; cbn; rewrite Hv; cbn.
    destruct (Z.leb_spec
      (Z.abs (m_x m - p_x (player g)) + Z.abs (m_y m - p_y (player g))) 1); [|lia].
    rewrite Er. cbn.
    destruct (hp (player g) - monster_damage m (player g) r <=? 0);
      eexists _, _; split; reflexivity.
Qed.

Lemma attack_damage_witness :
  exists g', _attack_monster 0 ex_game = Ok g' /\
    (dungeon g' ≫= fun d' => m_hp <$> monsters d' !! 0%nat) = Some 8.
Proof.
  destruct (attack_damage ex_game ex_level 0 ex_kobold eq_refl eq_refl)
    as (_ & r & rng' & Er & _ & (g' & d' & Eg & Ed & Em) & _).
  exists g'. split; [exact Eg|].
  rewrite Ed. cbn. rewrite Em.
  vm_compute in Er. injection Er as <- _. reflexivity.
Defined.

(** ** Picking up *)

(** C3, as stated, fails: the player, holding a short sword (+4), steps on
    a rusty dagger (+2); the dagger leaves the level and is not put into
    the inventory. *)
Lemma weaker_weapon_not_stored :
  exists g' d',
    _pickup 0 ex_game = Ok g' /\ dungeon g' = Some d' /\
    items d' = [] /\ inventory (player g') = [] /\
    ex_dagger ∉ inventory (player g').
Proof.
  eexists _, _. split; [vm_compute; reflexivity|].
  split; [reflexivity|]. split; [reflexivity|]. split; [reflexivity|].
  simpl. apply not_elem_of_nil.
Qed.

(** C3 (amended): [_pickup] always takes the item out of the level's item
    list. A potion or a scroll is appended to the inventory; gold is added
    to the player's gold and a strictly better weapon is equipped, neither
    being stored; a weapon whose bonus does not exceed [atk_bonus] is
    neither equipped nor stored: the inventory, the equipped weapon and the
    bonus stay as they were, and the item is gone. *)
Theorem pickup_outcome (g : Game) (d : DungeonLevel) (i : nat) (item : Item) :
  dungeon g = Some d ->
  items d !! i = Some item ->
  exists g' d', _pickup i g = Ok g' /\ dungeon g' = Some d' /\
    items d' = delete i (items d) /\
    match i_kind item with
    | potion _ | scroll _ _ =>
        inventory (player g') = inventory (player g) ++ [item]
    | gold v =>
        inventory (player g') = inventory (player g) /\
        p_gold (player g') = p_gold (player g) + v
    | weapon v =>
        inventory (player g') = inventory (player g) /\
        if atk_bonus (player g) <? v
        then atk_bonus (player g') = v /\ p_weapon (player g') = i_name item
        else player g' = player g
    end.
Proof.
  intros Hd Hi. unfold _pickup, the_dungeon, nth_obj.
  rewrite Hd; cbn; rewrite Hi; cbn.
  eexists _, _. split; [reflexivity|]. split; [reflexivity|].
  split; [reflexivity|].
  destruct (i_kind item) as [v|v|v|n e]; cbn; try reflexivity.
  - destruct (atk_bonus (player g) <? v); cbn; auto.
  - auto.
Qed.

Lemma pickup_outcome_witness :
  exists g', _pickup 0 ex_game = Ok g' /\ player g' = player ex_game.
Proof.
  destruct (pickup_outcome ex_game ex_level 0 ex_dagger eq_refl eq_refl)
    as (g' & d' & Eg & _ & _ & _ & Hp).
  exists g'. split; [exact Eg | exact Hp].
Defined.

(** ** The shop *)

Lemma py_get_lookup {A} (l : list A) (i : Z) (a : A) :
  0 <= i -> l !! Z.to_nat i = Some a -> py_get l i = Ok a.
Proof.
  intros Hi Hl. unfold py_get, py_index.
  pose proof (lookup_lt_Some _ _ _ Hl) as Hlt.
  destruct (Z.leb_spec 0 i); [|lia].
  destruct (Z.ltb_spec i (Z.of_nat (length l))); [|lia].
  cbn. rewrite Hl. reflexivity.
Qed.

Lemma py_pop_lookup {A} (l : list A) (i : Z) :
  0 <= i < len l -> py_pop l i = Ok (delete (Z.to_nat i) l).
Proof.
  unfold len. intros Hi. unfold py_pop, py_index.
  destruct (Z.leb_spec 0 i); [|lia].
  destruct (Z.ltb_spec i (Z.of_nat (length l))); [|lia].
  reflexivity.
Qed.

(** C7: a purchase key on a valid stock position whose price exceeds the
    player's gold changes nothing but the message log, which ends with the
    affordability notice: gold, inventory, equipped weapon, the level with
    its merchant and the stock are as before. With enough gold the price is
    paid and the entry is removed from the stock list, which is the
    merchant's own list when [_shop_stock] refers to it, so the entry is
    gone for later visits too. *)
Theorem shop_purchase (g : Game) (key : Z) (entry : StockEntry) :
  97 <= key <= 122 ->
  shop_list g !! Z.to_nat (key - 97) = Some entry ->
  (p_gold (player g) < e_price entry ->
   _shop_screen key g = Ok (msg "You can't afford that!" g) /\
   forall g', _shop_screen key g = Ok g' ->
     player g' = player g /\ dungeon g' = dungeon g /\
     _shop_stock g' = _shop_stock g /\ shop_list g' = shop_list g /\
     last (messages g') = Some "You can't afford that!"%string) /\
  (e_price entry <= p_gold (player g) ->
   exists g', _shop_screen key g = Ok g' /\
     p_gold (player g') = p_gold (player g) - e_price entry /\
     (_shop_stock g = OfMerchant ->
      forall d mc, dungeon g = Some d -> merchant d = Some mc ->
        _shop_stock g' = OfMerchant /\
        exists d' mc', dungeon g' = Some d' /\ merchant d' = Some mc' /\
          stock mc' = delete (Z.to_nat (key - 97)) (stock mc)) /\
     (forall l, _shop_stock g = Detached l ->
        _shop_stock g' = Detached (delete (Z.to_nat (key - 97)) l))).
Proof.
  intros Hkey Hentry.
  pose proof (lookup_lt_Some _ _ _ Hentry) as Hlt.
  split.
  - intros Hgold.
    assert (E : _shop_screen key g = Ok (msg "You can't afford that!" g)).
    { unfold _shop_screen.
      destruct (Z.eqb_spec key 27); [lia|].
      destruct (Z.leb_spec 97 key); [|lia]. destruct (Z.leb_spec key 122); [|lia].
      cbn. unfold len.
      destruct (Z.ltb_spec (key - 97) (Z.of_nat (length (shop_list g)))); [|lia].
      rewrite (py_get_lookup _ _ entry) by (auto; lia). cbn.
      destruct (Z.leb_spec (e_price entry) (p_gold (player g))); [lia|reflexivity]. }
    split; [exact E|]. intros g' Eg'. rewrite E in Eg'. injection Eg' as <-.
    repeat split; try reflexivity. apply msg_last.
  - intros Hgold.
    unfold _shop_screen.
    destruct (Z.eqb_spec key 27); [lia|].
    destruct (Z.leb_spec 97 key); [|lia]. destruct (Z.leb_spec key 122); [|lia].
    cbn. unfold len.
    destruct (Z.ltb_spec (key - 97) (Z.of_nat (length (shop_list g)))); [|lia].
    rewrite (py_get_lookup _ _ entry) by (auto; lia). cbn.
    destruct (Z.leb_spec (e_price entry) (p_gold (player g))); [|lia].
    assert (Hpop : forall g1 : Game,
      shop_list g1 = shop_list g -> _shop_stock g1 = _shop_stock g ->
      dungeon g1 = dungeon g ->
      p_gold (player g1) = p_gold (player g) - e_price entry ->
      exists g', (py_pop (shop_list g1) (key - 97) ≫= fun l => Ok (set_shop_list l g1))
                 = Ok g' /\
        p_gold (player g') = p_gold (player g) - e_price entry /\
        (_shop_stock g = OfMerchant ->
         forall d mc, dungeon g = Some d -> merchant d = Some mc ->
           _shop_stock g' = OfMerchant /\
           exists d' mc', dungeon g' = Some d' /\ merchant d' = Some mc' /\
             stock mc' = delete (Z.to_nat (key - 97)) (stock mc)) /\
        (forall l, _shop_stock g = Detached l ->
           _shop_stock g' = Detached (delete (Z.to_nat (key - 97)) l))).
    { intros g1 Hl1 Hs1 Hd1 Hg1.
      rewrite Hl1. rewrite py_pop_lookup by (unfold len; lia). cbn.
      eexists. split; [reflexivity|].
      unfold set_shop_list. rewrite Hs1, Hd1.
      split; [|split].
      + destruct (_shop_stock g); [exact Hg1|].
        destruct (dungeon g) as [d|]; [|exact Hg1].
        destruct (merchant d); exact Hg1.
      + intros Hof d mc Hd Hmc. rewrite Hof, Hd, Hmc. cbn.
        split; [congruence |]. eexists _, _. split; [reflexivity|].
        split; [reflexivity|].
        cbn. unfold shop_list. rewrite Hof, Hd, Hmc. reflexivity.
      + intros l Hdet. rewrite Hdet. cbn. unfold shop_list. rewrite Hdet.
        reflexivity. }
    destruct (e_kind entry) as [v|v|v|nm e];
      try destruct (atk_bonus (player g) <? v); apply Hpop; reflexivity.
Qed.

Lemma shop_purchase_witness :
  _shop_screen 97 ex_shop_game = Ok (msg "You can't afford that!" ex_shop_game).
Proof.
  destruct (shop_purchase ex_shop_game 97 ex_shop_entry) as [Hno _];
    [lia | reflexivity |].
  apply Hno. reflexivity.
Defined.

(** ** The monster sweep *)

Lemma monster_loop_app pre post g g1 :
  sweep pre g g1 -> monster_loop (pre ++ post) g = monster_loop post g1.
Proof.
  induction 1 as [g | i idx g g1 g2 Hturn _ IH]; [reflexivity|].
  cbn. rewrite Hturn. cbn. exact IH.
Qed.

(** C9: when, in a sweep, the monsters before position [i] have acted
    without killing the player and the attack of the visible monster at
    position [i], next to the player, brings hp to 0 or below, the sweep
    ends there: the state is dead, and the outcome is the game as that
    attack left it, whatever monsters come after position [i]; none of them
    moves (the level is the one before the attack) and none attacks (no
    further draw is taken from the random source). *)
Theorem death_aborts_sweep
    (g g1 : Game) (d d1 : DungeonLevel) (i : nat) (m : Monster)
    (r : Z) (rng' : Rng) :
  dungeon g = Some d ->
  (i < length (monsters d))%nat ->
  sweep (seq 0 i) g g1 ->
  dungeon g1 = Some d1 ->
  monsters d1 !! i = Some m ->
  grid_get (visible d1) (m_x m) (m_y m) = Ok true ->
  Z.abs (m_x m - p_x (player g1)) + Z.abs (m_y m - p_y (player g1)) <= 1 ->
  randint 0 2 (rng g1) = Ok (r, rng') ->
  hp (player g1) - monster_damage m (player g1) r <= 0 ->
  exists g2,
    _monster_turns g = Ok g2 /\
    state g2 = dead /\
    hp (player g2) = hp (player g1) - monster_damage m (player g1) r /\
    dungeon g2 = dungeon g1 /\
    rng g2 = rng' /\
    forall post, monster_loop (seq 0 i ++ i :: post) g = Ok g2.
Proof.
  intros Hd Hi Hpre Hd1 Hm Hvis Hdist Hr Hhp.
  assert (Hturn : exists g2, monster_turn i g1 = Ok (g2, false) /\
            state g2 = dead /\
            hp (player g2) = hp (player g1) - monster_damage m (player g1) r /\
            dungeon g2 = dungeon g1 /\ rng g2 = rng').
  { unfold monster_turn, the_dungeon, nth_obj.
    rewrite Hd1; cbn; rewrite Hm; cbn; rewrite Hvis; cbn.
    destruct (Z.leb_spec
      (Z.abs (m_x m - p_x (player g1)) + Z.abs (m_y m - p_y (player g1))) 1); [|lia].
    rewrite Hr; cbn.
    destruct (Z.leb_spec (hp (player g1) - monster_damage m (player g1) r) 0); [|lia].
    eexists. split; [reflexivity|]. repeat split; try reflexivity. exact Hd1. }
  destruct Hturn as (g2 & Hturn & Hst & Hhp2 & Hd2 & Hrng).
  assert (Hany : forall post, monster_loop (seq 0 i ++ i :: post) g = Ok g2).
  { intros post. rewrite (monster_loop_app _ _ _ _ Hpre). cbn.
    rewrite Hturn. reflexivity. }
  exists g2. split; [|auto].
  unfold _monster_turns, the_dungeon. rewrite Hd; cbn.
  replace (length (monsters d)) with (i + S (length (monsters d) - S i))%nat by lia.
  rewrite seq_app. cbn [seq Nat.add]. apply Hany.
Qed.

Lemma death_aborts_sweep_witness :
  exists g2, _monster_turns ex_game = Ok g2 /\ state g2 = dead /\
    hp (player g2) = -4.
Proof.
  destruct (death_aborts_sweep ex_game ex_game ex_level ex_level 0 ex_kobold
              0 (rng_next ex_rng))
    as (g2 & Eg & Hst & Hhp & _);
    [reflexivity | simpl; lia | constructor | reflexivity | reflexivity
    | reflexivity | simpl; lia | reflexivity | vm_compute; discriminate |].
  exists g2. split; [exact Eg|]. split; [exact Hst | exact Hhp].
Defined.

(** ** Blocked moves *)

(** C2, as stated, fails: the player, with a kobold on the right, presses
    [a] and walks into the wall on the left. The move does nothing, but the
    sweep runs all the same: the kobold attacks and the player dies. *)
Lemma blocked_move_runs_sweep :
  intent_of_key 97 = Move (-1) 0 /\
  is_walkable (p_x (player ex_game) - 1) (p_y (player ex_game)) ex_level
    = Ok false /\
  monster_at (p_x (player ex_game) - 1) (p_y (player ex_game)) ex_level = None /\
  merchant ex_level = None /\
  exists g', @_handle_input axis_float 97 ex_game = Ok g' /\
    hp (player ex_game) = 1 /\ hp (player g') = -4 /\
    state ex_game = play /\ state g' = dead.
Proof.
  repeat (split; [reflexivity|]).
  eexists. split; [vm_compute; reflexivity|].
  repeat split; reflexivity.
Qed.

Section BlockedMove.
Context `{Float64}.

(** C2 (amended): for every movement key whose target tile is not
    walkable and holds neither the merchant nor a monster, [_try_move]
    is a no-op: the player's position, the monsters and all other state
    are unchanged. [_handle_input] runs the monster sweep after every
    movement or wait key, this one included: handling the key is running
    [_monster_turns] on the unchanged game. *)
Theorem blocked_move (g : Game) (d : DungeonLevel) (key dx dy : Z) :
  intent_of_key key = Move dx dy ->
  dx <> 0 \/ dy <> 0 ->
  dungeon g = Some d ->
  (forall mc, merchant d = Some mc ->
     ~ (mc_x mc = p_x (player g) + dx /\ mc_y mc = p_y (player g) + dy)) ->
  monster_at (p_x (player g) + dx) (p_y (player g) + dy) d = None ->
  is_walkable (p_x (player g) + dx) (p_y (player g) + dy) d = Ok false ->
  _try_move dx dy g = Ok g /\
  _handle_input key g = _monster_turns g.
Proof.
  intros Hkey Hmove Hd Hmc Hmon Hwalk.
  assert (Htry : _try_move dx dy g = Ok g).
  { unfold _try_move, the_dungeon. rewrite Hd; cbn.
    replace (match merchant d with
             | Some mc => (mc_x mc =? p_x (player g) + dx)
                          && (mc_y mc =? p_y (player g) + dy)
             | None => false
             end) with false.
    - rewrite Hmon, Hwalk. reflexivity.
    - destruct (merchant d) as [mc|] eqn:E; [|reflexivity].
      specialize (Hmc mc eq_refl).
      destruct (Z.eqb_spec (mc_x mc) (p_x (player g) + dx));
        destruct (Z.eqb_spec (mc_y mc) (p_y (player g) + dy));
        try reflexivity.
      exfalso. apply Hmc. split; assumption. }
  split; [exact Htry|].
  unfold _handle_input. rewrite Hkey.
  replace (negb (dx =? 0) || negb (dy =? 0)) with true.
  - rewrite Htry. reflexivity.
  - destruct (Z.eqb_spec dx 0); destruct (Z.eqb_spec dy 0);
      try reflexivity. lia.
Qed.

End BlockedMove.

Lemma blocked_move_witness :
  @_try_move axis_float (-1) 0 ex_game = Ok ex_game /\
  @_handle_input axis_float 97 ex_game = _monster_turns ex_game.
Proof.
  apply (@blocked_move axis_float ex_game ex_level 97 (-1) 0);
    [reflexivity | left; lia | reflexivity | discriminate
    | reflexivity | reflexivity].
Defined.

(** ** Lists and grids *)

Lemma py_index_lt n i k : py_index n i = Some k -> (k < n)%nat.
Proof.
  unfold py_index.
  destruct (Z.leb_spec 0 i); destruct (Z.ltb_spec i (Z.of_nat n)); cbn;
    try (intros [= <-]; lia);
    destruct (Z.leb_spec (- Z.of_nat n) i); destruct (Z.ltb_spec i 0); cbn;
    try discriminate; intros [= <-]; lia.
Qed.

Lemma py_index_in n i :
  0 <= i < Z.of_nat n -> py_index n i = Some (Z.to_nat i).
Proof.
  intros Hi. unfold py_index.
  destruct (Z.leb_spec 0 i); [|lia].
  destruct (Z.ltb_spec i (Z.of_nat n)); [reflexivity|lia].
Qed.

Lemma py_get_inv {A} (l : list A) i a :
  py_get l i = Ok a -> exists k, py_index (length l) i = Some k /\ l !! k = Some a.
Proof.
  unfold py_get. destruct (py_index (length l) i) as [k|]; [|discriminate].
  destruct (l !! k) eqn:E; [|discriminate]. intros [= <-]. eauto.
Qed.

Lemma py_set_inv {A} (l : list A) i v l' :
  py_set l i v = Ok l' ->
  exists k, py_index (length l) i = Some k /\ l' = <[k := v]> l.
Proof.
  unfold py_set. destruct (py_index (length l) i) as [k|]; [|discriminate].
  intros [= <-]. eauto.
Qed.

Lemma py_get_intro {A} (l : list A) i k a :
  py_index (length l) i = Some k -> l !! k = Some a -> py_get l i = Ok a.
Proof. intros Hk Hl. unfold py_get. rewrite Hk, Hl. reflexivity. Qed.

Lemma grid_set_inv {A} (g : list (list A)) x y v g' :
  grid_set g x y v = Ok g' ->
  exists ky kx row,
    py_index (length g) y = Some ky /\ g !! ky = Some row /\
    py_index (length row) x = Some kx /\
    g' = <[ky := <[kx := v]> row]> g.
Proof.
  unfold grid_set. intros E.
  inv_bind E. apply py_get_inv in E0 as (ky & Hky & Hrow).
  inv_bind E. apply py_set_inv in E0 as (kx & Hkx & ->).
  apply py_set_inv in E as (ky' & Hky' & ->).
  rewrite Hky in Hky'. injection Hky' as <-. eauto 10.
Qed.

Lemma grid_get_inv {A} (g : list (list A)) x y a :
  grid_get g x y = Ok a ->
  exists ky kx row,
    py_index (length g) y = Some ky /\ g !! ky = Some row /\
    py_index (length row) x = Some kx /\ row !! kx = Some a.
Proof.
  unfold grid_get. intros E.
  inv_bind E. apply py_get_inv in E0 as (ky & Hky & Hrow).
  apply py_get_inv in E as (kx & Hkx & Ha). eauto 10.
Qed.

Lemma grid_get_intro {A} (g : list (list A)) x y ky kx row a :
  py_index (length g) y = Some ky -> g !! ky = Some row ->
  py_index (length row) x = Some kx -> row !! kx = Some a ->
  grid_get g x y = Ok a.
Proof.
  intros Hky Hrow Hkx Ha. unfold grid_get.
  rewrite (py_get_intro _ _ _ _ Hky Hrow). cbn.
  apply (py_get_intro _ _ _ _ Hkx Ha).
Qed.

(** Writing [true] to a cell leaves every cell that holds [true] so. *)
Lemma grid_set_true_mono (g g' : list (list bool)) x y x' y' :
  grid_set g x y true = Ok g' ->
  grid_get g x' y' = Ok true -> grid_get g' x' y' = Ok true.
Proof.
  intros Hs Hg.
  apply grid_set_inv in Hs as (ky & kx & row & Hky & Hrow & Hkx & ->).
  apply grid_get_inv in Hg as (ky' & kx' & row' & Hky' & Hrow' & Hkx' & Ha).
  destruct (decide (ky = ky')) as [<-|Hne].
  - rewrite Hrow in Hrow'. injection Hrow' as <-.
    apply (grid_get_intro _ _ _ ky kx' (<[kx := true]> row)).
    + rewrite length_insert. exact Hky'.
    + apply list_lookup_insert_eq. apply (lookup_lt_Some _ _ _ Hrow).
    + rewrite length_insert. exact Hkx'.
    + destruct (decide (kx = kx')) as [<-|Hnx].
      * apply list_lookup_insert_eq. apply (lookup_lt_Some _ _ _ Ha).
      * rewrite list_lookup_insert_ne by exact Hnx. exact Ha.
  - apply (grid_get_intro _ _ _ ky' kx' row').
    + rewrite length_insert. exact Hky'.
    + rewrite list_lookup_insert_ne by exact Hne. exact Hrow'.
    + exact Hkx'.
    + exact Ha.
Qed.

(** The cell just written holds the value written. *)
Lemma grid_set_get {A} (g g' : list (list A)) x y v :
  grid_set g x y v = Ok g' -> grid_get g' x y = Ok v.
Proof.
  intros Hs.
  apply grid_set_inv in Hs as (ky & kx & row & Hky & Hrow & Hkx & ->).
  apply (grid_get_intro _ _ _ ky kx (<[kx := v]> row)).
  - rewrite length_insert. exact Hky.
  - apply list_lookup_insert_eq. apply (lookup_lt_Some _ _ _ Hrow).
  - rewrite length_insert. exact Hkx.
  - apply list_lookup_insert_eq. apply (py_index_lt _ _ _ Hkx).
Qed.

(** A property kept by the body of a loop is kept by the loop. *)
Lemma for_each_inv {A S} (P : S -> Prop) (body : A -> S -> result S) l :
  (forall a s s', body a s = Ok s' -> P s -> P s') ->
  forall s s', for_each l body s = Ok s' -> P s -> P s'.
Proof.
  intros Hbody. induction l as [|a l IH]; intros s s' E Hs; cbn in E.
  - injection E as <-. exact Hs.
  - inv_bind E. eapply IH; [exact E|]. eapply Hbody; eassumption.
Qed.

(** ** The revealed grid *)

Lemma revealed_le_refl d : revealed_le d d.
Proof. intros x y Hr. exact Hr. Qed.

Lemma revealed_le_trans d1 d2 d3 :
  revealed_le d1 d2 -> revealed_le d2 d3 -> revealed_le d1 d3.
Proof. intros H12 H23 x y Hr. apply H23, H12, Hr. Qed.

Lemma mark_revealed ix iy d d' : mark ix iy d = Ok d' -> revealed_le d d'.
Proof.
  unfold mark. intros E. inv_bind E. inv_bind E. injection E as <-.
  intros x y Hr. cbn. eapply grid_set_true_mono; eassumption.
Qed.

Section Revealed.
Context `{Float64}.

Lemma cast_ray_revealed n : forall x y dx dy d d',
  cast_ray n x y dx dy d = Ok d' -> revealed_le d d'.
Proof.
  induction n as [|n IH]; intros x y dx dy d d' E; cbn in E.
  - injection E as <-. apply revealed_le_refl.
  - destruct (in_bounds (fround x) (fround y) d).
    + inv_bind E. inv_bind E.
      apply mark_revealed in E0.
      destruct (tile_eqb a0 WALL).
      * injection E as <-. exact E0.
      * eapply revealed_le_trans; [exact E0|]. eapply IH; exact E.
    + injection E as <-. apply revealed_le_refl.
Qed.

Lemma compute_fov_revealed px py radius d d' :
  compute_fov px py radius d = Ok d' -> revealed_le d d'.
Proof.
  unfold compute_fov. intros E.
  eapply (for_each_inv (revealed_le d)); [| exact E |].
  - intros a s s' Hbody Hs. eapply revealed_le_trans; [exact Hs|].
    eapply cast_ray_revealed. exact Hbody.
  - intros x y Hr. exact Hr.
Qed.

Lemma reveal_all_revealed d d' : reveal_all d = Ok d' -> revealed_le d d'.
Proof.
  unfold reveal_all. intros E. inv_bind E. injection E as <-.
  intros x y Hr. cbn. revert E0 Hr.
  apply (for_each_inv (fun rev => grid_get rev x y = Ok true)).
  intros y0 rev rev'.
  apply (for_each_inv (fun rev => grid_get rev x y = Ok true)).
  intros x0 r r' Hs Hr. eapply grid_set_true_mono; eassumption.
Qed.

(** C10: [compute_fov] and [reveal_all], the operations that write to
    the visibility grids of a level, never clear a revealed flag: after
    any sequence of them, every tile that was revealed is revealed
    still. *)
Theorem revealed_monotone (d d' : DungeonLevel) :
  rtc touches d d' -> revealed_le d d'.
Proof.
  induction 1 as [d | d1 d2 d3 Hstep _ IH].
  - apply revealed_le_refl.
  - eapply revealed_le_trans; [|exact IH].
    destruct Hstep as [px py radius d1 d2 E | d1 d2 E].
    + eapply compute_fov_revealed; exact E.
    + eapply reveal_all_revealed; exact E.
Qed.

End Revealed.

Lemma revealed_monotone_witness :
  exists d1 d2,
    @compute_fov axis_float 1 1 6 ex_seen = Ok d1 /\ reveal_all d1 = Ok d2 /\
    grid_get (revealed d1) 0 0 = Ok true /\ grid_get (revealed d2) 0 0 = Ok true.
Proof.
  eexists _, _.
  split; [vm_compute; reflexivity|]. split; [vm_compute; reflexivity|].
  split.
  - apply (@revealed_monotone axis_float ex_seen); [|reflexivity].
    apply rtc_once. eapply touch_fov with (px := 1) (py := 1) (radius := 6).
    vm_compute. reflexivity.
  - apply (@revealed_monotone axis_float ex_seen); [|reflexivity].
    eapply rtc_l; [|apply rtc_once].
    + eapply touch_fov with (px := 1) (py := 1) (radius := 6).
      vm_compute. reflexivity.
    + eapply touch_reveal. vm_compute. reflexivity.
Defined.

(** ** Grids of the right shape *)

Lemma grid_shape_row {A} w h (g : list (list A)) y :
  grid_shape w h g -> 0 <= y < h ->
  exists row, g !! Z.to_nat y = Some row /\ length row = Z.to_nat w /\
    py_index (length g) y = Some (Z.to_nat y).
Proof.
  intros [Hlen Hrows] Hy.
  destruct (lookup_lt_is_Some_2 g (Z.to_nat y)) as [row Hrow]; [lia|].
  exists row. split; [exact Hrow|]. split.
  - exact (proj1 (Forall_lookup _ _) Hrows _ _ Hrow).
  - apply py_index_in. lia.
Qed.

Lemma grid_set_ok {A} w h (g : list (list A)) x y v :
  grid_shape w h g -> 0 <= x < w -> 0 <= y < h ->
  exists g', grid_set g x y v = Ok g' /\ grid_shape w h g'.
Proof.
  intros Hg Hx Hy.
  destruct (grid_shape_row w h g y Hg Hy) as (row & Hrow & Hlen & Hky).
  exists (<[Z.to_nat y := <[Z.to_nat x := v]> row]> g). split.
  { unfold grid_set, py_get, py_set. rewrite Hky, Hrow. cbn.
    rewrite py_index_in by lia. reflexivity. }
  destruct Hg as [Hl Hrows]. split.
  - rewrite length_insert. exact Hl.
  - apply Forall_insert; [exact Hrows|]. rewrite length_insert. exact Hlen.
Qed.

Lemma grid_get_ok {A} w h (g : list (list A)) x y :
  grid_shape w h g -> 0 <= x < w -> 0 <= y < h ->
  exists a, grid_get g x y = Ok a.
Proof.
  intros Hg Hx Hy.
  destruct (grid_shape_row w h g y Hg Hy) as (row & Hrow & Hlen & Hky).
  destruct (lookup_lt_is_Some_2 row (Z.to_nat x)) as [a Ha]; [lia|].
  exists a. eapply grid_get_intro; [exact Hky | exact Hrow | | exact Ha].
  apply py_index_in. lia.
Qed.

Lemma in_bounds_spec x y d :
  in_bounds x y d = true <-> 0 <= x < d_w d /\ 0 <= y < d_h d.
Proof.
  unfold in_bounds.
  destruct (Z.leb_spec 0 x); destruct (Z.ltb_spec x (d_w d));
    destruct (Z.leb_spec 0 y); destruct (Z.ltb_spec y (d_h d)); cbn;
    split; intros; try discriminate; try lia; reflexivity.
Qed.

(** ** Field of view *)

(** [mark] writes to the two visibility grids only. *)
Lemma mark_frame ix iy d d' :
  mark ix iy d = Ok d' ->
  d_w d' = d_w d /\ d_h d' = d_h d /\ tiles d' = tiles d /\
  grid_get (visible d') ix iy = Ok true.
Proof.
  unfold mark. intros E. inv_bind E. inv_bind E. injection E as <-. cbn.
  repeat split. eapply grid_set_get. exact E0.
Qed.

Lemma mark_visible ix iy d d' x y :
  mark ix iy d = Ok d' ->
  grid_get (visible d) x y = Ok true -> grid_get (visible d') x y = Ok true.
Proof.
  unfold mark. intros E. inv_bind E. inv_bind E. injection E as <-. cbn.
  intros Hv. eapply grid_set_true_mono; eassumption.
Qed.

Lemma mark_ok ix iy d :
  level_shape d -> in_bounds ix iy d = true ->
  exists d', mark ix iy d = Ok d' /\ level_shape d'.
Proof.
  intros (Ht & Hr & Hv) Hin. apply in_bounds_spec in Hin as [Hx Hy].
  destruct (grid_set_ok _ _ (visible d) ix iy true Hv Hx Hy) as (vis & Evis & Hvis).
  destruct (grid_set_ok _ _ (revealed d) ix iy true Hr Hx Hy) as (rev & Erev & Hrev).
  unfold mark. rewrite Evis; cbn. rewrite Erev; cbn.
  eexists. split; [reflexivity|]. repeat split; cbn; first [apply Ht | apply Hrev | apply Hvis].
Qed.

Section FieldOfView.
Context `{Float64}.

(** What every [mark] keeps, a ray keeps. *)
Lemma cast_ray_inv (P : DungeonLevel -> Prop) :
  (forall ix iy d d', mark ix iy d = Ok d' -> P d -> P d') ->
  forall n x y dx dy d d',
    cast_ray n x y dx dy d = Ok d' -> P d -> P d'.
Proof.
  intros Hmark. induction n as [|n IH]; intros x y dx dy d d' E Hd; cbn in E.
  - injection E as <-. exact Hd.
  - destruct (in_bounds (fround x) (fround y) d).
    + inv_bind E. inv_bind E. apply Hmark in E0; [|exact Hd].
      destruct (tile_eqb a0 WALL).
      * injection E as <-. exact E0.
      * eapply IH; eassumption.
    + injection E as <-. exact Hd.
Qed.

(** On a level of the right shape a ray raises no exception. *)
Lemma cast_ray_ok n : forall x y dx dy d,
  level_shape d ->
  exists d', cast_ray n x y dx dy d = Ok d' /\ level_shape d'.
Proof.
  induction n as [|n IH]; intros x y dx dy d Hd; cbn.
  - eauto.
  - destruct (in_bounds (fround x) (fround y) d) eqn:Hin; [|eauto].
    destruct (mark_ok _ _ d Hd Hin) as (d1 & E1 & Hd1).
    rewrite E1; cbn.
    destruct (mark_frame _ _ _ _ E1) as (Hw & Hh & Ht & _).
    apply in_bounds_spec in Hin as [Hx Hy].
    destruct (grid_get_ok (d_w d1) (d_h d1) (tiles d1) (fround x) (fround y))
      as (t & Et); [apply Hd1 | lia | lia |].
    rewrite Et; cbn.
    destruct (tile_eqb t WALL); [eauto|]. apply IH. exact Hd1.
Qed.

(** The tiles a ray marks are the first [k] tiles under it, all of them
    within the grid; only the last of them can be a wall; and a ray that
    stops before its [n] steps stops on a wall it has just marked or in
    front of a tile outside the grid. *)
Lemma cast_ray_prefix n : forall x y dx dy d d',
  cast_ray n x y dx dy d = Ok d' ->
  exists k, (k <= n)%nat /\
    for_each (ray_tiles k x y dx dy) (fun p => mark p.1 p.2) d = Ok d' /\
    (forall j p, ray_tiles k x y dx dy !! j = Some p ->
       in_bounds p.1 p.2 d = true /\
       ((S j < k)%nat -> grid_get (tiles d) p.1 p.2 <> Ok WALL)) /\
    ((k < n)%nat ->
       (exists p, ray_tiles (S k) x y dx dy !! k = Some p /\
                  in_bounds p.1 p.2 d = false) \/
       (exists j p, k = S j /\ ray_tiles k x y dx dy !! j = Some p /\
                    grid_get (tiles d) p.1 p.2 = Ok WALL)).
Proof.
  induction n as [|n IH]; intros x y dx dy d d' E; cbn in E.
  - injection E as <-. exists 0%nat. split; [lia|]. split; [reflexivity|].
    split; [intros j p Hj; discriminate Hj | lia].
  - destruct (in_bounds (fround x) (fround y) d) eqn:Hin.
    + inv_bind E. inv_bind E. rename a into d1, a0 into t.
      destruct (mark_frame _ _ _ _ E0) as (Hw & Hh & Ht & _).
      rewrite Ht in E1.
      destruct (tile_eqb t WALL) eqn:Hwall.
      * injection E as <-. exists 1%nat. split; [lia|].
        split; [cbn; rewrite E0; reflexivity|]. split.
        -- intros [|j] p Hj; [|discriminate Hj]. injection Hj as <-.
           split; [exact Hin | lia].
        -- intros _. right. exists 0%nat, (fround x, fround y).
           split; [reflexivity|]. split; [reflexivity|].
           destruct t; try discriminate Hwall. exact E1.
      * destruct (IH _ _ _ _ _ _ E) as (k & Hk & Hfor & Hall & Hstop).
        assert (Hb : forall a b, in_bounds a b d1 = in_bounds a b d)
          by (intros; unfold in_bounds; rewrite Hw, Hh; reflexivity).
        exists (S k). split; [lia|].
        split; [cbn; rewrite E0; exact Hfor|]. split.
        -- intros [|j] p Hj.
           ++ injection Hj as <-. split; [exact Hin|].
              intros _. cbn. rewrite E1. intros [= ->]. discriminate Hwall.
           ++ destruct (Hall j p Hj) as [Hi Hw']. rewrite Hb, Ht in *.
              split; [exact Hi|]. intros Hlt. apply Hw'. lia.
        -- intros Hlt. destruct Hstop as [(p & Hp & Hout) | (j & p & -> & Hp & Hwl)];
             [lia | left | right].
           ++ exists p. split; [exact Hp|]. rewrite <- Hb. exact Hout.
           ++ exists (S j), p. split; [reflexivity|]. split; [exact Hp|].
              rewrite <- Ht. exact Hwl.
    + injection E as <-. exists 0%nat. split; [lia|]. split; [reflexivity|].
      split; [intros j p Hj; discriminate Hj|].
      intros _. left. exists (fround x, fround y). split; [reflexivity | exact Hin].
Qed.

End FieldOfView.

(** A loop whose body cannot fail under an invariant cannot fail. *)
Lemma for_each_ok {A S} (P : S -> Prop) (body : A -> S -> result S) l :
  (forall a s, a ∈ l -> P s -> exists s', body a s = Ok s' /\ P s') ->
  forall s, P s -> exists s', for_each l body s = Ok s' /\ P s'.
Proof.
  induction l as [|a l IH]; intros Hbody s Hs; cbn; [eauto|].
  destruct (Hbody a s) as (s1 & E1 & Hs1); [left | exact Hs |].
  rewrite E1; cbn. apply IH; [|exact Hs1].
  intros a' s' Ha'. apply Hbody. right. exact Ha'.
Qed.

Lemma grid_shape_map {A B} (f : A -> B) w h (g : list (list A)) :
  grid_shape w h g -> grid_shape w h (map (map f) g).
Proof.
  intros [Hl Hrows]. split; [rewrite length_map; exact Hl|].
  apply Forall_map. eapply Forall_impl; [exact Hrows|].
  intros row Hrow. cbn. rewrite length_map. exact Hrow.
Qed.

Section Viewer.
Context `{Float64}.
(** Integers below [2^53] are floats, and rounding gives them back. *)
Hypothesis fround_of_int :
  forall z, 0 <= z < 2 ^ 53 -> fround (float_of_int z) = z.

Lemma cast_angle_viewer px py radius a d :
  level_shape d -> in_bounds px py d = true ->
  1 <= radius -> px < 2 ^ 53 -> py < 2 ^ 53 ->
  exists d', cast_angle px py radius a d = Ok d' /\ level_shape d' /\
    grid_get (visible d') px py = Ok true.
Proof.
  intros Hd Hin Hrad Hpx Hpy. unfold cast_angle.
  destruct (cast_ray_ok (Z.to_nat radius) (float_of_int px) (float_of_int py)
              (fcos (angle a)) (fsin (angle a)) d Hd) as (d' & E & Hd').
  exists d'. split; [exact E|]. split; [exact Hd'|].
  destruct (Z.to_nat radius) as [|n] eqn:En; [lia|]. cbn in E.
  pose proof (proj1 (in_bounds_spec _ _ _) Hin) as [Hx Hy].
  rewrite !fround_of_int in E by lia. rewrite Hin in E.
  inv_bind E. inv_bind E.
  destruct (mark_frame _ _ _ _ E0) as (_ & _ & _ & Hv).
  destruct (tile_eqb a1 WALL).
  - injection E as <-. exact Hv.
  - revert E Hv.
    apply (cast_ray_inv (fun s => grid_get (visible s) px py = Ok true)).
    intros ix iy d1 d2. apply mark_visible.
Qed.

(** C8: on a level whose grids have the level's dimensions,
    [compute_fov(px, py, radius)] with [radius >= 1] and [(px, py)]
    within the grid returns with the viewer's own tile marked visible.
    Along any single ray the tiles marked are the first [k] tiles under
    the ray, all within the grid; none of them but the last is a wall,
    so no tile is marked after a wall; and a ray that stops before its
    last step stops on a wall it has just marked or at the boundary of
    the grid. *)
Theorem fov_viewer_and_walls (px py radius : Z) (d : DungeonLevel) :
  level_shape d -> in_bounds px py d = true ->
  1 <= radius -> px < 2 ^ 53 -> py < 2 ^ 53 ->
  (exists d', compute_fov px py radius d = Ok d' /\
     grid_get (visible d') px py = Ok true) /\
  (forall n x y dx dy d0 d1,
     cast_ray n x y dx dy d0 = Ok d1 ->
     exists k, (k <= n)%nat /\
       for_each (ray_tiles k x y dx dy) (fun p => mark p.1 p.2) d0 = Ok d1 /\
       (forall j p, ray_tiles k x y dx dy !! j = Some p ->
          in_bounds p.1 p.2 d0 = true /\
          ((S j < k)%nat -> grid_get (tiles d0) p.1 p.2 <> Ok WALL)) /\
       ((k < n)%nat ->
          (exists p, ray_tiles (S k) x y dx dy !! k = Some p /\
                     in_bounds p.1 p.2 d0 = false) \/
          (exists j p, k = S j /\ ray_tiles k x y dx dy !! j = Some p /\
                       grid_get (tiles d0) p.1 p.2 = Ok WALL))).
Proof.
  intros Hd Hin Hrad Hpx Hpy. split; [|apply cast_ray_prefix].
  unfold compute_fov.
  set (d0 := set_visible _ d).
  assert (Hd0 : level_shape d0).
  { destruct Hd as (Ht & Hr & Hv). repeat split; cbn;
      first [apply Ht | apply Hr | apply (grid_shape_map _ _ _ _ Hv)]. }
  assert (Hin0 : in_bounds px py d0 = true) by exact Hin.
  assert (Hrange : exists l, range 0 360 = 0 :: l) by (eexists; reflexivity).
  destruct Hrange as (l & ->). cbn [for_each].
  destruct (cast_angle_viewer px py radius 0 d0 Hd0 Hin0 Hrad Hpx Hpy)
    as (d1 & E1 & Hd1 & Hv1).
  rewrite E1; cbn.
  destruct (for_each_ok
    (fun s => level_shape s /\ grid_get (visible s) px py = Ok true)
    (cast_angle px py radius) l) with (s := d1) as (d' & E' & _ & Hv');
    [|split; assumption|eauto].
  intros a s _ [Hs Hvs]. unfold cast_angle.
  destruct (cast_ray_ok (Z.to_nat radius) (float_of_int px) (float_of_int py)
              (fcos (angle a)) (fsin (angle a)) s Hs) as (s' & Es & Hs').
  exists s'. split; [exact Es|]. split; [exact Hs'|].
  revert Es Hvs.
  apply (cast_ray_inv (fun s => grid_get (visible s) px py = Ok true)).
  intros ix iy d2 d3. apply mark_visible.
Qed.

End Viewer.

Lemma ex_level_shape : level_shape ex_level.
Proof. repeat split; cbn; repeat constructor. Qed.

Lemma fov_viewer_and_walls_witness :
  exists d', @compute_fov axis_float 1 1 6 ex_level = Ok d' /\
    grid_get (visible d') 1 1 = Ok true.
Proof.
  apply (@fov_viewer_and_walls axis_float (fun z _ => eq_refl) 1 1 6 ex_level);
    [exact ex_level_shape | reflexivity | lia | reflexivity | reflexivity].
Defined.

(** ** The bounds of hp *)

(** C6, as stated, fails: a player with 1 of 30 hp is hit by the kobold
    next to them for 5; hp becomes -4, below 0. *)
Lemma monster_attack_makes_hp_negative :
  0 <= hp (player ex_game) <= max_hp (player ex_game) /\
  exists g', _monster_turns ex_game = Ok g' /\
    hp (player g') = -4 /\ ~ (0 <= hp (player g') <= max_hp (player g')).
Proof.
  split; [simpl; lia|].
  eexists. split; [vm_compute; reflexivity|]. split; [reflexivity|].
  simpl. lia.
Qed.

(** What the level-up loop does to hp: nothing, or a full heal at a
    larger [max_hp]. *)
Lemma gain_xp_loop_hp fuel : forall p b p' b',
  gain_xp_loop fuel p b = Ok (p', b') ->
  inventory p' = inventory p /\
  ((hp p' = hp p /\ max_hp p' = max_hp p) \/
   (hp p' = max_hp p' /\ max_hp p <= max_hp p')).
Proof.
  induction fuel as [|fuel IH]; intros p b p' b' E; cbn in E; [discriminate|].
  destruct (xp_to_next p <=? xp p).
  - apply IH in E as [Hinv Hhp]. cbn in Hinv, Hhp. split; [exact Hinv|].
    right. lia.
  - injection E as <- <-. auto.
Qed.

Lemma gain_xp_hp amount p p' b :
  gain_xp amount p = Ok (p', b) ->
  inventory p' = inventory p /\
  ((hp p' = hp p /\ max_hp p' = max_hp p) \/
   (hp p' = max_hp p' /\ max_hp p <= max_hp p')).
Proof. unfold gain_xp. intros E. apply gain_xp_loop_hp in E. exact E. Qed.

Lemma blast_hp ms : forall kept vis total p r kept' total' p' r',
  blast ms kept vis total p r = Ok (kept', total', p', r') ->
  inventory p' = inventory p /\
  ((hp p' = hp p /\ max_hp p' = max_hp p) \/
   (hp p' = max_hp p' /\ max_hp p <= max_hp p')).
Proof.
  induction ms as [|m ms IH]; intros kept vis total p r kept' total' p' r' E;
    cbn in E.
  - injection E as <- <- <- <-. auto.
  - bind_inv E as v Ev. destruct v.
    + bind_inv E as [dmg r1] Er. cbn in E.
      destruct (m_hp m - dmg <=? 0).
      * bind_inv E as [p1 b1] Eg.
        apply gain_xp_hp in Eg as [Hi1 Hh1]. cbn in Hi1, Hh1.
        apply IH in E as [Hi Hh]. split; [congruence|]. lia.
      * apply IH in E. exact E.
    + apply IH in E. exact E.
Qed.

Lemma potions_heal_lookup l k it v :
  potions_heal l -> l !! k = Some it -> i_kind it = potion v -> 0 <= v.
Proof.
  intros Hl Hk Hv. pose proof (proj1 (Forall_lookup _ _) Hl _ _ Hk) as Hit.
  cbn in Hit. rewrite Hv in Hit. exact Hit.
Qed.

Lemma potions_heal_delete l k : potions_heal l -> potions_heal (delete k l).
Proof.
  intros Hl. apply Forall_delete. exact Hl.
Qed.

Lemma py_pop_inv {A} (l : list A) i l' :
  py_pop l i = Ok l' -> exists k, l' = delete k l.
Proof.
  unfold py_pop. destruct (py_index (length l) i) as [k|]; [|discriminate].
  intros [= <-]. eauto.
Qed.

Lemma use_item_hp idx g g' :
  _use_item idx g = Ok g' ->
  potions_heal (inventory (player g)) ->
  hp_kept g g' /\ state g' = state g.
Proof.
  unfold _use_item. intros E Hpot.
  bind_inv E as item Eitem. apply py_get_inv in Eitem as (k & _ & Hk).
  bind_inv E as g1 E1. bind_inv E as inv Epop. injection E as <-.
  apply py_pop_inv in Epop as (k' & ->).
  assert (H1 : (hp (player g) <= max_hp (player g) ->
                hp (player g1) <= max_hp (player g1)) /\
               (0 <= hp (player g) <= max_hp (player g) -> 0 <= hp (player g1)) /\
               inventory (player g1) = inventory (player g) /\
               state g1 = state g).
  { destruct (i_kind item) as [v|v|v|nm eff] eqn:Ek.
    - injection E1 as <-. cbn.
      pose proof (potions_heal_lookup _ _ _ _ Hpot Hk Ek). repeat split; lia.
    - injection E1 as <-. repeat split; lia.
    - injection E1 as <-. repeat split; lia.
    - destruct eff.
      + bind_inv E1 as d Ed. bind_inv E1 as [[[kept total] p1] r1] Eb.
        injection E1 as <-. cbn.
        apply blast_hp in Eb as [Hi Hh]. repeat split; [lia | lia | exact Hi].
      + injection E1 as <-. cbn. repeat split; lia.
      + injection E1 as <-. cbn. repeat split; lia.
      + injection E1 as <-. cbn. repeat split; lia.
      + bind_inv E1 as d Ed. bind_inv E1 as d1 Er. injection E1 as <-.
        cbn. repeat split; lia. }
  destruct H1 as (Hle & Hge & Hinv & Hst). cbn.
  split; [|exact Hst]. repeat split.
  - exact Hle.
  - intros _. rewrite Hinv. apply potions_heal_delete, Hpot.
  - exact Hge.
Qed.

(** One monster's turn: hp does not grow; either the loop goes on, the
    state is unchanged and hp is still positive if it was, or the loop
    ends and the state is dead. *)
Lemma monster_turn_hp i g g' c :
  monster_turn i g = Ok (g', c) ->
  max_hp (player g') = max_hp (player g) /\
  inventory (player g') = inventory (player g) /\
  hp (player g') <= hp (player g) /\
  (if c then state g' = state g /\
             (hp (player g') = hp (player g) \/ 0 < hp (player g'))
   else state g' = dead).
Proof.
  unfold monster_turn. intros E.
  bind_inv E as d Ed. bind_inv E as m Em. bind_inv E as vis Ev.
  destruct vis; cbn in E.
  - destruct (Z.abs (m_x m - p_x (player g)) + Z.abs (m_y m - p_y (player g)) <=? 1).
    + bind_inv E as [r rng'] Er. cbn in E.
      assert (1 <= monster_damage m (player g) r) by (unfold monster_damage; lia).
      destruct (Z.leb_spec (hp (player g) - monster_damage m (player g) r) 0);
        injection E as <- <-; cbn; repeat split; lia.
    + destruct (Z.abs (m_x m - p_x (player g)) + Z.abs (m_y m - p_y (player g)) <=? 8).
      * bind_inv E as wx Ewx.
        destruct (wx && _).
        -- injection E as <- <-. cbn. repeat split; lia.
        -- bind_inv E as wy Ewy.
           destruct (wy && _); injection E as <- <-; cbn; repeat split; lia.
      * injection E as <- <-. repeat split; lia.
  - injection E as <- <-. repeat split; lia.
Qed.

Lemma monster_loop_hp idx : forall g g',
  monster_loop idx g = Ok g' ->
  max_hp (player g') = max_hp (player g) /\
  inventory (player g') = inventory (player g) /\
  hp (player g') <= hp (player g) /\
  ((state g' = state g /\
    (hp (player g') = hp (player g) \/ 0 < hp (player g')))
   \/ state g' = dead).
Proof.
  induction idx as [|i idx IH]; intros g g' E; cbn in E.
  - injection E as <-. repeat split; try lia. left. split; [reflexivity|lia].
  - bind_inv E as [g1 c] Et. apply monster_turn_hp in Et as (Hm & Hi & Hh & Hc).
    destruct c.
    + apply IH in E as (Hm' & Hi' & Hh' & Hc').
      repeat split; try congruence; try lia.
      destruct Hc as [Hs Hp]. destruct Hc' as [[Hs' Hp'] | Hdead]; [left|right; exact Hdead].
      split; [congruence|]. lia.
    + injection E as <-. repeat split; try assumption. right. exact Hc.
Qed.

Lemma attack_monster_hp i g g' :
  _attack_monster i g = Ok g' ->
  inventory (player g') = inventory (player g) /\
  ((hp (player g') = hp (player g) /\ max_hp (player g') = max_hp (player g)) \/
   (hp (player g') = max_hp (player g') /\
    max_hp (player g) <= max_hp (player g'))).
Proof.
  unfold _attack_monster. intros E.
  bind_inv E as d Ed. bind_inv E as mon Em. bind_inv E as [r rng'] Er.
  cbn in E. destruct (m_hp mon - player_damage (player g) r <=? 0).
  - bind_inv E as [p1 b1] Eg. apply gain_xp_hp in Eg as [Hi Hh].
    cbn in Hi, Hh. injection E as <-.
    destruct b1; destruct (_ && _); cbn; auto.
  - injection E as <-. cbn. auto.
Qed.

(** C6 (amended): every operation that changes hp keeps [hp <= max_hp]
    (and keeps the potions of the inventory healing a non-negative
    amount). Potion use, the heal scroll and the level-up full heal also
    keep [0 <= hp]. A monster attack subtracts its damage without a floor:
    after a sweep that started at a non-negative hp, hp is non-negative
    still or the state is dead, and then hp may be negative. *)
Theorem hp_bounds (g g' : Game) :
  hp_op g g' ->
  hp (player g) <= max_hp (player g) ->
  potions_heal (inventory (player g)) ->
  hp (player g') <= max_hp (player g') /\
  potions_heal (inventory (player g')) /\
  (0 <= hp (player g) ->
   0 <= hp (player g') \/
   (_monster_turns g = Ok g' /\ state g' = dead /\ hp (player g') <= 0)).
Proof.
  intros Hop Hle Hpot.
  destruct Hop as [idx g g' E | amount g p' b E | i g g' E | g g' E].
  - destruct (use_item_hp _ _ _ E Hpot) as [(H1 & H2 & H3) _].
    split; [auto|]. split; [auto|]. intros Hge. left. apply H3. lia.
  - apply gain_xp_hp in E as [Hi Hh]. cbn.
    split; [lia|]. split; [rewrite Hi; exact Hpot|]. intros Hge. left. lia.
  - apply attack_monster_hp in E as [Hi Hh].
    split; [lia|]. split; [rewrite Hi; exact Hpot|]. intros Hge. left. lia.
  - pose proof E as E'. unfold _monster_turns in E'.
    bind_inv E' as d Ed. apply monster_loop_hp in E' as (Hm & Hi & Hh & Hc).
    split; [lia|]. split; [rewrite Hi; exact Hpot|]. intros Hge.
    destruct (Z.le_gt_cases 0 (hp (player g'))) as [Hpos|Hneg]; [left; exact Hpos|].
    right. split; [exact E|]. split; [|lia].
    destruct Hc as [[_ Hc] | Hdead]; [lia | exact Hdead].
Qed.

Lemma hp_bounds_witness :
  exists g', _monster_turns ex_game = Ok g' /\ state g' = dead /\
    hp (player g') <= max_hp (player g').
Proof.
  assert (E : _monster_turns ex_game = _monster_turns ex_game) by reflexivity.
  unfold _monster_turns at 2 in E. vm_compute in E.
  match type of E with _ = Ok ?g' => exists g' end.
  split; [exact E|]. split; [reflexivity|].
  apply (hp_bounds ex_game); [apply op_monsters; exact E | simpl; lia | constructor].
Defined.

(** ** Level generation *)

Lemma elem_of_range a b k : k ∈ range a b -> a <= k < b.
Proof.
  unfold range. rewrite list_elem_of_In, in_map_iff.
  intros (j & <- & Hj). apply in_seq in Hj. lia.
Qed.

Lemma carve_room_ok w h room t :
  grid_shape w h t -> room_ok w h room ->
  exists t', _carve_room room t = Ok t' /\ grid_shape w h t'.
Proof.
  destruct room as [[[rx ry] rw] rh]. intros Ht (Hx & Hy & Hw & Hh & Hxw & Hyh).
  unfold _carve_room.
  apply (for_each_ok (grid_shape w h)); [|exact Ht].
  intros y t1 Hyr Ht1. apply elem_of_range in Hyr.
  apply (for_each_ok (grid_shape w h)); [|exact Ht1].
  intros x t2 Hxr Ht2. apply elem_of_range in Hxr.
  apply grid_set_ok; [exact Ht2 | lia | lia].
Qed.

Lemma connect_x_ok w h fuel : forall x y x2 t,
  grid_shape w h t -> 0 <= y < h -> 0 <= x < w -> 0 <= x2 < w ->
  (Z.to_nat (Z.abs (x2 - x)) <= fuel)%nat ->
  exists t', connect_x fuel x y x2 t = Ok (x2, t') /\ grid_shape w h t'.
Proof.
  induction fuel as [|fuel IH]; intros x y x2 t Ht Hy Hx Hx2 Hf.
  - assert (x = x2) as -> by lia. cbn. rewrite Z.eqb_refl. eauto.
  - cbn. destruct (Z.eqb_spec x x2) as [->|Hne]; [eauto|].
    destruct (grid_set_ok w h t x y FLOOR Ht Hx Hy) as (t1 & E1 & Ht1).
    rewrite E1; cbn.
    apply IH; try assumption; destruct (Z.ltb_spec x x2); lia.
Qed.

Lemma connect_y_ok w h fuel : forall x y y2 t,
  grid_shape w h t -> 0 <= x < w -> 0 <= y < h -> 0 <= y2 < h ->
  (Z.to_nat (Z.abs (y2 - y)) <= fuel)%nat ->
  exists t', connect_y fuel x y y2 t = Ok (y2, t') /\ grid_shape w h t'.
Proof.
  induction fuel as [|fuel IH]; intros x y y2 t Ht Hx Hy Hy2 Hf.
  - assert (y = y2) as -> by lia. cbn. rewrite Z.eqb_refl. eauto.
  - cbn. destruct (Z.eqb_spec y y2) as [->|Hne]; [eauto|].
    destruct (grid_set_ok w h t x y FLOOR Ht Hx Hy) as (t1 & E1 & Ht1).
    rewrite E1; cbn.
    apply IH; try assumption; destruct (Z.ltb_spec y y2); lia.
Qed.

(** The centre of a room lies inside the room, hence inside the grid. *)
Lemma center_in w h room :
  room_ok w h room ->
  let '(rx, ry, rw, rh) := room in
  rx <= (center room).1 < rx + rw /\ ry <= (center room).2 < ry + rh /\
  0 <= (center room).1 < w /\ 0 <= (center room).2 < h.
Proof.
  destruct room as [[[rx ry] rw] rh]. intros (Hx & Hy & Hw & Hh & Hxw & Hyh).
  cbn.
  pose proof (Z.div_pos rw 2 ltac:(lia) ltac:(lia)).
  pose proof (Z.div_lt rw 2 ltac:(lia) ltac:(lia)).
  pose proof (Z.div_pos rh 2 ltac:(lia) ltac:(lia)).
  pose proof (Z.div_lt rh 2 ltac:(lia) ltac:(lia)).
  lia.
Qed.

Lemma connect_ok w h r1 r2 t :
  grid_shape w h t -> room_ok w h r1 -> room_ok w h r2 ->
  exists t', _connect r1 r2 t = Ok t' /\ grid_shape w h t'.
Proof.
  intros Ht H1 H2. unfold _connect.
  pose proof (center_in w h r1 H1) as C1. pose proof (center_in w h r2 H2) as C2.
  destruct r1 as [[[x1 y1] w1] h1], r2 as [[[x2 y2] w2] h2].
  destruct (center (x1, y1, w1, h1)) as [cx1 cy1].
  destruct (center (x2, y2, w2, h2)) as [cx2 cy2]. cbn in C1, C2.
  destruct (connect_x_ok w h (Z.to_nat (Z.abs (cx2 - cx1))) cx1 cy1 cx2 t)
    as (t1 & E1 & Ht1); [exact Ht | lia | lia | lia | lia |].
  rewrite E1; cbn.
  destruct (connect_y_ok w h (Z.to_nat (Z.abs (cy2 - cy1))) cx2 cy1 cy2 t1)
    as (t2 & E2 & Ht2); [exact Ht1 | lia | lia | lia | lia |].
  rewrite E2; cbn. eauto.
Qed.

Lemma gen_inv_tiles_rooms w h depth d t rs :
  gen_inv w h depth d -> grid_shape w h t -> Forall (room_ok w h) rs ->
  gen_inv w h depth (set_rooms rs (set_tiles t d)).
Proof.
  intros (Hw & Hh & Hd & (Ht & Hr & Hv) & Hrooms) Ht' Hrs.
  unfold gen_inv, level_shape. cbn. rewrite Hw, Hh in *. auto 10.
Qed.

Lemma place_rooms_S n num r d :
  place_rooms (S n) num (r, d) =
  if num <=? len (rooms d) then Ok (r, d)
  else
    '(rw, r) ← randint 5 12 r;
    '(rh, r) ← randint 4 8 r;
    '(rx, r) ← randint 1 (d_w d - rw - 2) r;
    '(ry, r) ← randint 1 (d_h d - rh - 2) r;
    let room := (rx, ry, rw, rh) in
    if existsb (_rooms_overlap room) (rooms d)
    then place_rooms n num (r, d)
    else
      t ← _carve_room room (tiles d);
      t ← match last (rooms d) with
          | Some prev => _connect prev room t
          | None => Ok t
          end;
      place_rooms n num (r, set_rooms (rooms d ++ [room]) (set_tiles t d)).
Proof. reflexivity. Qed.

(** The room-placement loop raises nothing on a grid of at least 15 by 11:
    every draw is from a non-empty range and every tile written is within
    the grid. It adds rooms up to the target count, the first attempt
    always adding one. *)
Lemma place_rooms_ok w h depth num n :
  15 <= w -> 11 <= h ->
  forall r d, gen_inv w h depth d ->
  exists r' d', place_rooms n num (r, d) = Ok (r', d') /\
    gen_inv w h depth d' /\
    len (rooms d') <= Z.max (len (rooms d)) num /\
    (rooms d <> [] \/ ((0 < n)%nat /\ 0 < num) -> rooms d' <> []).
Proof.
  intros Hw15 Hh11. induction n as [|n IH]; intros r d Hinv.
  - exists r, d. split; [reflexivity|]. split; [exact Hinv|].
    split; [lia|]. intros [Hne | [Hn _]]; [exact Hne | lia].
  - rewrite place_rooms_S.
    destruct (Z.leb_spec num (len (rooms d))) as [Hfull | Hroom].
    + exists r, d. split; [reflexivity|]. split; [exact Hinv|].
      split; [lia|]. intros [Hne | [_ Hnum]]; [exact Hne|].
      intros Hnil. rewrite Hnil in Hfull. unfold len in Hfull. cbn in Hfull. lia.
    + pose proof Hinv as (Hw & Hh & Hd & Hshape & Hrooms).
      destruct (randint_ok 5 12 r) as (rw & E1 & Hrw); [lia|].
      rewrite E1; cbn.
      destruct (randint_ok 4 8 (rng_next r)) as (rh & E2 & Hrh); [lia|].
      rewrite E2; cbn.
      destruct (randint_ok 1 (d_w d - rw - 2) (rng_next (rng_next r)))
        as (rx & E3 & Hrx); [lia|].
      rewrite E3; cbn.
      destruct (randint_ok 1 (d_h d - rh - 2) (rng_next (rng_next (rng_next r))))
        as (ry & E4 & Hry); [lia|].
      rewrite E4; cbn.
      assert (Hroom_ok : room_ok w h (rx, ry, rw, rh)) by (cbn; lia).
      destruct (existsb (_rooms_overlap (rx, ry, rw, rh)) (rooms d)) eqn:Hov.
      * destruct (IH (rng_next (rng_next (rng_next (rng_next r)))) d Hinv)
          as (r' & d' & E & Hinv' & Hlen & Hne).
        exists r', d'. split; [exact E|]. split; [exact Hinv'|].
        split; [exact Hlen|]. intros _. apply Hne. left.
        intros Hnil. rewrite Hnil in Hov. discriminate Hov.
      * destruct (carve_room_ok w h (rx, ry, rw, rh) (tiles d))
          as (t1 & Ec & Ht1); [rewrite <- Hw, <- Hh; apply Hshape | exact Hroom_ok |].
        rewrite Ec; cbn.
        assert (Hconn : exists t2,
          match last (rooms d) with
          | Some prev => _connect prev (rx, ry, rw, rh) t1
          | None => Ok t1
          end = Ok t2 /\ grid_shape w h t2).
        { destruct (last (rooms d)) as [prev|] eqn:Hlast; [|eauto].
          apply connect_ok; [exact Ht1 | | exact Hroom_ok].
          apply last_Some_elem_of in Hlast.
          exact (proj1 (Forall_forall _ _) Hrooms _ Hlast). }
        destruct Hconn as (t2 & Ek & Ht2). rewrite Ek; cbn.
        destruct (IH (rng_next (rng_next (rng_next (rng_next r))))
                    (set_rooms (rooms d ++ [(rx, ry, rw, rh)]) (set_tiles t2 d)))
          as (r' & d' & E & Hinv' & Hlen & Hne).
        { apply gen_inv_tiles_rooms; [exact Hinv | exact Ht2 |].
          apply Forall_app. split; [exact Hrooms|].
          apply Forall_cons. split; [exact Hroom_ok | apply Forall_nil_2]. }
        exists r', d'. split; [exact E|]. split; [exact Hinv'|]. split.
        -- cbn in Hlen. unfold len in *. rewrite length_app in Hlen. cbn in Hlen. lia.
        -- intros _. apply Hne. left. cbn. intros Hnil.
           apply app_eq_nil in Hnil as [_ Hnil]. discriminate Hnil.
Qed.

Lemma py_get_ok {A} (l : list A) i :
  0 <= i < len l -> exists a, py_get l i = Ok a /\ a ∈ l.
Proof.
  unfold len. intros Hi.
  destruct (lookup_lt_is_Some_2 l (Z.to_nat i)) as [a Ha]; [lia|].
  exists a. split; [apply py_get_lookup; [lia | exact Ha]|].
  apply list_elem_of_lookup. eauto.
Qed.

Lemma choice_ok {A} (l : list A) r :
  l <> [] -> exists a, choice l r = Ok (a, rng_next r) /\ a ∈ l.
Proof.
  intros Hl. unfold choice.
  assert (0 < Z.of_nat (length l)) by (destruct l; [congruence | cbn; lia]).
  pose proof (Z.mod_pos_bound (raw r (pos r)) (Z.of_nat (length l)) ltac:(lia)).
  destruct (lookup_lt_is_Some_2 l
              (Z.to_nat (raw r (pos r) `mod` Z.of_nat (length l)))) as [a Ha]; [lia|].
  rewrite Ha. exists a. split; [reflexivity|]. apply list_elem_of_lookup. eauto.
Qed.

Lemma gen_inv_monsters w h depth d ms :
  gen_inv w h depth d -> gen_inv w h depth (set_monsters ms d).
Proof. intros H. exact H. Qed.

Lemma gen_inv_items w h depth d its :
  gen_inv w h depth d -> gen_inv w h depth (set_items its d).
Proof. intros H. exact H. Qed.

Lemma gen_inv_merchant w h depth d mc :
  gen_inv w h depth d -> gen_inv w h depth (set_merchant mc d).
Proof. intros H. exact H. Qed.

(** A tile strictly inside a room can be read. *)
Lemma room_tile_ok w h depth d room x y :
  gen_inv w h depth d -> room_ok w h room ->
  let '(rx, ry, rw, rh) := room in
  rx + 1 <= x <= rx + rw - 2 -> ry + 1 <= y <= ry + rh - 2 ->
  exists t, grid_get (tiles d) x y = Ok t.
Proof.
  intros (Hw & Hh & _ & (Ht & _) & _). destruct room as [[[rx ry] rw] rh].
  intros (Hx & Hy & Hrw & Hrh & Hxw & Hyh) Hxr Hyr.
  apply (grid_get_ok (d_w d) (d_h d)); [exact Ht | lia | lia].
Qed.

Lemma place_item_ok w h depth x y r d :
  0 <= depth -> gen_inv w h depth d ->
  exists r' d', _place_item x y (r, d) = Ok (r', d') /\ gen_inv w h depth d' /\
    rooms d' = rooms d.
Proof.
  intros Hdepth Hinv. pose proof Hinv as (_ & _ & Hd & _).
  unfold _place_item. destruct (random_unit r) as [roll r1].
  destruct (roll <? 3152519739159347).
  { destruct (randint_ok 8 20 r1) as (v & E & _); [lia|]. rewrite E; cbn.
    eexists _, _. split; [reflexivity|]. split; [exact Hinv | reflexivity]. }
  destruct (roll <? 5404319552844595).
  { destruct (randint_ok 0 (d_depth d) r1) as (v & E & Hv); [lia|]. rewrite E; cbn.
    destruct (py_get_ok WEAPON_NAMES (v `min` (len WEAPON_NAMES - 1)))
      as ([name bonus] & Eg & _); [unfold len; cbn; lia|].
    rewrite Eg; cbn.
    eexists _, _. split; [reflexivity|]. split; [exact Hinv | reflexivity]. }
  destruct (roll <? 7656119366529843).
  { destruct (randint_ok 5 (15 + d_depth d * 5) r1) as (v & E & _); [lia|].
    rewrite E; cbn.
    eexists _, _. split; [reflexivity|]. split; [exact Hinv | reflexivity]. }
  destruct (choice_ok SCROLL_EFFECTS r1) as (eff & E & _); [discriminate|].
  rewrite E; cbn.
  eexists _, _. split; [reflexivity|]. split; [exact Hinv | reflexivity].
Qed.

Lemma stock_potions_ok n : forall depth acc r,
  exists st r', stock_potions n depth acc r = Ok (st, r').
Proof.
  induction n as [|n IH]; intros depth acc r; cbn; [eauto|].
  destruct (randint_ok 10 20 r) as (v & E1 & _); [lia|]. rewrite E1; cbn.
  destruct (randint_ok 15 25 (rng_next r)) as (p & E2 & _); [lia|]. rewrite E2; cbn.
  apply IH.
Qed.

Lemma stock_scrolls_ok n : forall acc r,
  exists st r', stock_scrolls n acc r = Ok (st, r').
Proof.
  induction n as [|n IH]; intros acc r; cbn; [eauto|].
  destruct (choice_ok SCROLL_EFFECTS r) as (eff & E1 & _); [discriminate|].
  rewrite E1; cbn.
  destruct (randint_ok 30 50 (rng_next r)) as (p & E2 & _); [lia|]. rewrite E2; cbn.
  apply IH.
Qed.

Lemma generate_merchant_stock_ok depth r :
  0 <= depth -> exists st r', _generate_merchant_stock depth r = Ok (st, r').
Proof.
  intros Hdepth. unfold _generate_merchant_stock.
  destruct (randint_ok 1 2 r) as (n1 & E1 & _); [lia|]. rewrite E1; cbn.
  destruct (stock_potions_ok (Z.to_nat n1) depth [] (rng_next r)) as (st1 & r1 & E2).
  rewrite E2; cbn.
  destruct (randint_ok 0 (depth + 1) r1) as (t & E3 & Ht); [lia|]. rewrite E3; cbn.
  destruct (py_get_ok WEAPON_NAMES (t `min` (len WEAPON_NAMES - 1)))
    as ([name bonus] & Eg & _); [unfold len; cbn; lia|].
  rewrite Eg; cbn.
  destruct (randint_ok 1 2 (rng_next r1)) as (n2 & E4 & _); [lia|]. rewrite E4; cbn.
  apply stock_scrolls_ok.
Qed.

Section GenerationTotal.
Context `{Float64}.
Variables w h depth : Z.
Hypothesis depth_nonneg : 0 <= depth.

(** The invariant of generation on the pair of the random source and the
    level, with the rooms fixed. *)
Definition gen_st (rs : list Room) (s : Rng * DungeonLevel) : Prop :=
  gen_inv w h depth s.2 /\ rooms s.2 = rs.

Lemma spawn_monster_ok room rs s :
  room_ok w h room -> gen_st rs s ->
  exists s', spawn_monster room s = Ok s' /\ gen_st rs s'.
Proof.
  destruct s as [r d]. intros Hroom [Hinv Hrs]. cbn in Hinv, Hrs.
  pose proof Hinv as (_ & _ & Hd & _).
  pose proof (room_tile_ok w h depth d room) as Htile.
  destruct room as [[[rx ry] rw] rh].
  pose proof Hroom as (Hx & Hy & Hrw & Hrh & Hxw & Hyh).
  unfold spawn_monster.
  destruct (randint_ok (rx + 1) (rx + rw - 2) r) as (mx & E1 & Hmx); [lia|].
  rewrite E1; cbn.
  destruct (randint_ok (ry + 1) (ry + rh - 2) (rng_next r)) as (my & E2 & Hmy); [lia|].
  rewrite E2; cbn.
  destruct (Htile mx my Hinv Hroom Hmx Hmy) as (t & Et). rewrite Et; cbn.
  destruct (tile_eqb t FLOOR); [|eexists; split; [reflexivity | split; assumption]].
  destruct (randint_ok 0 (d_depth d) (rng_next (rng_next r))) as (v & E3 & Hv); [lia|].
  rewrite E3; cbn.
  destruct (py_get_ok MONSTER_DEFS (v `min` (len MONSTER_DEFS - 1)))
    as ([[[name mhp] matk] mxp] & Eg & _); [unfold len; cbn; lia|].
  rewrite Eg; cbn.
  eexists; split; [reflexivity | split; assumption].
Qed.

Lemma spawn_monsters_ok room rs s :
  room_ok w h room -> gen_st rs s ->
  exists s', spawn_monsters room s = Ok s' /\ gen_st rs s'.
Proof.
  destruct s as [r d]. intros Hroom Hst. pose proof Hst as [(_ & _ & Hd & _) _].
  cbn in Hd. unfold spawn_monsters.
  pose proof (Z.div_pos depth 2 depth_nonneg ltac:(lia)).
  destruct (randint_ok 0 (2 + d_depth d `div` 2) r) as (n & E & _);
    [rewrite Hd; lia|].
  rewrite E; cbn.
  apply (for_each_ok (gen_st rs)); [|exact Hst].
  intros _ s _ Hs. apply spawn_monster_ok; assumption.
Qed.

Lemma spawn_item_ok room rs s :
  room_ok w h room -> gen_st rs s ->
  exists s', spawn_item room s = Ok s' /\ gen_st rs s'.
Proof.
  destruct s as [r d]. intros Hroom [Hinv Hrs]. cbn in Hinv, Hrs.
  pose proof (room_tile_ok w h depth d room) as Htile.
  destruct room as [[[rx ry] rw] rh].
  pose proof Hroom as (Hx & Hy & Hrw & Hrh & Hxw & Hyh).
  unfold spawn_item. destruct (random_unit r) as [roll r1].
  destruct (roll <? 4503599627370496);
    [|eexists; split; [reflexivity | split; assumption]].
  destruct (randint_ok (rx + 1) (rx + rw - 2) r1) as (ix & E1 & Hix); [lia|].
  rewrite E1; cbn.
  destruct (randint_ok (ry + 1) (ry + rh - 2) (rng_next r1)) as (iy & E2 & Hiy); [lia|].
  rewrite E2; cbn.
  destruct (Htile ix iy Hinv Hroom Hix Hiy) as (t & Et). rewrite Et; cbn.
  destruct (tile_eqb t FLOOR); [|eexists; split; [reflexivity | split; assumption]].
  destruct (place_item_ok w h depth ix iy (rng_next (rng_next r1)) d depth_nonneg Hinv)
    as (r' & d' & E & Hinv' & Hrooms').
  exists (r', d'). split; [exact E|]. split; [exact Hinv' | cbn; congruence].
Qed.

Lemma place_merchant_ok rs s :
  gen_st rs s -> exists s', place_merchant s = Ok s' /\ gen_st rs s'.
Proof.
  destruct s as [r d]. intros [Hinv Hrs]. cbn in Hinv, Hrs.
  pose proof Hinv as (_ & _ & Hd & _).
  unfold place_merchant. unfold len.
  destruct (Z.ltb_spec 2 (Z.of_nat (length (rooms d))));
    [|eexists; split; [reflexivity | split; assumption]].
  destruct (choice_ok (take (length (rooms d) - 2) (drop 1 (rooms d))) r)
    as (mroom & E1 & _).
  { intros Hnil. apply (f_equal length) in Hnil.
    rewrite length_take, length_drop in Hnil. cbn in Hnil. lia. }
  rewrite E1; cbn. destruct (center mroom) as [mx my].
  destruct (generate_merchant_stock_ok (d_depth d) (rng_next r)) as (st & r' & E2);
    [lia|].
  rewrite E2; cbn.
  eexists; split; [reflexivity | split; assumption].
Qed.

Lemma generate_ok r d :
  15 <= w -> 11 <= h -> gen_inv w h depth d -> rooms d = [] ->
  exists r' d', _generate (r, d) = Ok (r', d') /\
    gen_inv w h depth d' /\ 1 <= len (rooms d') <= 9.
Proof.
  intros Hw15 Hh11 Hinv Hnil. unfold _generate.
  destruct (randint_ok 5 9 r) as (num & E1 & Hnum); [lia|]. bind_step E1.
  destruct (place_rooms_ok w h depth num 200 Hw15 Hh11 (rng_next r) d Hinv)
    as (r1 & d1 & E2 & Hinv1 & Hlen1 & Hne1).
  bind_step E2.
  rewrite Hnil in Hlen1. unfold len in Hlen1 at 2. cbn in Hlen1.
  assert (Hrooms1 : rooms d1 <> []) by (apply Hne1; right; lia).
  assert (Hl1 : 1 <= len (rooms d1)).
  { unfold len. destruct (rooms d1); [congruence | cbn; lia]. }
  pose proof Hinv1 as (Hw1 & Hh1 & Hd1 & (Ht1 & Hr1 & Hv1) & Hall1).
  (* the last room and the stairs at its centre *)
  destruct (last (rooms d1)) as [lr|] eqn:Hlast;
    [|apply last_None in Hlast; congruence].
  assert (Eget : py_get (rooms d1) (-1) = Ok lr).
  { unfold py_get, py_index.
    destruct (Z.leb_spec 0 (-1)); [lia|]. cbn.
    destruct (Z.leb_spec (- Z.of_nat (length (rooms d1))) (-1)); [|unfold len in Hl1; lia].
    destruct (Z.ltb_spec (-1) 0); [|lia]. cbn.
    rewrite last_lookup in Hlast.
    replace (Z.to_nat (Z.of_nat (length (rooms d1)) + -1))
      with (pred (length (rooms d1))) by lia.
    rewrite Hlast. reflexivity. }
  rewrite Eget; cbn.
  assert (Hlr : room_ok w h lr).
  { apply last_Some_elem_of in Hlast.
    exact (proj1 (Forall_forall _ _) Hall1 _ Hlast). }
  pose proof (center_in w h lr Hlr) as Hc.
  destruct lr as [[[lx ly] lw] lh]. destruct (center (lx, ly, lw, lh)) as [sx sy].
  cbn in Hc.
  destruct (grid_set_ok (d_w d1) (d_h d1) (tiles d1) sx sy STAIRS Ht1)
    as (t2 & E3 & Ht2); [lia | lia |].
  rewrite E3; cbn.
  set (d2 := set_stairs_pos (Some (sx, sy)) (set_tiles t2 d1)).
  assert (Hst2 : gen_st (rooms d1) (r1, d2)).
  { split; [|reflexivity]. unfold gen_inv, level_shape. cbn. auto 10. }
  (* monsters *)
  destruct (for_each_ok (gen_st (rooms d1)) spawn_monsters (drop 1 (rooms d1)))
    with (s := (r1, d2)) as (s3 & E4 & Hst3); [|exact Hst2|].
  { intros room s Hroom Hs. apply spawn_monsters_ok; [|exact Hs].
    apply (proj1 (Forall_forall _ _) Hall1).
    apply list_elem_of_lookup in Hroom as [i Hi]. rewrite lookup_drop in Hi.
    apply list_elem_of_lookup. eauto. }
  change (rooms d2) with (rooms d1). rewrite E4; cbn.
  (* items *)
  pose proof Hst3 as [_ Hrooms3]. rewrite Hrooms3.
  destruct (for_each_ok (gen_st (rooms d1)) spawn_item (rooms d1))
    with (s := s3) as (s4 & E5 & Hst4); [|exact Hst3|].
  { intros room s Hroom Hs. apply spawn_item_ok; [|exact Hs].
    exact (proj1 (Forall_forall _ _) Hall1 _ Hroom). }
  rewrite E5; cbn.
  (* the merchant *)
  destruct (place_merchant_ok (rooms d1) s4 Hst4) as ([r5 d5] & E6 & Hinv5 & Hrooms5).
  cbn in Hinv5, Hrooms5.
  exists r5, d5. split; [exact E6|]. split; [exact Hinv5|].
  rewrite Hrooms5. lia.
Qed.

End GenerationTotal.

Lemma grid_shape_replicate {A} (w h : Z) (a : A) :
  grid_shape w h (replicate (Z.to_nat h) (replicate (Z.to_nat w) a)).
Proof.
  split; [apply length_replicate|].
  apply Forall_replicate. apply length_replicate.
Qed.

(** C4, as stated, fails: on a grid 7 tiles wide no room fits, and
    generation raises ValueError at the first placement attempt, when it
    draws the room's x position from an empty range. *)
Lemma generation_raises_on_narrow_grid :
  @DungeonLevel_init axis_float 7 22 1 ex_rng = Raise ValueError.
Proof. vm_compute. reflexivity. Qed.

Section GenerationOutcome.
Context `{Float64}.

(** C4 (amended): for every width of at least 15, height of at least 11
    and depth from 0 up (below [2^53], where an integer is a float),
    level generation returns normally, raising no error and within the
    200 placement attempts, a level of 1 to 9 rooms whose grids have the
    given dimensions; there is no zero-room outcome, as the first
    attempt always places a room. For a width below 8 or a height below
    7, where no room fits, generation raises ValueError at the first
    placement attempt. *)
Theorem generation_outcome (width height depth : Z) (r : Rng) :
  (15 <= width -> 11 <= height -> 0 <= depth < 2 ^ 53 ->
   exists r' d, DungeonLevel_init width height depth r = Ok (r', d) /\
     d_w d = width /\ d_h d = height /\ d_depth d = depth /\
     level_shape d /\ 1 <= len (rooms d) <= 9) /\
  (width < 8 \/ height < 7 ->
   DungeonLevel_init width height depth r = Raise ValueError).
Proof.
  split.
  - intros Hw Hh [Hd _]. unfold DungeonLevel_init.
    destruct (generate_ok width height depth Hd r
      (mkLevel width height depth
         (replicate (Z.to_nat height) (replicate (Z.to_nat width) WALL))
         (replicate (Z.to_nat height) (replicate (Z.to_nat width) false))
         (replicate (Z.to_nat height) (replicate (Z.to_nat width) false))
         [] [] [] None None))
      as (r' & d & E & (Hdw & Hdh & Hdd & Hshape & _) & Hlen);
      [exact Hw | exact Hh | | reflexivity |].
    { unfold gen_inv, level_shape. cbn.
      repeat split; try apply grid_shape_replicate. apply Forall_nil_2. }
    exists r', d. auto 10.
  - intros Hsmall. unfold DungeonLevel_init, _generate.
    destruct (randint_ok 5 9 r) as (num & E1 & Hnum); [lia|]. bind_step E1.
    change 200%nat with (S 199). rewrite place_rooms_S.
    cbv beta iota. cbn [rooms d_w d_h].
    destruct (Z.leb_spec num (len (@nil Room))) as [Hle|_];
      [unfold len in Hle; cbn in Hle; lia|].
    destruct (randint_ok 5 12 (rng_next r)) as (rw & E2 & Hrw); [lia|].
    bind_step E2.
    destruct (randint_ok 4 8 (rng_next (rng_next r))) as (rh & E3 & Hrh); [lia|].
    bind_step E3.
    destruct (Z.lt_ge_cases (width - rw - 2) 1) as [Hx|Hx].
    + rewrite randint_empty by lia. reflexivity.
    + destruct (randint_ok 1 (width - rw - 2) (rng_next (rng_next (rng_next r))))
        as (rx & E4 & Hrx); [lia|].
      bind_step E4.
      rewrite randint_empty by lia. reflexivity.
Qed.

End GenerationOutcome.

Lemma generation_outcome_witness :
  exists r' d, @DungeonLevel_init axis_float MAP_W MAP_H 1 ex_rng = Ok (r', d) /\
    1 <= len (rooms d) <= 9.
Proof.
  destruct (@generation_outcome axis_float MAP_W MAP_H 1 ex_rng) as [Hok _].
  destruct Hok as (r' & d & E & _ & _ & _ & _ & Hlen);
    [unfold MAP_W; lia | unfold MAP_H; lia | lia |].
  exists r', d. split; [exact E | exact Hlen].
Defined.

(** ** Reachable states *)

Lemma mark_items ix iy d d' :
  mark ix iy d = Ok d' ->
  items d' = items d /\ merchant d' = merchant d /\ monsters d' = monsters d.
Proof.
  unfold mark. intros E. bind_inv E as vis Ev. bind_inv E as rev Er.
  injection E as <-. auto.
Qed.

Lemma reveal_all_items d d' :
  reveal_all d = Ok d' -> items d' = items d /\ merchant d' = merchant d.
Proof.
  unfold reveal_all. intros E. bind_inv E as rev Er. injection E as <-. auto.
Qed.

Section FovFrame.
Context `{Float64}.

Lemma compute_fov_items px py radius d d' :
  compute_fov px py radius d = Ok d' ->
  items d' = items d /\ merchant d' = merchant d.
Proof.
  unfold compute_fov. intros E.
  eapply (for_each_inv (fun s => items s = items d /\ merchant s = merchant d));
    [| exact E | auto].
  intros a s s' Hbody Hs. revert Hbody Hs. unfold cast_angle.
  apply (cast_ray_inv (fun s => items s = items d /\ merchant s = merchant d)).
  intros ix iy d1 d2 Hm [Hi Hmc]. apply mark_items in Hm as (Hi' & Hmc' & _).
  split; congruence.
Qed.

End FovFrame.

Lemma place_rooms_items n : forall num r d r' d',
  place_rooms n num (r, d) = Ok (r', d') ->
  items d' = items d /\ merchant d' = merchant d /\ d_depth d' = d_depth d.
Proof.
  induction n as [|n IH]; intros num r d r' d' E.
  - injection E as <- <-. auto.
  - rewrite place_rooms_S in E.
    destruct (num <=? len (rooms d)); [injection E as <- <-; auto|].
    bind_inv E as [rw r1] E1. bind_inv E as [rh r2] E2.
    bind_inv E as [rx r3] E3. bind_inv E as [ry r4] E4. cbv zeta in E.
    destruct (existsb _ (rooms d)); [apply IH in E; exact E|].
    bind_inv E as t1 Ec. bind_inv E as t2 Ek.
    apply IH in E. exact E.
Qed.

Lemma stock_heals_snoc l e :
  stock_heals l -> match e_kind e with potion v => 0 <= v | _ => True end ->
  stock_heals (l ++ [e]).
Proof.
  intros Hl He. apply Forall_app. split; [exact Hl|].
  apply Forall_cons. split; [exact He | apply Forall_nil_2].
Qed.

Lemma potions_heal_snoc l it :
  potions_heal l -> match i_kind it with potion v => 0 <= v | _ => True end ->
  potions_heal (l ++ [it]).
Proof.
  intros Hl He. apply Forall_app. split; [exact Hl|].
  apply Forall_cons. split; [exact He | apply Forall_nil_2].
Qed.

Lemma stock_potions_heals n : forall depth acc r st r',
  0 <= depth -> stock_heals acc ->
  stock_potions n depth acc r = Ok (st, r') -> stock_heals st.
Proof.
  induction n as [|n IH]; intros depth acc r st r' Hd Hacc E; cbn in E.
  - injection E as <- <-. exact Hacc.
  - bind_inv E as [v r1] E1. bind_inv E as [p r2] E2. cbv zeta in E.
    apply randint_range in E1.
    eapply IH; [exact Hd | | exact E].
    apply stock_heals_snoc; [exact Hacc | cbn; lia].
Qed.

Lemma stock_scrolls_heals n : forall acc r st r',
  stock_heals acc -> stock_scrolls n acc r = Ok (st, r') -> stock_heals st.
Proof.
  induction n as [|n IH]; intros acc r st r' Hacc E; cbn in E.
  - injection E as <- <-. exact Hacc.
  - bind_inv E as [eff r1] E1. bind_inv E as [p r2] E2.
    eapply IH; [| exact E]. apply stock_heals_snoc; [exact Hacc | exact I].
Qed.

Lemma generate_merchant_stock_heals depth r st r' :
  0 <= depth -> _generate_merchant_stock depth r = Ok (st, r') -> stock_heals st.
Proof.
  intros Hd E. unfold _generate_merchant_stock in E.
  bind_inv E as [n1 r1] E1. bind_inv E as [st1 r2] E2.
  bind_inv E as [t r3] E3. cbv zeta in E.
  bind_inv E as [name bonus] E4. cbv zeta in E.
  bind_inv E as [n2 r4] E5.
  apply stock_potions_heals in E2; [|exact Hd | apply Forall_nil_2].
  eapply stock_scrolls_heals; [| exact E].
  apply stock_heals_snoc; [exact E2 | exact I].
Qed.

Lemma place_item_heals x y r d r' d' :
  _place_item x y (r, d) = Ok (r', d') -> level_heals d ->
  level_heals d' /\ d_depth d' = d_depth d.
Proof.
  unfold _place_item. destruct (random_unit r) as [roll r1].
  intros E [Hi Hm].
  destruct (roll <? 3152519739159347).
  { bind_inv E as [v r2] E1. injection E as <- <-. apply randint_range in E1.
    split; [|reflexivity]. split; [|exact Hm].
    apply potions_heal_snoc; [exact Hi | cbn; lia]. }
  destruct (roll <? 5404319552844595).
  { bind_inv E as [v r2] E1. cbv zeta in E. bind_inv E as [name bonus] E2.
    injection E as <- <-. split; [|reflexivity]. split; [|exact Hm].
    apply potions_heal_snoc; [exact Hi | exact I]. }
  destruct (roll <? 7656119366529843).
  { bind_inv E as [v r2] E1. injection E as <- <-.
    split; [|reflexivity]. split; [|exact Hm].
    apply potions_heal_snoc; [exact Hi | exact I]. }
  bind_inv E as [eff r2] E1. injection E as <- <-.
  split; [|reflexivity]. split; [|exact Hm].
  apply potions_heal_snoc; [exact Hi | exact I].
Qed.

Section GenerationHeals.
Context `{Float64}.
Variable depth : Z.
Hypothesis depth_nonneg : 0 <= depth.

(** What generation keeps of the potions of a level. *)
Definition heals_st (s : Rng * DungeonLevel) : Prop :=
  level_heals s.2 /\ d_depth s.2 = depth.

Lemma spawn_monster_heals room s s' :
  spawn_monster room s = Ok s' -> heals_st s -> heals_st s'.
Proof.
  destruct s as [r d], room as [[[rx ry] rw] rh]. unfold spawn_monster.
  intros E Hs. bind_inv E as [mx r1] E1. bind_inv E as [my r2] E2.
  bind_inv E as t Et. destruct (tile_eqb t FLOOR).
  - bind_inv E as [v r3] E3. cbv zeta in E.
    bind_inv E as [[[name mhp] matk] mxp] E4. injection E as <-. exact Hs.
  - injection E as <-. exact Hs.
Qed.

Lemma spawn_monsters_heals room s s' :
  spawn_monsters room s = Ok s' -> heals_st s -> heals_st s'.
Proof.
  destruct s as [r d]. unfold spawn_monsters. intros E Hs.
  bind_inv E as [n r1] E1.
  eapply (for_each_inv heals_st); [| exact E | exact Hs].
  intros k s1 s2. apply spawn_monster_heals.
Qed.

Lemma spawn_item_heals room s s' :
  spawn_item room s = Ok s' -> heals_st s -> heals_st s'.
Proof.
  destruct s as [r d], room as [[[rx ry] rw] rh]. unfold spawn_item.
  destruct (random_unit r) as [roll r0]. intros E Hs.
  destruct (roll <? 4503599627370496); [|injection E as <-; exact Hs].
  bind_inv E as [ix r1] E1. bind_inv E as [iy r2] E2. bind_inv E as t Et.
  destruct (tile_eqb t FLOOR); [|injection E as <-; exact Hs].
  destruct s' as [r' d']. destruct Hs as [Hl Hd]. cbn in Hl, Hd.
  apply place_item_heals in E as [Hl' Hd']; [|exact Hl].
  split; [exact Hl' | cbn; congruence].
Qed.

Lemma place_merchant_heals s s' :
  place_merchant s = Ok s' -> heals_st s -> heals_st s'.
Proof.
  destruct s as [r d]. unfold place_merchant. intros E Hs.
  destruct (2 <? len (rooms d)); [|injection E as <-; exact Hs].
  bind_inv E as [mroom r1] E1. destruct (center mroom) as [mx my].
  bind_inv E as [st r2] E2. injection E as <-.
  destruct Hs as [[Hi _] Hd]. cbn in Hi, Hd.
  apply generate_merchant_stock_heals in E2; [|lia].
  split; [split; [exact Hi | exact E2] | exact Hd].
Qed.

Lemma generate_heals s s' :
  _generate s = Ok s' -> heals_st s -> heals_st s'.
Proof.
  destruct s as [r d]. unfold _generate. intros E [[Hi Hm] Hd]. cbn in Hi, Hm, Hd.
  bind_inv E as [num r1] E1. bind_inv E as [r2 d2] E2.
  apply place_rooms_items in E2 as (Hi2 & Hm2 & Hd2).
  bind_inv E as lr Elr. destruct (center lr) as [sx sy].
  bind_inv E as t Et. cbv zeta in E.
  bind_inv E as s3 E3. bind_inv E as s4 E4.
  apply place_merchant_heals in E; [exact E|].
  eapply (for_each_inv heals_st);
    [intros room s1 s2; apply spawn_item_heals | exact E4 |].
  eapply (for_each_inv heals_st);
    [intros room s1 s2; apply spawn_monsters_heals | exact E3 |].
  split; [|cbn; congruence]. split; cbn; [rewrite Hi2; exact Hi | rewrite Hm2; exact Hm].
Qed.

Lemma DungeonLevel_init_heals width height r r' d :
  DungeonLevel_init width height depth r = Ok (r', d) ->
  level_heals d /\ d_depth d = depth.
Proof.
  unfold DungeonLevel_init. intros E. apply generate_heals in E; [exact E|].
  split; [|reflexivity]. split; [apply Forall_nil_2 | exact I].
Qed.

End GenerationHeals.

Lemma the_dungeon_inv g d : the_dungeon g = Ok d -> dungeon g = Some d.
Proof. unfold the_dungeon. destruct (dungeon g); [intros [= <-]; reflexivity | discriminate]. Qed.

Lemma goods_kept_refl g : goods_kept g g.
Proof. split; [reflexivity|]. destruct (dungeon g); auto. Qed.

Lemma goods_kept_trans g1 g2 g3 :
  goods_kept g1 g2 -> goods_kept g2 g3 -> goods_kept g1 g3.
Proof.
  intros [Hs12 Hd12] [Hs23 Hd23]. split; [congruence|].
  destruct (dungeon g1), (dungeon g2), (dungeon g3); try tauto.
  destruct Hd12, Hd23. split; congruence.
Qed.

Lemma goods_kept_heal g g' : goods_kept g g' -> goods_heal g -> goods_heal g'.
Proof.
  intros [Hs Hd] [Hshop Hlev]. unfold goods_heal, shop_list in *. rewrite Hs.
  destruct (dungeon g) as [d|], (dungeon g') as [d'|]; try tauto.
  destruct Hd as [Hi Hm]. unfold level_heals in *. rewrite Hi, Hm.
  split; [|exact Hlev]. destruct (_shop_stock g); exact Hshop.
Qed.

(** Changing the monsters of the level keeps the goods. *)
Lemma goods_kept_monsters g d ms :
  dungeon g = Some d -> goods_kept g (set_dungeon (set_monsters ms d) g).
Proof. intros Hd. split; [reflexivity|]. rewrite Hd. cbn. auto. Qed.

Lemma gain_xp_loop_depth fuel : forall p b p' b',
  gain_xp_loop fuel p b = Ok (p', b') -> p_depth p' = p_depth p.
Proof.
  induction fuel as [|fuel IH]; intros p b p' b' E; cbn in E; [discriminate|].
  destruct (xp_to_next p <=? xp p).
  - apply IH in E. exact E.
  - injection E as <- <-. reflexivity.
Qed.

(** What gaining XP keeps of a player. *)
Lemma gain_xp_player amount p p' b :
  gain_xp amount p = Ok (p', b) ->
  hp p <= max_hp p ->
  hp p' <= max_hp p' /\ (0 < hp p -> 0 < hp p') /\
  inventory p' = inventory p /\ p_depth p' = p_depth p.
Proof.
  intros E Hle. pose proof (gain_xp_hp _ _ _ _ E) as [Hi Hh].
  unfold gain_xp in E. apply gain_xp_loop_depth in E. cbn in E.
  repeat split; try assumption; lia.
Qed.

Lemma blast_player ms : forall kept vis total p r kept' total' p' r',
  blast ms kept vis total p r = Ok (kept', total', p', r') ->
  hp p <= max_hp p ->
  hp p' <= max_hp p' /\ (0 < hp p -> 0 < hp p') /\
  inventory p' = inventory p /\ p_depth p' = p_depth p.
Proof.
  induction ms as [|m ms IH]; intros kept vis total p r kept' total' p' r' E Hle;
    cbn in E.
  - injection E as <- <- <- <-. auto.
  - bind_inv E as v Ev. destruct v.
    + bind_inv E as [dmg r1] Er. cbn in E.
      destruct (m_hp m - dmg <=? 0).
      * bind_inv E as [p1 b1] Eg.
        apply gain_xp_player in Eg as (H1 & H2 & H3 & H4); [|exact Hle].
        cbn in H2, H3, H4.
        apply IH in E as (H1' & H2' & H3' & H4'); [|exact H1].
        repeat split; try congruence; auto.
      * apply IH in E; assumption.
    + apply IH in E; assumption.
Qed.

Lemma sound_game_inv g : sound g -> game_inv g.
Proof.
  intros (H1 & H2 & H3 & H4 & H5).
  split; [exact H1|]. split; [left; exact H2|]. split; [exact H3|].
  split; [exact H4 | exact H5].
Qed.

Lemma game_inv_sound g :
  game_inv g -> state g <> dead -> state g <> title -> sound g.
Proof.
  intros (H1 & H2 & H3 & H4 & H5) Hd Ht.
  split; [exact H1|]. split; [|split; [exact H3|split; [exact H4 | exact H5]]].
  destruct H2 as [H2 | [H2 | H2]]; [exact H2 | congruence | congruence].
Qed.

Ltac goods Hd := split; [reflexivity|]; cbn; rewrite Hd; cbn; auto.

Lemma monster_turn_goods i g g' c :
  monster_turn i g = Ok (g', c) ->
  goods_kept g g' /\ p_depth (player g') = p_depth (player g).
Proof.
  unfold monster_turn. intros E.
  bind_inv E as d Ed. apply the_dungeon_inv in Ed.
  bind_inv E as m Em. bind_inv E as vis Ev.
  destruct vis; cbn in E; [|injection E as <- <-; split; [apply goods_kept_refl | reflexivity]].
  destruct (Z.abs (m_x m - p_x (player g)) + Z.abs (m_y m - p_y (player g)) <=? 1).
  - bind_inv E as [r rng'] Er. cbn in E.
    destruct (hp (player g) - monster_damage m (player g) r <=? 0);
      injection E as <- <-; (split; [goods Ed | reflexivity]).
  - destruct (Z.abs (m_x m - p_x (player g)) + Z.abs (m_y m - p_y (player g)) <=? 8);
      [|injection E as <- <-; split; [apply goods_kept_refl | reflexivity]].
    bind_inv E as wx Ewx. destruct (wx && _).
    + injection E as <- <-. split; [goods Ed | reflexivity].
    + bind_inv E as wy Ewy.
      destruct (wy && _); injection E as <- <-;
        (split; [first [apply goods_kept_refl | goods Ed] | reflexivity]).
Qed.

Lemma monster_loop_goods idx : forall g g',
  monster_loop idx g = Ok g' ->
  goods_kept g g' /\ p_depth (player g') = p_depth (player g).
Proof.
  induction idx as [|i idx IH]; intros g g' E; cbn in E.
  - injection E as <-. split; [apply goods_kept_refl | reflexivity].
  - bind_inv E as [g1 c] Et. apply monster_turn_goods in Et as [Hg Hp].
    destruct c.
    + apply IH in E as [Hg' Hp']. split; [|congruence].
      eapply goods_kept_trans; eassumption.
    + injection E as <-. auto.
Qed.

(** The sweep keeps the invariant of the session: when it takes hp to 0 or
    below, the state is dead. *)
Lemma monster_turns_inv g g' :
  sound g -> _monster_turns g = Ok g' -> game_inv g'.
Proof.
  intros (H1 & H2 & H3 & H4 & H5) E. unfold _monster_turns in E.
  bind_inv E as d Ed.
  pose proof (monster_loop_hp _ _ _ E) as (Hm & Hi & Hh & Hc).
  apply monster_loop_goods in E as [Hg Hp].
  split; [lia|]. split; [|split; [rewrite Hi; exact H3|split; [lia|]]].
  - destruct Hc as [[_ Hc] | Hdead]; [left; lia | right; left; exact Hdead].
  - eapply goods_kept_heal; eassumption.
Qed.

(** A game with the goods of a sound game and a sound player is sound. *)
Lemma sound_of g g' :
  goods_heal g -> goods_kept g g' ->
  hp (player g') <= max_hp (player g') -> 0 < hp (player g') ->
  potions_heal (inventory (player g')) -> 0 <= p_depth (player g') ->
  sound g'.
Proof.
  intros Hg Hk H1 H2 H3 H4. repeat (split; [assumption|]).
  eapply goods_kept_heal; eassumption.
Qed.

Lemma attack_monster_sound i g g' :
  sound g -> _attack_monster i g = Ok g' -> sound g'.
Proof.
  unfold _attack_monster. intros (H1 & H2 & H3 & H4 & H5) E.
  bind_inv E as d Ed. apply the_dungeon_inv in Ed.
  bind_inv E as mon Em. bind_inv E as [r rng'] Er.
  cbn in E. destruct (m_hp mon - player_damage (player g) r <=? 0).
  - bind_inv E as [p1 b1] Eg.
    apply gain_xp_player in Eg as (G1 & G2 & G3 & G4); [|exact H1].
    cbn in G2, G3, G4. injection E as <-.
    destruct b1; destruct (_ && _);
      (apply (sound_of g); cbn;
       [exact H5 | goods Ed | exact G1 | auto | rewrite G3; exact H3 | lia]).
  - injection E as <-.
    apply (sound_of g); cbn; [exact H5 | goods Ed | assumption ..].
Qed.

Ltac goods_same := split; [reflexivity | cbn; destruct (dungeon _); auto].

Lemma pickup_sound i g g' : sound g -> _pickup i g = Ok g' -> sound g'.
Proof.
  unfold _pickup. intros (H1 & H2 & H3 & H4 & H5) E.
  bind_inv E as d Ed. apply the_dungeon_inv in Ed.
  bind_inv E as item Ei. injection E as <-.
  unfold nth_obj in Ei. destruct (items d !! i) as [it|] eqn:Hit; [|discriminate].
  injection Ei as ->.
  destruct H5 as [Hshop Hlev]. unfold shop_list in Hshop. rewrite Ed in Hshop, Hlev.
  destruct Hlev as [Hitems Hmc].
  assert (Hitem : match i_kind item with potion v => 0 <= v | _ => True end)
    by exact (proj1 (Forall_lookup _ _) Hitems _ _ Hit).
  assert (Hgoods : forall gx, _shop_stock gx = _shop_stock g ->
            dungeon gx = Some (set_items (delete i (items d)) d) -> goods_heal gx).
  { intros gx Hs Hd. unfold goods_heal, shop_list. rewrite Hs, Hd. cbn.
    split; [exact Hshop|]. split; [apply potions_heal_delete; exact Hitems | exact Hmc]. }
  destruct (i_kind item) as [v|v|v|nm eff] eqn:Ek; cbn.
  - repeat (split; [first [assumption | apply potions_heal_snoc; [assumption | rewrite Ek; exact Hitem]]|]).
    apply Hgoods; reflexivity.
  - destruct (atk_bonus (player g) <? v); cbn;
      (repeat (split; [assumption|]); apply Hgoods; reflexivity).
  - repeat (split; [assumption|]). apply Hgoods; reflexivity.
  - repeat (split; [first [assumption | apply potions_heal_snoc; [assumption | rewrite Ek; exact I]]|]).
    apply Hgoods; reflexivity.
Qed.

Lemma use_item_sound idx g g' :
  sound g -> _use_item idx g = Ok g' -> sound g' /\ state g' = state g.
Proof.
  unfold _use_item. intros (H1 & H2 & H3 & H4 & H5) E.
  bind_inv E as item Eitem. apply py_get_inv in Eitem as (k & _ & Hk).
  bind_inv E as g1 E1. bind_inv E as inv Epop. injection E as <-.
  apply py_pop_inv in Epop as (k' & ->).
  assert (S1 : sound g1 /\ state g1 = state g).
  { destruct (i_kind item) as [v|v|v|nm eff] eqn:Ek.
    - injection E1 as <-.
      pose proof (potions_heal_lookup _ _ _ _ H3 Hk Ek).
      split; [|reflexivity].
      apply (sound_of g); cbn; [exact H5 | goods_same | lia | lia | exact H3 | exact H4].
    - injection E1 as <-. split; [|reflexivity]. repeat (split; [assumption|]). exact H5.
    - injection E1 as <-. split; [|reflexivity]. repeat (split; [assumption|]). exact H5.
    - destruct eff.
      + bind_inv E1 as d Ed. apply the_dungeon_inv in Ed.
        bind_inv E1 as [[[kept total] p1] r1] Eb. injection E1 as <-.
        apply blast_player in Eb as (B1 & B2 & B3 & B4); [|exact H1].
        split; [|reflexivity].
        apply (sound_of g); cbn;
          [exact H5 | goods Ed | exact B1 | auto | rewrite B3; exact H3 | lia].
      + injection E1 as <-. split; [|reflexivity].
        apply (sound_of g); cbn;
          [exact H5 | goods_same | lia | lia | exact H3 | exact H4].
      + injection E1 as <-. split; [|reflexivity].
        apply (sound_of g); cbn;
          [exact H5 | goods_same | assumption ..].
      + injection E1 as <-. split; [|reflexivity].
        apply (sound_of g); cbn;
          [exact H5 | goods_same | assumption ..].
      + bind_inv E1 as d Ed. apply the_dungeon_inv in Ed.
        bind_inv E1 as d1 Er. injection E1 as <-.
        apply reveal_all_items in Er as [Ri Rm].
        split; [|reflexivity].
        apply (sound_of g); cbn; [exact H5 | | assumption ..].
        split; [reflexivity|]. cbn. rewrite Ed. auto. }
  destruct S1 as [(S1 & S2 & S3 & S4 & S5) Hst]. split; [|exact Hst].
  apply (sound_of g1); cbn;
    [exact S5 | goods_same | exact S1 | exact S2
    | apply potions_heal_delete; exact S3 | exact S4].
Qed.

Lemma inventory_screen_sound key g g' :
  sound g -> _inventory_screen key g = Ok g' -> sound g'.
Proof.
  unfold _inventory_screen. intros Hs E.
  destruct ((key =? 27) || (key =? 105)); [injection E as <-; exact Hs|].
  destruct ((97 <=? key) && (key <=? 122)); [|injection E as <-; exact Hs].
  destruct (key - 97 <? len (inventory (player g))); [|injection E as <-; exact Hs].
  bind_inv E as g1 E1. injection E as <-.
  apply use_item_sound in E1 as [H1 _]; [exact H1 | exact Hs].
Qed.

Lemma goods_heal_set_shop_list g l :
  goods_heal g -> stock_heals l -> goods_heal (set_shop_list l g).
Proof.
  intros [Hshop Hlev] Hl. unfold goods_heal, set_shop_list, shop_list in *.
  destruct (_shop_stock g) eqn:Hs.
  - cbn. split; assumption.
  - destruct (dungeon g) as [d|] eqn:Hd; [|rewrite Hs, Hd; split; assumption].
    destruct (merchant d) as [mc|] eqn:Hmc.
    + cbn. rewrite Hs. split; [exact Hl|]. split; [apply Hlev | exact Hl].
    + rewrite Hs, Hd, Hmc. split; assumption.
Qed.

Lemma shop_screen_sound key g g' :
  sound g -> _shop_screen key g = Ok g' -> sound g'.
Proof.
  unfold _shop_screen. intros Hs E. pose proof Hs as (H1 & H2 & H3 & H4 & H5).
  destruct (key =? 27); [injection E as <-; exact Hs|].
  destruct ((97 <=? key) && (key <=? 122)); [|injection E as <-; exact Hs].
  destruct (key - 97 <? len (shop_list g)); [|injection E as <-; exact Hs].
  bind_inv E as entry Ee. apply py_get_inv in Ee as (k & _ & Hk).
  cbv zeta in E.
  destruct (e_price entry <=? p_gold (player g)); [|injection E as <-; exact Hs].
  assert (Hentry : match e_kind entry with potion v => 0 <= v | _ => True end)
    by exact (proj1 (Forall_lookup _ _) (proj1 H5) _ _ Hk).
  bind_inv E as l Epop. injection E as <-.
  apply py_pop_inv in Epop as (k' & ->).
  match goal with |- sound (set_shop_list _ ?g1) =>
    assert (S1 : sound g1 /\ shop_list g1 = shop_list g) end.
  { destruct (e_kind entry) as [v|v|v|nm eff] eqn:Ek;
      try destruct (atk_bonus _ <? v); (split; [|reflexivity]);
      (apply (sound_of g); cbn;
       [exact H5 | goods_same | exact H1 | exact H2
       | first [exact H3 | apply potions_heal_snoc; [exact H3 | cbn; first [exact Hentry | exact I]]]
       | exact H4]). }
  destruct S1 as [(S1 & S2 & S3 & S4 & S5) Hl].
  unfold sound.
  assert (Hp : forall l0 g0, player (set_shop_list l0 g0) = player g0).
  { intros l0 g0. unfold set_shop_list.
    destruct (_shop_stock g0); [reflexivity|].
    destruct (dungeon g0) as [d0|]; [|reflexivity].
    destruct (merchant d0); reflexivity. }
  rewrite Hp. repeat (split; [assumption|]).
  apply goods_heal_set_shop_list; [exact S5|].
  apply Forall_delete. exact (proj1 S5).
Qed.

Section SessionInvariant.
Context `{Float64}.

Lemma try_move_sound dx dy g g' :
  sound g -> _try_move dx dy g = Ok g' -> sound g'.
Proof.
  unfold _try_move. intros Hs E. pose proof Hs as (H1 & H2 & H3 & H4 & H5).
  bind_inv E as d Ed. apply the_dungeon_inv in Ed. cbv zeta in E.
  destruct (merchant d) as [mc|] eqn:Hmc.
  - destruct ((mc_x mc =? p_x (player g) + dx) && (mc_y mc =? p_y (player g) + dy)).
    + injection E as <-. repeat (split; [assumption|]).
      destruct H5 as [_ Hlev]. unfold goods_heal, shop_list. cbn.
      rewrite Ed in *. rewrite Hmc. destruct Hlev as [Hi Hm]. rewrite Hmc in Hm.
      split; [exact Hm|]. split; [exact Hi|]. rewrite Hmc. exact Hm.
    + destruct (monster_at _ _ d) as [mon|];
        [eapply attack_monster_sound; eassumption|].
      bind_inv E as wk Ewk. destruct wk; [|injection E as <-; exact Hs].
      bind_inv E as d1 Ef. apply compute_fov_items in Ef as [Fi Fm].
      match type of E with context [_pickup _ ?g1] =>
        assert (S1 : sound g1) end.
      { apply (sound_of g); cbn; [exact H5 | | assumption ..].
        split; [reflexivity|]. cbn. rewrite Ed. auto. }
      destruct (item_at _ _ d1) as [it|];
        [eapply pickup_sound; eassumption | injection E as <-; exact S1].
  - destruct (monster_at _ _ d) as [mon|];
      [eapply attack_monster_sound; eassumption|].
    bind_inv E as wk Ewk. destruct wk; [|injection E as <-; exact Hs].
    bind_inv E as d1 Ef. apply compute_fov_items in Ef as [Fi Fm].
    match type of E with context [_pickup _ ?g1] =>
      assert (S1 : sound g1) end.
    { apply (sound_of g); cbn; [exact H5 | | assumption ..].
      split; [reflexivity|]. cbn. rewrite Ed. auto. }
    destruct (item_at _ _ d1) as [it|];
      [eapply pickup_sound; eassumption | injection E as <-; exact S1].
Qed.

Lemma new_level_sound depth g g' :
  sound g -> 0 <= depth -> new_level depth g = Ok g' ->
  sound g' /\ state g' = state g.
Proof.
  unfold new_level. intros (H1 & H2 & H3 & H4 & H5) Hdepth E.
  bind_inv E as [r d] Eg. apply DungeonLevel_init_heals in Eg as [Hlev _];
    [|exact Hdepth].
  cbv zeta in E. bind_inv E as room Er. destruct (center room) as [x y].
  bind_inv E as d1 Ef. apply compute_fov_items in Ef as [Fi Fm].
  injection E as <-. split; [|reflexivity].
  unfold sound. cbn. repeat (split; [assumption|]).
  unfold goods_heal, shop_list. cbn. split; [exact (proj1 H5)|].
  unfold level_heals. rewrite Fi, Fm. exact Hlev.
Qed.

Lemma try_descend_sound g g' :
  sound g -> _try_descend g = Ok g' -> sound g' /\ state g' = state g.
Proof.
  unfold _try_descend. intros Hs E. pose proof Hs as (H1 & H2 & H3 & H4 & H5).
  bind_inv E as d Ed.
  assert (Hmsg : forall t, sound (msg t g) /\ state (msg t g) = state g).
  { intros t. split; [|reflexivity].
    apply (sound_of g); cbn; [exact H5 | goods_same | assumption ..]. }
  destruct (stairs_pos d) as [[sx sy]|]; [|injection E as <-; apply Hmsg].
  destruct ((p_x (player g) =? sx) && (p_y (player g) =? sy));
    [|injection E as <-; apply Hmsg].
  apply (new_level_sound (p_depth (player g) + 1)); [exact Hs | lia | exact E].
Qed.

Lemma handle_input_inv key g g' :
  sound g -> _handle_input key g = Ok g' -> game_inv g'.
Proof.
  unfold _handle_input. intros Hs E. pose proof Hs as (H1 & H2 & H3 & H4 & H5).
  destruct (intent_of_key key) as [dx dy| | | |].
  - bind_inv E as g1 E1.
    assert (S1 : sound g1).
    { destruct (negb (dx =? 0) || negb (dy =? 0));
        [eapply try_move_sound; eassumption | injection E1 as <-; exact Hs]. }
    eapply monster_turns_inv; eassumption.
  - apply try_descend_sound in E as [S1 _]; [|exact Hs].
    apply sound_game_inv, S1.
  - injection E as <-. apply sound_game_inv.
    apply (sound_of g); cbn; [exact H5 | goods_same | assumption ..].
  - injection E as <-. apply sound_game_inv.
    apply (sound_of g); cbn; [exact H5 | goods_same | assumption ..].
  - injection E as <-. apply sound_game_inv, Hs.
Qed.

Lemma title_screen_sound g g' :
  game_inv g -> _title_screen g = Ok g' -> sound g'.
Proof.
  unfold _title_screen. intros (_ & _ & _ & _ & H5) E.
  apply new_level_sound in E as [S1 _]; [exact S1 | | lia].
  apply (sound_of g); cbn;
    [exact H5 | goods_same | lia | lia | apply Forall_nil_2 | lia].
Qed.

Lemma end_screen_inv key g :
  game_inv g -> game_inv (_end_screen key g).
Proof.
  intros (H1 & H2 & H3 & H4 & H5). unfold _end_screen.
  assert (Hg : forall gx, goods_kept g gx -> goods_heal gx)
    by (intros gx Hk; eapply goods_kept_heal; eassumption).
  destruct (key =? 113); [|destruct (key =? 32)].
  - split; [exact H1|]. split; [exact H2|]. split; [exact H3|].
    split; [exact H4|]. apply Hg. goods_same.
  - split; [exact H1|]. split; [right; right; reflexivity|]. split; [exact H3|].
    split; [exact H4|]. apply Hg. goods_same.
  - split; [exact H1|]. split; [exact H2|]. split; [exact H3|].
    split; [exact H4 | exact H5].
Qed.

(** Every step of the loop of [run] keeps the invariant of the session. *)
Lemma tick_inv key g g' : game_inv g -> tick key g = Ok g' -> game_inv g'.
Proof.
  unfold tick. intros Hinv E. destruct (state g) eqn:Hst.
  - apply sound_game_inv. eapply title_screen_sound; eassumption.
  - eapply handle_input_inv; [|exact E].
    apply game_inv_sound; [exact Hinv | congruence | congruence].
  - injection E as <-. apply end_screen_inv, Hinv.
  - apply sound_game_inv. eapply inventory_screen_sound; [|exact E].
    apply game_inv_sound; [exact Hinv | congruence | congruence].
  - apply sound_game_inv. eapply shop_screen_sound; [|exact E].
    apply game_inv_sound; [exact Hinv | congruence | congruence].
  - injection E as <-. apply end_screen_inv, Hinv.
Qed.

Lemma reachable_inv g : reachable g -> game_inv g.
Proof.
  induction 1 as [r | key g g' _ IH E].
  - split; [cbn; lia|]. split; [right; right; reflexivity|].
    split; [apply Forall_nil_2|]. split; [cbn; lia|].
    split; [apply Forall_nil_2 | exact I].
  - eapply tick_inv; eassumption.
Qed.

End SessionInvariant.

(** ** More on level-ups *)

Lemma gain_xp_loop_outcome fuel : forall p b p' b',
  gain_xp_loop fuel p b = Ok (p', b') ->
  xp p' < xp_to_next p' /\
  level p <= level p' /\
  (b' = true <-> b = true \/ level p < level p') /\
  xp p' + 10 * level p' * (level p' - 1)
    = xp p + 10 * level p * (level p - 1) /\
  max_hp p' = max_hp p + 8 * (level p' - level p) /\
  base_atk p' = base_atk p + (level p' - level p).
Proof.
  induction fuel as [|fuel IH]; intros p b p' b' E; cbn in E; [discriminate|].
  destruct (Z.leb_spec (xp_to_next p) (xp p)) as [Hle|Hgt].
  - apply IH in E as (H1 & H2 & H3 & H4 & H5 & H6).
    unfold level_up in H2, H3, H4, H5, H6. cbn in H2, H3, H4, H5, H6.
    unfold xp_to_next in H4.
    split; [exact H1|]. split; [lia|]. split; [|split; [nia | split; lia]].
    split; [intros _; right; lia | intros _; apply H3; left; reflexivity].
  - injection E as <- <-. split; [exact Hgt|]. split; [lia|].
    split; [|split; [reflexivity | split; lia]].
    split; [intros Hb; left; exact Hb | intros [Hb | Hl]; [exact Hb | lia]].
Qed.

(** Gaining XP always returns: the loop ends below the threshold of the
    level reached, the level never goes down and [leveled] tells whether it
    went up; each level gained adds 8 to [max_hp] and 1 to [base_atk]; and
    no XP is lost: what is left plus the thresholds [20 * k] of the levels
    [k] passed is what the player had plus the amount gained. *)
Theorem gain_xp_outcome (amount : Z) (p : Player) :
  exists p' leveled, gain_xp amount p = Ok (p', leveled) /\
    xp p' < xp_to_next p' /\
    level p <= level p' /\
    (leveled = true <-> level p < level p') /\
    xp p' + 10 * level p' * (level p' - 1)
      = xp p + amount + 10 * level p * (level p - 1) /\
    max_hp p' = max_hp p + 8 * (level p' - level p) /\
    base_atk p' = base_atk p + (level p' - level p).
Proof.
  destruct (gain_xp_total amount p) as (p' & b & E). exists p', b.
  split; [exact E|]. unfold gain_xp in E.
  apply gain_xp_loop_outcome in E as (H1 & H2 & H3 & H4 & H5 & H6).
  cbn in H2, H3, H4, H5, H6.
  split; [exact H1|]. split; [exact H2|]. split; [|split; [lia | split; assumption]].
  split; [intros Hb; apply H3 in Hb as [Hb | Hl]; [discriminate Hb | exact Hl]
         | intros Hl; apply H3; right; exact Hl].
Qed.

(** ** Menus *)

(** Keys of the inventory screen: ESC and [i] close it, whatever the
    inventory holds (so the ninth entry, listed under the letter [i],
    cannot be used); every other key that is not the letter of an entry is
    ignored: the game is unchanged. *)
Theorem inventory_screen_keys (key : Z) (g : Game) :
  (key = 27 \/ key = 105 -> _inventory_screen key g = Ok (set_state play g)) /\
  (key <> 27 -> key <> 105 ->
   key < 97 \/ 122 < key \/ len (inventory (player g)) <= key - 97 ->
   _inventory_screen key g = Ok g).
Proof.
  unfold _inventory_screen. split.
  - intros [-> | ->]; reflexivity.
  - intros H27 H105 Hout.
    destruct (Z.eqb_spec key 27); [lia|]. destruct (Z.eqb_spec key 105); [lia|].
    cbn.
    destruct (Z.leb_spec 97 key); destruct (Z.leb_spec key 122); cbn;
      try reflexivity.
    destruct (Z.ltb_spec (key - 97) (len (inventory (player g))));
      [lia | reflexivity].
Qed.

Lemma inventory_screen_keys_witness :
  _inventory_screen 105 ex_game = Ok (set_state play ex_game) /\
  _inventory_screen 98 ex_game = Ok ex_game.
Proof.
  destruct (inventory_screen_keys 105 ex_game) as [Hclose _].
  destruct (inventory_screen_keys 98 ex_game) as [_ Hskip].
  split; [apply Hclose; right; reflexivity|].
  apply Hskip; [lia | lia | right; right; unfold len; cbn; lia].
Defined.

(** Keys of the shop screen: ESC leaves the shop; every other key that is
    not the letter of a stock entry is ignored: nothing is bought, the
    game is unchanged. *)
Theorem shop_screen_keys (key : Z) (g : Game) :
  (key = 27 -> _shop_screen key g = Ok (set_state play g)) /\
  (key <> 27 ->
   key < 97 \/ 122 < key \/ len (shop_list g) <= key - 97 ->
   _shop_screen key g = Ok g).
Proof.
  unfold _shop_screen. split.
  - intros ->. reflexivity.
  - intros H27 Hout. destruct (Z.eqb_spec key 27); [lia|].
    destruct (Z.leb_spec 97 key); destruct (Z.leb_spec key 122); cbn;
      try reflexivity.
    destruct (Z.ltb_spec (key - 97) (len (shop_list g))); [lia | reflexivity].
Qed.

Lemma shop_screen_keys_witness :
  _shop_screen 27 ex_shop_game = Ok (set_state play ex_shop_game) /\
  _shop_screen 98 ex_shop_game = Ok ex_shop_game.
Proof.
  destruct (shop_screen_keys 27 ex_shop_game) as [Hclose _].
  destruct (shop_screen_keys 98 ex_shop_game) as [_ Hskip].
  split; [apply Hclose; reflexivity|].
  apply Hskip; [lia | right; right; unfold len; cbn; lia].
Defined.

(** ** Monsters out of sight *)




Section SessionTheorem.
Context `{Float64}.

(** In every state a session reaches, from the title screen on and
    whatever keys are pressed, hp is at most [max_hp]; hp is positive
    unless the player has died, that is, unless the state is dead or the
    title screen that follows it; every potion carried heals a
    non-negative amount; and the depth is not negative. *)
Theorem session_hp_invariant (g : Game) :
  reachable g ->
  hp (player g) <= max_hp (player g) /\
  (hp (player g) <= 0 -> state g = dead \/ state g = title) /\
  potions_heal (inventory (player g)) /\
  0 <= p_depth (player g).
Proof.
  intros Hr. apply reachable_inv in Hr as (H1 & H2 & H3 & H4 & _).
  split; [exact H1|]. split; [|split; assumption].
  intros Hle. destruct H2 as [H2 | H2]; [lia | exact H2].
Qed.

End SessionTheorem.

Lemma session_hp_invariant_witness :
  exists g', @tick axis_float 0 (Game_init ex_rng) = Ok g' /\
    state g' = play /\ hp (player g') <= max_hp (player g').
Proof.
  eexists. split; [vm_compute; reflexivity|]. split; [reflexivity|].
  apply (@session_hp_invariant axis_float).
  eapply reach_tick with (key := 0); [apply (reach_init ex_rng)|].
  vm_compute. reflexivity.
Defined.

(** ** Moving, descending, restarting *)

(** [mark] writes to the visibility grids only. *)
Lemma mark_level ix iy d d' :
  mark ix iy d = Ok d' ->
  exists vis rev, d' = set_revealed rev (set_visible vis d).
Proof.
  unfold mark. intros E. bind_inv E as vis Ev. bind_inv E as rev Er.
  injection E as <-. eauto.
Qed.

Section Moves.
Context `{Float64}.

Lemma compute_fov_layout px py radius d d' :
  compute_fov px py radius d = Ok d' -> same_layout d d'.
Proof.
  unfold compute_fov. intros E.
  eapply (for_each_inv (same_layout d)); [| exact E | repeat split].
  intros a s s' Hbody Hs. revert Hbody Hs. unfold cast_angle.
  apply (cast_ray_inv (same_layout d)).
  intros ix iy d1 d2 Hm Hs. apply mark_level in Hm as (vis & rev & ->).
  exact Hs.
Qed.


(** A descend key away from the stairs only logs a notice: the player, the
    level and the state are unchanged and no monster sweep follows. *)
Theorem descend_off_stairs (g : Game) (d : DungeonLevel) (key : Z) :
  dungeon g = Some d ->
  (forall sx sy, stairs_pos d = Some (sx, sy) ->
     p_x (player g) <> sx \/ p_y (player g) <> sy) ->
  key = 62 \/ key = 10 \/ key = KEY_ENTER ->
  _handle_input key g = Ok (msg "There are no stairs here." g).
Proof.
  intros Hd Hoff Hkey.
  assert (Hint : intent_of_key key = Descend)
    by (destruct Hkey as [-> | [-> | ->]]; reflexivity).
  unfold _handle_input. rewrite Hint.
  unfold _try_descend, the_dungeon. rewrite Hd; cbn.
  destruct (stairs_pos d) as [[sx sy]|]; [|reflexivity].
  destruct (Hoff sx sy eq_refl) as [Hx | Hy].
  - destruct (Z.eqb_spec (p_x (player g)) sx); [contradiction | reflexivity].
  - destruct (Z.eqb_spec (p_y (player g)) sy); [contradiction|].
    rewrite andb_false_r. reflexivity.
Qed.

(** Entering a level: the player stands at the centre of its first room at
    the given depth, [max_depth] keeps the deepest level seen, everything
    else of the player is as before, the state is unchanged and the
    descent message is logged. *)
Theorem new_level_outcome (depth : Z) (g g' : Game) :
  new_level depth g = Ok g' ->
  exists d' room,
    dungeon g' = Some d' /\ rooms d' !! 0%nat = Some room /\
    player g' = set_pos (center room).1 (center room).2
                  (set_depth depth (Z.max (max_depth (player g)) depth)
                     (player g)) /\
    state g' = state g /\
    messages g'
      = messages (msg ("You descend to depth " +:+ str depth +:+ ".") g).
Proof.
  unfold new_level. intros E.
  bind_inv E as [r d] Eg. cbv zeta in E. bind_inv E as room Er.
  destruct (center room) as [x y] eqn:Ec.
  bind_inv E as d1 Ef. apply compute_fov_layout in Ef as (_ & _ & _ & _ & Hr & _).
  injection E as <-.
  apply py_get_inv in Er as (k & Hk & Hroom).
  assert (k = 0%nat) as ->.
  { unfold py_index in Hk. destruct (Z.leb_spec 0 0); [|lia].
    destruct (Z.ltb_spec 0 (Z.of_nat (length (rooms d)))); cbn in Hk;
      [injection Hk as <-; reflexivity|].
    destruct (Z.leb_spec (- Z.of_nat (length (rooms d))) 0); cbn in Hk;
      discriminate Hk. }
  exists d1, room. split; [reflexivity|]. split; [rewrite Hr; exact Hroom|].
  split; [rewrite Ec; reflexivity|]. split; reflexivity.
Qed.

(** Starting over from the title screen gives a fresh player (30 of 30
    hp, level 1, no gold, empty inventory, depth 1) at the centre of the
    first room of a new level, the play state and a log holding only the
    descent message. *)
Theorem title_screen_resets (g g' : Game) :
  _title_screen g = Ok g' ->
  state g' = play /\
  messages g' = ["You descend to depth 1."%string] /\
  exists d' room, dungeon g' = Some d' /\ rooms d' !! 0%nat = Some room /\
    player g' = Player_init (center room).1 (center room).2.
Proof.
  unfold _title_screen. intros E.
  apply new_level_outcome in E as (d' & room & Hd & Hroom & Hp & Hst & Hm).
  split; [exact Hst|]. split; [rewrite Hm; reflexivity|].
  exists d', room. split; [exact Hd|]. split; [exact Hroom|].
  rewrite Hp. reflexivity.
Qed.

End Moves.


Lemma descend_off_stairs_witness :
  @_handle_input axis_float 62 ex_game
    = Ok (msg "There are no stairs here." ex_game).
Proof.
  apply (@descend_off_stairs axis_float ex_game ex_level 62);
    [reflexivity | discriminate | left; reflexivity].
Defined.

Lemma new_level_outcome_witness :
  exists g', @new_level axis_float 3 (Game_init ex_rng) = Ok g' /\
    p_depth (player g') = 3 /\ max_depth (player g') = 3.
Proof.
  eexists. split; [vm_compute; reflexivity|].
  destruct (@new_level_outcome axis_float 3 (Game_init ex_rng) _
              ltac:(vm_compute; reflexivity))
    as (d' & room & _ & _ & Hp & _).
  rewrite Hp. split; reflexivity.
Defined.

Lemma title_screen_resets_witness :
  exists g', @_title_screen axis_float ex_game = Ok g' /\
    hp (player g') = 30 /\ inventory (player g') = [].
Proof.
  eexists. split; [vm_compute; reflexivity|].
  destruct (@title_screen_resets axis_float ex_game _
              ltac:(vm_compute; reflexivity))
    as (_ & _ & d' & room & _ & _ & Hp).
  rewrite Hp. split; reflexivity.
Defined.

(** ** Using items and attacking *)

Lemma py_index_nonneg n i k : 0 <= i -> py_index n i = Some k -> k = Z.to_nat i.
Proof.
  intros Hi. unfold py_index.
  destruct (Z.leb_spec 0 i); [|lia].
  destruct (Z.ltb_spec i (Z.of_nat n)); cbn; [intros [= <-]; reflexivity|].
  destruct (Z.leb_spec (- Z.of_nat n) i); destruct (Z.ltb_spec i 0); cbn;
    try discriminate. lia.
Qed.

(** Using the item at position [idx] takes exactly that entry out of the
    inventory and leaves the others in order; a potion sets hp to
    [min(max_hp, hp + heal)], which does not lower hp when the heal amount
    is not negative and hp is within [max_hp]; no item but a potion or a
    scroll has any effect. *)
Theorem use_item_effect (idx : Z) (g g' : Game) (item : Item) :
  0 <= idx ->
  inventory (player g) !! Z.to_nat idx = Some item ->
  _use_item idx g = Ok g' ->
  inventory (player g') = delete (Z.to_nat idx) (inventory (player g)) /\
  state g' = state g /\
  match i_kind item with
  | potion v =>
      hp (player g') = Z.min (max_hp (player g)) (hp (player g) + v) /\
      (0 <= v -> hp (player g) <= max_hp (player g) ->
       hp (player g) <= hp (player g'))
  | scroll _ _ => True
  | _ => g' = set_player (set_inventory (delete (Z.to_nat idx)
                                            (inventory (player g))) (player g)) g
  end.
Proof.
  intros Hidx Hitem E. unfold _use_item in E.
  bind_inv E as it Eit. apply py_get_inv in Eit as (k & Hk & Hit).
  apply py_index_nonneg in Hk as ->; [|exact Hidx].
  rewrite Hitem in Hit. injection Hit as <-.
  bind_inv E as g1 E1. bind_inv E as inv Epop. injection E as <-.
  unfold py_pop in Epop.
  destruct (py_index _ idx) as [k|] eqn:Hk; [|discriminate].
  apply py_index_nonneg in Hk as ->; [|exact Hidx]. injection Epop as <-.
  assert (H1 : inventory (player g1) = inventory (player g) /\ state g1 = state g).
  { destruct (i_kind item) as [v|v|v|nm eff]; try (injection E1 as <-; auto).
    destruct eff; try (injection E1 as <-; auto).
    - bind_inv E1 as d Ed. bind_inv E1 as [[[kept total] p1] r1] Eb.
      injection E1 as <-. apply blast_hp in Eb as [Hi _]. auto.
    - bind_inv E1 as d Ed. bind_inv E1 as d1 Er. injection E1 as <-. auto. }
  destruct H1 as [Hinv Hst]. cbn. rewrite Hinv.
  split; [reflexivity|]. split; [exact Hst|].
  destruct (i_kind item) as [v|v|v|nm eff]; try exact I.
  - injection E1 as <-. cbn. split; [reflexivity | lia].
  - injection E1 as <-. reflexivity.
  - injection E1 as <-. reflexivity.
Qed.

Lemma gain_xp_loop_kills fuel : forall p b p' b',
  gain_xp_loop fuel p b = Ok (p', b') ->
  kills p' = kills p /\ p_depth p' = p_depth p /\ p_gold p' = p_gold p.
Proof.
  induction fuel as [|fuel IH]; intros p b p' b' E; cbn in E; [discriminate|].
  destruct (xp_to_next p <=? xp p).
  - apply IH in E. exact E.
  - injection E as <- <-. auto.
Qed.

(** An attack on the monster at position [i] draws one number [r]; the
    monster is killed when its hp does not exceed the damage
    [max(1, atk - r)], and then the kill count goes up by one; the state
    becomes win exactly when a monster named dragon is killed at depth 8
    or deeper, and is unchanged otherwise. *)
Theorem attack_monster_outcome
    (i : nat) (g g' : Game) (d : DungeonLevel) (mon : Monster)
    (r : Z) (rng' : Rng) :
  dungeon g = Some d ->
  monsters d !! i = Some mon ->
  randint 0 2 (rng g) = Ok (r, rng') ->
  _attack_monster i g = Ok g' ->
  let killed := m_hp mon - Z.max 1 (atk (player g) - r) <=? 0 in
  rng g' = rng' /\
  kills (player g') = kills (player g) + (if killed then 1 else 0) /\
  state g' = (if killed && String.eqb (m_name mon) "dragon"
                 && (8 <=? p_depth (player g))
              then win else state g) /\
  (killed = false -> player g' = player g).
Proof.
  intros Hd Hm Hr E. unfold _attack_monster, the_dungeon, nth_obj in E.
  rewrite Hd in E; cbn in E. rewrite Hm in E; cbn in E. rewrite Hr in E; cbn in E.
  change (Z.max 1 (atk (player g) - r)) with (player_damage (player g) r).
  cbv zeta. destruct (m_hp mon - player_damage (player g) r <=? 0).
  - bind_inv E as [p1 b1] Eg. unfold gain_xp in Eg.
    apply gain_xp_loop_kills in Eg as (Hk & Hdp & _). cbn in Hk, Hdp.
    injection E as <-. rewrite <- Hdp. cbn.
    destruct b1; destruct (String.eqb (m_name mon) "dragon" && (8 <=? p_depth p1));
      cbn; (split; [reflexivity|]; split; [exact Hk|]; split;
            [reflexivity | discriminate]).
  - injection E as <-. cbn. split; [reflexivity|]. split; [lia|].
    split; reflexivity.
Qed.

Lemma use_item_effect_witness :
  exists g',
    _use_item 0
      (set_player (set_inventory [mkItem 0 0 "potion (+12 HP)" (potion 12)]
                     ex_player) ex_game) = Ok g' /\
    inventory (player g') = [] /\ hp (player g') = 13.
Proof.
  eexists. split; [vm_compute; reflexivity|].
  destruct (use_item_effect 0
              (set_player (set_inventory [mkItem 0 0 "potion (+12 HP)" (potion 12)]
                             ex_player) ex_game) _
              (mkItem 0 0 "potion (+12 HP)" (potion 12))
              ltac:(lia) eq_refl ltac:(vm_compute; reflexivity))
    as (Hinv & _ & Hhp & _).
  split; [exact Hinv | exact Hhp].
Defined.

Lemma attack_monster_outcome_witness :
  exists g',
    _attack_monster 0
      (set_player (set_depth 8 8 ex_player)
         (set_dungeon (set_monsters [mkMonster 2 1 "dragon" 5 80 12 100] ex_level)
            ex_game)) = Ok g' /\
    state g' = win /\ kills (player g') = 1.
Proof.
  eexists. split; [vm_compute; reflexivity|].
  destruct (attack_monster_outcome 0
              (set_player (set_depth 8 8 ex_player)
                 (set_dungeon
                    (set_monsters [mkMonster 2 1 "dragon" 5 80 12 100] ex_level)
                    ex_game)) _
              (set_monsters [mkMonster 2 1 "dragon" 5 80 12 100] ex_level)
              (mkMonster 2 1 "dragon" 5 80 12 100) 0 (rng_next ex_rng)
              eq_refl eq_refl ltac:(vm_compute; reflexivity)
              ltac:(vm_compute; reflexivity))
    as (_ & Hk & Hs & _).
  split; [exact Hs | exact Hk].
Defined.

(** ** A monster's move *)

(** A monster in sight that is not next to the player never attacks: it
    stays where it is or, within distance 8, takes one step along one axis
    that brings it exactly one tile closer to the player, onto a tile that
    is walkable and that no monster occupies (so never onto the player's
    tile). Its other attributes, the player, the log, the state and the
    random stream are untouched. *)
Theorem monster_step
    (i : nat) (g g' : Game) (c : bool) (d : DungeonLevel) (m : Monster) :
  let dist x y := Z.abs (x - p_x (player g)) + Z.abs (y - p_y (player g)) in
  dungeon g = Some d ->
  monsters d !! i = Some m ->
  grid_get (visible d) (m_x m) (m_y m) = Ok true ->
  1 < dist (m_x m) (m_y m) ->
  monster_turn i g = Ok (g', c) ->
  c = true /\
  (g' = g \/
   exists x y,
     g' = set_dungeon (set_monsters (<[i := set_m_pos x y m]> (monsters d)) d) g /\
     dist (m_x m) (m_y m) <= 8 /\
     dist x y = dist (m_x m) (m_y m) - 1 /\
     Z.abs (x - m_x m) + Z.abs (y - m_y m) = 1 /\
     is_walkable x y d = Ok true /\
     monster_at x y d = None).
Proof.
  intros dist Hd Hm Hv Hfar E. subst dist. cbv beta in Hfar |- *.
  unfold monster_turn, the_dungeon, nth_obj in E.
  rewrite Hd in E; cbn in E. rewrite Hm in E; cbn in E. rewrite Hv in E; cbn in E.
  destruct (Z.leb_spec
    (Z.abs (m_x m - p_x (player g)) + Z.abs (m_y m - p_y (player g))) 1); [lia|].
  destruct (Z.leb_spec
    (Z.abs (m_x m - p_x (player g)) + Z.abs (m_y m - p_y (player g))) 8) as [H8|];
    [|injection E as <- <-; auto].
  set (dx := if p_x (player g) =? m_x m then 0
             else if m_x m <? p_x (player g) then 1 else -1) in *.
  set (dy := if p_y (player g) =? m_y m then 0
             else if m_y m <? p_y (player g) then 1 else -1) in *.
  assert (Hdx : (dx = 0 /\ p_x (player g) = m_x m) \/
                (dx = 1 /\ m_x m < p_x (player g)) \/
                (dx = -1 /\ p_x (player g) < m_x m)).
  { subst dx. destruct (Z.eqb_spec (p_x (player g)) (m_x m)); [auto|].
    destruct (Z.ltb_spec (m_x m) (p_x (player g))); [auto | right; right; lia]. }
  assert (Hdy : (dy = 0 /\ p_y (player g) = m_y m) \/
                (dy = 1 /\ m_y m < p_y (player g)) \/
                (dy = -1 /\ p_y (player g) < m_y m)).
  { subst dy. destruct (Z.eqb_spec (p_y (player g)) (m_y m)); [auto|].
    destruct (Z.ltb_spec (m_y m) (p_y (player g))); [auto | right; right; lia]. }
  clearbody dx dy.
  bind_inv E as wx Ewx.
  destruct (monster_at (m_x m + dx) (m_y m) d) as [j|] eqn:Hmx.
  - rewrite bool_decide_true in E by eauto. rewrite andb_false_r in E.
    bind_inv E as wy Ewy.
    destruct (monster_at (m_x m) (m_y m + dy) d) as [j'|] eqn:Hmy.
    + rewrite bool_decide_true in E by eauto. rewrite andb_false_r in E.
      injection E as <- <-. auto.
    + rewrite bool_decide_false in E by (intros [? ?]; discriminate).
      destruct wy; cbn in E; [|injection E as <- <-; auto].
      injection E as <- <-. split; [reflexivity|]. right.
      exists (m_x m), (m_y m + dy).
      destruct (Z.eqb_spec dy 0); [discriminate Ewy|].
      split; [reflexivity|]. split; [exact H8|].
      split; [lia|]. split; [lia|]. split; [exact Ewy | exact Hmy].
  - rewrite bool_decide_false in E by (intros [? ?]; discriminate).
    destruct wx; cbn in E.
    + injection E as <- <-. split; [reflexivity|]. right.
      exists (m_x m + dx), (m_y m).
      destruct (Z.eqb_spec dx 0); [discriminate Ewx|].
      split; [reflexivity|]. split; [exact H8|].
      split; [lia|]. split; [lia|]. split; [exact Ewx | exact Hmx].
    + bind_inv E as wy Ewy.
      destruct (monster_at (m_x m) (m_y m + dy) d) as [j'|] eqn:Hmy.
      * rewrite bool_decide_true in E by eauto. rewrite andb_false_r in E.
        injection E as <- <-. auto.
      * rewrite bool_decide_false in E by (intros [? ?]; discriminate).
        destruct wy; cbn in E; [|injection E as <- <-; auto].
        injection E as <- <-. split; [reflexivity|]. right.
        exists (m_x m), (m_y m + dy).
        destruct (Z.eqb_spec dy 0); [discriminate Ewy|].
        split; [reflexivity|]. split; [exact H8|].
        split; [lia|]. split; [lia|]. split; [exact Ewy | exact Hmy].
Qed.

Lemma monster_step_witness :
  exists g',
    monster_turn 0
      (set_dungeon (set_monsters [mkMonster 3 1 "kobold" 15 15 5 16] ex_level)
         ex_game) = Ok (g', true) /\
    (dungeon g' ≫= fun d' => m_x <$> monsters d' !! 0%nat) = Some 2.
Proof.
  eexists. split; [vm_compute; reflexivity|].
  destruct (monster_step 0
              (set_dungeon
                 (set_monsters [mkMonster 3 1 "kobold" 15 15 5 16] ex_level)
                 ex_game) _ true
              (set_monsters [mkMonster 3 1 "kobold" 15 15 5 16] ex_level)
              (mkMonster 3 1 "kobold" 15 15 5 16)
              eq_refl eq_refl ltac:(vm_compute; reflexivity)
              ltac:(vm_compute; reflexivity) ltac:(vm_compute; reflexivity))
    as (_ & _).
  reflexivity.
Defined.

(** ** The layout of a generated level *)

Lemma for_each_inv_in {A S} (P : S -> Prop) (body : A -> S -> result S) l :
  (forall a s s', a ∈ l -> body a s = Ok s' -> P s -> P s') ->
  forall s s', for_each l body s = Ok s' -> P s -> P s'.
Proof.
  induction l as [|a l IH]; intros Hbody s s' E Hs; cbn in E.
  - injection E as <-. exact Hs.
  - bind_inv E as s1 E1. eapply IH; [| exact E |].
    + intros b t t' Hb. apply Hbody. right. exact Hb.
    + eapply Hbody; [left | exact E1 | exact Hs].
Qed.

Lemma tile_eqb_eq a b : tile_eqb a b = true -> a = b.
Proof. destruct a, b; cbn; congruence. Qed.

Lemma rooms_overlap_sym a b : _rooms_overlap a b = _rooms_overlap b a.
Proof.
  destruct a as [[[ax ay] aw] ah], b as [[[bx b_y] bw] bh]. cbn.
  f_equal.
  destruct (ax + aw + 1 <? bx), (bx + bw + 1 <? ax),
           (ay + ah + 1 <? b_y), (b_y + bh + 1 <? ay); reflexivity.
Qed.

(** Rooms that do not overlap keep two tiles between them. *)
Lemma rooms_apart_inside a b x y x' y' :
  _rooms_overlap a b = false -> inside x y a -> inside x' y' b ->
  3 <= Z.abs (x - x') \/ 3 <= Z.abs (y - y').
Proof.
  destruct a as [[[ax ay] aw] ah], b as [[[bx b_y] bw] bh]. cbn.
  intros Hov [Hx Hy] [Hx' Hy'].
  apply negb_false_iff in Hov.
  destruct (Z.ltb_spec (ax + aw + 1) bx); [lia|].
  destruct (Z.ltb_spec (bx + bw + 1) ax); [lia|].
  destruct (Z.ltb_spec (ay + ah + 1) b_y); [lia|].
  destruct (Z.ltb_spec (b_y + bh + 1) ay); [lia|].
  discriminate Hov.
Qed.

Lemma interior_inside x y room : interior x y room -> inside x y room.
Proof. destruct room as [[[rx ry] rw] rh]. cbn. lia. Qed.

Lemma existsb_false_elem {A} (f : A -> bool) l a :
  existsb f l = false -> a ∈ l -> f a = false.
Proof.
  intros He Ha. destruct (f a) eqn:Hf; [|reflexivity].
  rewrite <- He. symmetry. apply existsb_exists. exists a.
  split; [apply list_elem_of_In; exact Ha | exact Hf].
Qed.

Lemma rooms_apart_snoc rs room :
  rooms_apart rs -> existsb (_rooms_overlap room) rs = false ->
  rooms_apart (rs ++ [room]).
Proof.
  intros Hap Hov i j a b Hi Hj Hne.
  apply lookup_snoc_Some in Hi as [[Hil Hi] | [Hil <-]];
    apply lookup_snoc_Some in Hj as [[Hjl Hj] | [Hjl <-]].
  - exact (Hap i j a b Hi Hj Hne).
  - rewrite rooms_overlap_sym. apply (existsb_false_elem _ rs); [exact Hov|].
    apply list_elem_of_lookup. eauto.
  - apply (existsb_false_elem _ rs); [exact Hov|].
    apply list_elem_of_lookup. eauto.
  - lia.
Qed.

(** The placement loop writes tiles and adds rooms, nothing else. *)
Lemma place_rooms_frame n : forall num r d r' d',
  place_rooms n num (r, d) = Ok (r', d') ->
  d_w d' = d_w d /\ d_h d' = d_h d /\ monsters d' = monsters d /\
  stairs_pos d' = stairs_pos d.
Proof.
  induction n as [|n IH]; intros num r d r' d' E.
  - injection E as <- <-. auto.
  - rewrite place_rooms_S in E.
    destruct (num <=? len (rooms d)); [injection E as <- <-; auto|].
    bind_inv E as [rw r1] E1. bind_inv E as [rh r2] E2.
    bind_inv E as [rx r3] E3. bind_inv E as [ry r4] E4. cbv zeta in E.
    destruct (existsb _ (rooms d)); [apply IH in E; exact E|].
    bind_inv E as t1 Ec. bind_inv E as t2 Ek.
    apply IH in E. exact E.
Qed.

(** The rooms the placement loop adds are drawn within the grid, two
    tiles inside its border, and overlap no earlier room. *)
Lemma place_rooms_layout n : forall num r d r' d',
  place_rooms n num (r, d) = Ok (r', d') ->
  Forall (room_ok (d_w d) (d_h d)) (rooms d) -> rooms_apart (rooms d) ->
  Forall (room_ok (d_w d) (d_h d)) (rooms d') /\ rooms_apart (rooms d').
Proof.
  induction n as [|n IH]; intros num r d r' d' E Hok Hap.
  - injection E as <- <-. auto.
  - rewrite place_rooms_S in E.
    destruct (num <=? len (rooms d)); [injection E as <- <-; auto|].
    bind_inv E as [rw r1] E1. bind_inv E as [rh r2] E2.
    bind_inv E as [rx r3] E3. bind_inv E as [ry r4] E4. cbv zeta in E.
    apply randint_range in E1, E2, E3, E4.
    destruct (existsb _ (rooms d)) eqn:Hov; [apply IH in E; assumption|].
    bind_inv E as t1 Ec. bind_inv E as t2 Ek.
    apply IH in E; [exact E | |].
    + cbn. apply Forall_app. split; [exact Hok|].
      apply Forall_cons. split; [cbn; lia | apply Forall_nil_2].
    + cbn. apply rooms_apart_snoc; assumption.
Qed.

Lemma py_get_last {A} (l : list A) a : py_get l (-1) = Ok a -> last l = Some a.
Proof.
  intros E. apply py_get_inv in E as (k & Hk & Ha).
  rewrite last_lookup. unfold py_index in Hk.
  destruct (Z.leb_spec 0 (-1)); [lia|]. cbn in Hk.
  destruct (Z.leb_spec (- Z.of_nat (length l)) (-1)); cbn in Hk; [|discriminate].
  injection Hk as <-. rewrite <- Ha. f_equal. lia.
Qed.

Lemma grid_get_functional {A} (g : list (list A)) x y a b :
  grid_get g x y = Ok a -> grid_get g x y = Ok b -> a = b.
Proof. congruence. Qed.

Section Layout.
Context `{Float64}.

Lemma spawn_monster_placed d0 room s s' :
  room ∈ drop 1 (rooms d0) ->
  spawn_monster room s = Ok s' -> populated d0 s -> populated d0 s'.
Proof.
  destruct s as [r d], room as [[[rx ry] rw] rh]. unfold spawn_monster.
  intros Hroom E (Hp & Hm & Hi & Hmc). cbn in Hp, Hm, Hi, Hmc.
  bind_inv E as [mx r1] E1. bind_inv E as [my r2] E2.
  bind_inv E as t Et. destruct (tile_eqb t FLOOR) eqn:Ht.
  - bind_inv E as [v r3] E3. cbv zeta in E.
    bind_inv E as [[[name mhp] matk] mxp] E4. injection E as <-.
    apply tile_eqb_eq in Ht as ->. apply randint_range in E1, E2.
    split; [exact Hp|]. split; [|split; assumption]. cbn.
    apply Forall_app. split; [exact Hm|].
    apply Forall_cons. split; [|apply Forall_nil_2].
    split; [|split; [|reflexivity]].
    + exists (rx, ry, rw, rh). split; [exact Hroom | cbn; lia].
    + cbn. destruct Hp as (_ & _ & _ & Ht & _). rewrite <- Ht. exact Et.
  - injection E as <-. exact (conj Hp (conj Hm (conj Hi Hmc))).
Qed.

Lemma spawn_monsters_placed d0 room s s' :
  room ∈ drop 1 (rooms d0) ->
  spawn_monsters room s = Ok s' -> populated d0 s -> populated d0 s'.
Proof.
  destruct s as [r d]. unfold spawn_monsters. intros Hroom E Hs.
  bind_inv E as [n r1] E1.
  eapply (for_each_inv (populated d0)); [| exact E | exact Hs].
  intros k s1 s2. apply spawn_monster_placed, Hroom.
Qed.

Lemma place_item_at x y r d r' d' :
  _place_item x y (r, d) = Ok (r', d') ->
  exists it, d' = set_items (items d ++ [it]) d /\ i_x it = x /\ i_y it = y.
Proof.
  unfold _place_item. destruct (random_unit r) as [roll r1]. intros E.
  destruct (roll <? 3152519739159347).
  { bind_inv E as [v r2] E1. injection E as <- <-. eauto. }
  destruct (roll <? 5404319552844595).
  { bind_inv E as [v r2] E1. cbv zeta in E. bind_inv E as [name bonus] E2.
    injection E as <- <-. eauto. }
  destruct (roll <? 7656119366529843).
  { bind_inv E as [v r2] E1. injection E as <- <-. eauto. }
  bind_inv E as [eff r2] E1. injection E as <- <-. eauto.
Qed.

Lemma spawn_item_placed d0 room s s' :
  room ∈ rooms d0 ->
  spawn_item room s = Ok s' -> populated d0 s -> populated d0 s'.
Proof.
  destruct s as [r d], room as [[[rx ry] rw] rh]. unfold spawn_item.
  destruct (random_unit r) as [roll r0]. intros Hroom E Hs.
  destruct (roll <? 4503599627370496); [|injection E as <-; exact Hs].
  bind_inv E as [ix r1] E1. bind_inv E as [iy r2] E2. bind_inv E as t Et.
  destruct (tile_eqb t FLOOR) eqn:Ht; [|injection E as <-; exact Hs].
  destruct s' as [r' d']. apply place_item_at in E as (it & -> & Hx & Hy).
  apply tile_eqb_eq in Ht as ->. apply randint_range in E1, E2.
  destruct Hs as (Hp & Hm & Hi & Hmc). cbn in Hp, Hm, Hi, Hmc.
  split; [exact Hp|]. split; [exact Hm|]. split; [|exact Hmc]. cbn.
  apply Forall_app. split; [exact Hi|].
  apply Forall_cons. split; [|apply Forall_nil_2]. split.
  - exists (rx, ry, rw, rh). split; [exact Hroom | rewrite Hx, Hy; cbn; lia].
  - rewrite Hx, Hy. destruct Hp as (_ & _ & _ & Ht & _). rewrite <- Ht. exact Et.
Qed.

Lemma place_merchant_placed d0 s s' :
  merchant d0 = None ->
  place_merchant s = Ok s' -> populated d0 s ->
  same_plan d0 s'.2 /\ monsters s'.2 = monsters s.2 /\ items s'.2 = items s.2 /\
  merchant_placed (rooms d0) (merchant s'.2).
Proof.
  destruct s as [r d]. unfold place_merchant.
  intros Hnone E (Hp & Hm & Hi & Hmc). cbn in Hp, Hm, Hi, Hmc.
  pose proof Hp as (_ & _ & _ & _ & Hr & _).
  destruct (Z.ltb_spec 2 (len (rooms d))) as [Hlen | Hlen].
  - bind_inv E as [mroom r1] E1. destruct (center mroom) as [mx my] eqn:Ec.
    bind_inv E as [st r2] E2. injection E as <-. cbn.
    split; [exact Hp|]. split; [reflexivity|]. split; [reflexivity|].
    unfold choice in E1.
    destruct (take _ _ !! _) as [a|] eqn:Ha; [|discriminate E1].
    injection E1 as -> _.
    apply lookup_take_Some in Ha as [Ha Hk].
    rewrite lookup_drop in Ha. rewrite Hr in Ha, Hk.
    eexists _, mroom. split; [|split; [exact Ha | cbn; exact (eq_sym Ec)]]. lia.
  - injection E as <-. cbn.
    split; [exact Hp|]. split; [reflexivity|]. split; [reflexivity|].
    rewrite Hmc, Hnone. cbn. rewrite <- Hr. exact Hlen.
Qed.

(** The stages of [_generate] on a level without monsters, items or
    merchant: the rooms are placed, the stairs are put at the centre of
    the last room, and the level laid out so is populated. *)
Lemma generate_stages r d r' d' :
  merchant d = None -> monsters d = [] -> items d = [] ->
  _generate (r, d) = Ok (r', d') ->
  exists n num r1 r2 d2 lr t,
    place_rooms n num (r1, d) = Ok (r2, d2) /\
    last (rooms d2) = Some lr /\
    grid_set (tiles d2) (center lr).1 (center lr).2 STAIRS = Ok t /\
    same_plan (set_stairs_pos (Some (center lr)) (set_tiles t d2)) d' /\
    Forall (monster_placed (drop 1 (rooms d2)) t) (monsters d') /\
    Forall (item_placed (rooms d2) t) (items d') /\
    merchant_placed (rooms d2) (merchant d').
Proof.
  unfold _generate. intros Hmc0 Hm0 Hi0 E.
  bind_inv E as [num r1] E1. bind_inv E as [r2 d2] E2.
  pose proof (place_rooms_items _ _ _ _ _ _ E2) as (Hi2 & Hmc2 & _).
  pose proof (place_rooms_frame _ _ _ _ _ _ E2) as (_ & _ & Hm2 & _).
  bind_inv E as lr Elr. apply py_get_last in Elr.
  destruct (center lr) as [sx sy] eqn:Ec.
  bind_inv E as t Et. cbv zeta in E.
  bind_inv E as s3 E3. bind_inv E as s4 E4.
  set (d3 := set_stairs_pos (Some (sx, sy)) (set_tiles t d2)) in *.
  assert (P3 : populated d3 s3).
  { eapply (for_each_inv_in (populated d3) spawn_monsters); [| exact E3 |].
    - intros room s s' Hroom. apply spawn_monsters_placed. exact Hroom.
    - split; [repeat split|]. cbn. rewrite Hm2, Hi2, Hm0, Hi0.
      split; [apply Forall_nil_2|]. split; [apply Forall_nil_2 | reflexivity]. }
  assert (P4 : populated d3 s4).
  { eapply (for_each_inv_in (populated d3) spawn_item); [| exact E4 | exact P3].
    intros room s s' Hroom. apply spawn_item_placed.
    destruct P3 as ((_ & _ & _ & _ & Hr3 & _) & _). rewrite <- Hr3. exact Hroom. }
  destruct s4 as [r4 d4]. pose proof P4 as (_ & Hm4 & Hi4 & _).
  apply place_merchant_placed with (d0 := d3) in E;
    [| cbn; rewrite Hmc2; exact Hmc0 | exact P4].
  destruct E as (Hp & Hm & Hi & Hmc).
  cbn in Hm, Hi, Hmc, Hm4, Hi4.
  exists 200%nat, num, r1, r2, d2, lr, t. rewrite Ec. cbn [fst snd].
  split; [exact E2|]. split; [exact Elr|]. split; [exact Et|].
  split; [exact Hp|]. rewrite Hm, Hi. auto.
Qed.

(** What [_generate] builds from a level without rooms or merchant. *)
Lemma generate_layout r d r' d' :
  rooms d = [] -> merchant d = None -> monsters d = [] -> items d = [] ->
  _generate (r, d) = Ok (r', d') ->
  d_w d' = d_w d /\ d_h d' = d_h d /\
  Forall (room_ok (d_w d) (d_h d)) (rooms d') /\ rooms_apart (rooms d') /\
  (exists lr, last (rooms d') = Some lr /\ stairs_pos d' = Some (center lr) /\
     grid_get (tiles d') (center lr).1 (center lr).2 = Ok STAIRS) /\
  Forall (monster_placed (drop 1 (rooms d')) (tiles d')) (monsters d') /\
  Forall (item_placed (rooms d') (tiles d')) (items d') /\
  merchant_placed (rooms d') (merchant d').
Proof.
  intros Hr0 Hmc0 Hm0 Hi0 E.
  apply generate_stages in E
    as (n & num & r1 & r2 & d2 & lr & t & E2 & Elr & Et & Hp & Hm & Hi & Hmc);
    try assumption.
  pose proof (place_rooms_frame _ _ _ _ _ _ E2) as (Hw2 & Hh2 & _).
  apply place_rooms_layout in E2 as (Hok & Hap);
    [| rewrite Hr0; apply Forall_nil_2
     | rewrite Hr0; intros i j a b Hi'; rewrite lookup_nil in Hi'; discriminate Hi'].
  apply grid_set_get in Et.
  destruct Hp as (Hw & Hh & _ & Ht & Hr & Hs). cbn in Hw, Hh, Ht, Hr, Hs.
  rewrite Hw, Hh, Hr, Ht, Hs.
  split; [exact Hw2|]. split; [exact Hh2|]. split; [exact Hok|].
  split; [exact Hap|]. split; [|split; [exact Hm | split; [exact Hi | exact Hmc]]].
  exists lr. split; [exact Elr|]. split; [reflexivity | exact Et].
Qed.

(** What [DungeonLevel.__init__] builds. *)
Lemma init_layout width height depth r r' d :
  DungeonLevel_init width height depth r = Ok (r', d) ->
  d_w d = width /\ d_h d = height /\
  Forall (room_ok width height) (rooms d) /\ rooms_apart (rooms d) /\
  (exists lr, last (rooms d) = Some lr /\ stairs_pos d = Some (center lr) /\
     grid_get (tiles d) (center lr).1 (center lr).2 = Ok STAIRS) /\
  Forall (monster_placed (drop 1 (rooms d)) (tiles d)) (monsters d) /\
  Forall (item_placed (rooms d) (tiles d)) (items d) /\
  merchant_placed (rooms d) (merchant d).
Proof.
  unfold DungeonLevel_init. intros E.
  apply generate_layout in E; try reflexivity. exact E.
Qed.

(** The centre of a room of a generated level is a tile of the room. *)
Lemma center_inside w h room :
  room_ok w h room -> inside (center room).1 (center room).2 room.
Proof.
  intros Hroom. pose proof (center_in _ _ _ Hroom) as Hc.
  destruct room as [[[rx ry] rw] rh]. cbn in Hc |- *. lia.
Qed.

(** The rooms of a generated level lie two tiles inside the border of the
    grid, are 5 to 12 wide and 4 to 8 high, and any two of them keep at
    least two tiles between them: tiles of different rooms differ by 3 or
    more in x or in y. The stairs are at the centre of the last room,
    where the tile is the stairs tile. *)
Theorem generated_rooms (width height depth : Z) (r r' : Rng) (d : DungeonLevel) :
  DungeonLevel_init width height depth r = Ok (r', d) ->
  Forall (room_ok width height) (rooms d) /\
  (forall i j a b x y x' y',
     rooms d !! i = Some a -> rooms d !! j = Some b -> i <> j ->
     inside x y a -> inside x' y' b ->
     3 <= Z.abs (x - x') \/ 3 <= Z.abs (y - y')) /\
  exists lr, last (rooms d) = Some lr /\ stairs_pos d = Some (center lr) /\
    inside (center lr).1 (center lr).2 lr /\
    grid_get (tiles d) (center lr).1 (center lr).2 = Ok STAIRS.
Proof.
  intros E.
  apply init_layout in E as (_ & _ & Hok & Hap & (lr & Hlast & Hst & Ht) & _).
  split; [exact Hok|]. split.
  - intros i j a b x y x' y' Hi Hj Hne Ha Hb.
    apply (rooms_apart_inside a b); [exact (Hap i j a b Hi Hj Hne) | exact Ha | exact Hb].
  - exists lr. split; [exact Hlast|]. split; [exact Hst|]. split; [|exact Ht].
    apply last_Some_elem_of in Hlast.
    exact (center_inside _ _ _ (proj1 (Forall_forall _ _) Hok _ Hlast)).
Qed.

(** Every monster of a generated level stands, with full hp, on a floor
    tile strictly inside a room other than the first: none is generated
    in the room the player starts in, and none on the stairs. Every item
    lies on a floor tile strictly inside a room, and none on the
    stairs. *)
Theorem generated_population
    (width height depth : Z) (r r' : Rng) (d : DungeonLevel) :
  DungeonLevel_init width height depth r = Ok (r', d) ->
  (forall m, m ∈ monsters d ->
     (exists room, room ∈ drop 1 (rooms d) /\ interior (m_x m) (m_y m) room) /\
     grid_get (tiles d) (m_x m) (m_y m) = Ok FLOOR /\
     m_hp m = m_max_hp m /\
     (forall first, rooms d !! 0%nat = Some first ->
                    ~ inside (m_x m) (m_y m) first) /\
     stairs_pos d <> Some (m_x m, m_y m)) /\
  (forall it, it ∈ items d ->
     (exists room, room ∈ rooms d /\ interior (i_x it) (i_y it) room) /\
     grid_get (tiles d) (i_x it) (i_y it) = Ok FLOOR /\
     stairs_pos d <> Some (i_x it, i_y it)).
Proof.
  intros E.
  apply init_layout in E
    as (_ & _ & Hok & Hap & (lr & Hlast & Hst & Ht) & Hm & Hi & _).
  split.
  - intros m Hin. apply (proj1 (Forall_forall _ _) Hm) in Hin
      as ((room & Hroom & Hint) & Hfloor & Hhp).
    split; [eauto|]. split; [exact Hfloor|]. split; [exact Hhp|]. split.
    + intros first Hfirst Hins.
      apply list_elem_of_lookup in Hroom as [k Hk]. rewrite lookup_drop in Hk.
      pose proof (Hap _ _ _ _ Hfirst Hk ltac:(lia)) as Hov.
      apply interior_inside in Hint.
      destruct (rooms_apart_inside _ _ _ _ _ _ Hov Hins Hint); lia.
    + rewrite Hst. intros Heq. destruct (center lr) as [sx sy].
      injection Heq as -> ->. cbn in Ht. congruence.
  - intros it Hin. apply (proj1 (Forall_forall _ _) Hi) in Hin
      as ((room & Hroom & Hint) & Hfloor).
    split; [eauto|]. split; [exact Hfloor|].
    rewrite Hst. intros Heq. destruct (center lr) as [sx sy].
    injection Heq as -> ->. cbn in Ht. congruence.
Qed.

(** A generated level has a merchant exactly when it has three rooms or
    more; the merchant then stands at the centre of a room that is neither
    the first nor the last, so neither where the player starts nor on the
    stairs. *)
Theorem generated_merchant
    (width height depth : Z) (r r' : Rng) (d : DungeonLevel) :
  DungeonLevel_init width height depth r = Ok (r', d) ->
  (merchant d = None <-> len (rooms d) <= 2) /\
  forall mc, merchant d = Some mc ->
    (exists k room, (0 < k < length (rooms d) - 1)%nat /\
       rooms d !! k = Some room /\ (mc_x mc, mc_y mc) = center room) /\
    stairs_pos d <> Some (mc_x mc, mc_y mc) /\
    (forall first, rooms d !! 0%nat = Some first ->
                   (mc_x mc, mc_y mc) <> center first).
Proof.
  intros E.
  apply init_layout in E
    as (_ & _ & Hok & Hap & (lr & Hlast & Hst & _) & _ & _ & Hmc).
  assert (Hcin : forall k room, rooms d !! k = Some room ->
            inside (center room).1 (center room).2 room).
  { intros k room Hk.
    assert (Hin : room ∈ rooms d) by (apply list_elem_of_lookup; eauto).
    exact (center_inside _ _ _ (proj1 (Forall_forall _ _) Hok _ Hin)). }
  split.
  - destruct (merchant d) as [mc|]; cbn in Hmc.
    + split; [discriminate|]. destruct Hmc as (k & room & Hk & _).
      unfold len. lia.
    + split; [intros _; exact Hmc | reflexivity].
  - intros mc Hsome. rewrite Hsome in Hmc. cbn in Hmc.
    destruct Hmc as (k & room & Hk & Hroom & Hc).
    split; [eauto|].
    assert (Hdiff : forall j other, rooms d !! j = Some other -> j <> k ->
              (mc_x mc, mc_y mc) <> center other).
    { intros j other Hj Hne Heq.
      pose proof (Hcin _ _ Hroom) as Hin1. pose proof (Hcin _ _ Hj) as Hin2.
      rewrite <- Hc in Hin1. rewrite <- Heq in Hin2. cbn in Hin1, Hin2.
      pose proof (Hap _ _ _ _ Hroom Hj ltac:(lia)) as Hov.
      destruct (rooms_apart_inside _ _ _ _ _ _ Hov Hin1 Hin2); lia. }
    split.
    + rewrite Hst. intros Heq. injection Heq as Heq.
      rewrite last_lookup in Hlast.
      apply (Hdiff _ lr Hlast); [lia|]. rewrite <- Heq. reflexivity.
    + intros first Hfirst. apply (Hdiff _ first Hfirst). lia.
Qed.

End Layout.

(** ** Walking through a generated level *)

Lemma grid_set_other {A} (g g' : list (list A)) x y v x' y' a :
  grid_set g x y v = Ok g' -> grid_get g x' y' = Ok a ->
  grid_get g' x' y' = Ok a \/ grid_get g' x' y' = Ok v.
Proof.
  intros Hs Hg.
  apply grid_set_inv in Hs as (ky & kx & row & Hky & Hrow & Hkx & ->).
  apply grid_get_inv in Hg as (ky' & kx' & row' & Hky' & Hrow' & Hkx' & Ha).
  destruct (decide (ky = ky')) as [<-|Hne].
  - rewrite Hrow in Hrow'. injection Hrow' as <-.
    destruct (decide (kx = kx')) as [<-|Hnx].
    + right. apply (grid_get_intro _ _ _ ky kx (<[kx := v]> row)).
      * rewrite length_insert. exact Hky'.
      * apply list_lookup_insert_eq. apply (lookup_lt_Some _ _ _ Hrow).
      * rewrite length_insert. exact Hkx'.
      * apply list_lookup_insert_eq. apply (lookup_lt_Some _ _ _ Ha).
    + left. apply (grid_get_intro _ _ _ ky kx' (<[kx := v]> row)).
      * rewrite length_insert. exact Hky'.
      * apply list_lookup_insert_eq. apply (lookup_lt_Some _ _ _ Hrow).
      * rewrite length_insert. exact Hkx'.
      * rewrite list_lookup_insert_ne by exact Hnx. exact Ha.
  - left. apply (grid_get_intro _ _ _ ky' kx' row').
    + rewrite length_insert. exact Hky'.
    + rewrite list_lookup_insert_ne by exact Hne. exact Hrow'.
    + exact Hkx'.
    + exact Ha.
Qed.

Lemma tiles_le_refl t : tiles_le t t.
Proof. intros x y Hn. exact Hn. Qed.

Lemma tiles_le_trans t1 t2 t3 : tiles_le t1 t2 -> tiles_le t2 t3 -> tiles_le t1 t3.
Proof. intros H12 H23 x y Hn. apply H23, H12, Hn. Qed.

(** Writing a tile other than a wall closes no tile. *)
Lemma grid_set_le t x y v t' :
  v <> WALL -> grid_set t x y v = Ok t' -> tiles_le t t'.
Proof.
  intros Hv Hs x' y' (a & Ha & Hna).
  destruct (grid_set_other _ _ _ _ _ _ _ _ Hs Ha) as [Hg | Hg];
    [exists a | exists v]; auto.
Qed.

Lemma grid_set_nonwall t x y v t' :
  v <> WALL -> grid_set t x y v = Ok t' -> nonwall t' x y.
Proof. intros Hv Hs. exists v. split; [eapply grid_set_get; exact Hs | exact Hv]. Qed.

Lemma elem_of_range_2 a b k : a <= k < b -> k ∈ range a b.
Proof.
  intros Hk. unfold range. apply list_elem_of_In, in_map_iff.
  exists (Z.to_nat (k - a)). split; [lia|]. apply in_seq. lia.
Qed.

(** A loop establishes for each of its elements what its body
    establishes for the element it runs on, when later runs keep it. *)
Lemma for_each_all {A S} (Q : A -> S -> Prop) (body : A -> S -> result S) l :
  (forall a s s', body a s = Ok s' -> Q a s') ->
  (forall a b s s', body b s = Ok s' -> Q a s -> Q a s') ->
  forall s s', for_each l body s = Ok s' -> forall a, a ∈ l -> Q a s'.
Proof.
  intros Hest Hkeep. induction l as [|b l IH]; intros s s' E a Ha; cbn in E.
  - apply elem_of_nil in Ha. destruct Ha.
  - bind_inv E as s1 E1. apply elem_of_cons in Ha as [-> | Ha].
    + eapply (for_each_inv (Q b)); [| exact E | eapply Hest; exact E1].
      intros c t t'. apply Hkeep.
    + eapply IH; eassumption.
Qed.

(** Carving a room opens every tile of the room and closes none. *)
Lemma carve_room_carves room t t' :
  _carve_room room t = Ok t' ->
  tiles_le t t' /\ forall x y, inside x y room -> nonwall t' x y.
Proof.
  destruct room as [[[rx ry] rw] rh]. unfold _carve_room. intros E.
  assert (Hrow : forall y t1 t2,
    for_each (range rx (rx + rw)) (fun x t => grid_set t x y FLOOR) t1 = Ok t2 ->
    tiles_le t1 t2).
  { intros y t1 t2 E1.
    eapply (for_each_inv (tiles_le t1)); [| exact E1 | apply tiles_le_refl].
    intros x s s' Hs Hle. eapply tiles_le_trans; [exact Hle|].
    eapply grid_set_le; [|exact Hs]. discriminate. }
  split.
  - eapply (for_each_inv (tiles_le t)); [| exact E | apply tiles_le_refl].
    intros y s s' Hs Hle. eapply tiles_le_trans; [exact Hle|]. eapply Hrow, Hs.
  - intros x y [Hx Hy].
    pose proof (for_each_all
      (fun y t => forall x, x ∈ range rx (rx + rw) -> nonwall t x y)
      (fun y t =>
         for_each (range rx (rx + rw)) (fun x t => grid_set t x y FLOOR) t)
      (range ry (ry + rh))) as Hall.
    cbv beta in Hall. eapply Hall; [| | exact E | | ].
    + intros y0 s s' Hs.
      apply (for_each_all (fun x t => nonwall t x y0)
               (fun x t => grid_set t x y0 FLOOR) _) with (s := s); [| | exact Hs].
      * intros x0 u u' Hu. eapply grid_set_nonwall; [|exact Hu]. discriminate.
      * intros x0 x1 u u' Hu Hn. eapply grid_set_le; [| exact Hu | exact Hn].
        discriminate.
    + intros y0 y1 s s' Hs Hq x0 Hx0. eapply Hrow; [exact Hs|]. apply Hq, Hx0.
    + apply elem_of_range_2. exact Hy.
    + apply elem_of_range_2. exact Hx.
Qed.

(** The horizontal leg of a corridor ends at [x2]; it opens the tiles from
    [x] up to [x2], [x2] excluded, and closes none. *)
Lemma connect_x_carves fuel : forall x y x2 t xe t',
  connect_x fuel x y x2 t = Ok (xe, t') ->
  xe = x2 /\ tiles_le t t' /\ forall k, between x k x2 -> nonwall t' k y.
Proof.
  induction fuel as [|fuel IH]; intros x y x2 t xe t' E; cbn in E.
  - destruct (Z.eqb_spec x x2) as [->|]; [|discriminate].
    injection E as <- <-. split; [reflexivity|]. split; [apply tiles_le_refl|].
    unfold between. lia.
  - destruct (Z.eqb_spec x x2) as [->|Hne].
    + injection E as <- <-. split; [reflexivity|]. split; [apply tiles_le_refl|].
      unfold between. lia.
    + bind_inv E as t1 E1. apply IH in E as (-> & Hle & Hk).
      assert (Hle1 : tiles_le t t1) by (eapply grid_set_le; [|exact E1]; discriminate).
      split; [reflexivity|]. split; [eapply tiles_le_trans; eassumption|].
      intros k Hb. destruct (Z.eq_dec k x) as [->|Hkx].
      * apply Hle. eapply grid_set_nonwall; [|exact E1]. discriminate.
      * apply Hk. unfold between in *. destruct (Z.ltb_spec x x2); lia.
Qed.

(** The vertical leg of a corridor. *)
Lemma connect_y_carves fuel : forall x y y2 t ye t',
  connect_y fuel x y y2 t = Ok (ye, t') ->
  ye = y2 /\ tiles_le t t' /\ forall k, between y k y2 -> nonwall t' x k.
Proof.
  induction fuel as [|fuel IH]; intros x y y2 t ye t' E; cbn in E.
  - destruct (Z.eqb_spec y y2) as [->|]; [|discriminate].
    injection E as <- <-. split; [reflexivity|]. split; [apply tiles_le_refl|].
    unfold between. lia.
  - destruct (Z.eqb_spec y y2) as [->|Hne].
    + injection E as <- <-. split; [reflexivity|]. split; [apply tiles_le_refl|].
      unfold between. lia.
    + bind_inv E as t1 E1. apply IH in E as (-> & Hle & Hk).
      assert (Hle1 : tiles_le t t1) by (eapply grid_set_le; [|exact E1]; discriminate).
      split; [reflexivity|]. split; [eapply tiles_le_trans; eassumption|].
      intros k Hb. destruct (Z.eq_dec k y) as [->|Hky].
      * apply Hle. eapply grid_set_nonwall; [|exact E1]. discriminate.
      * apply Hk. unfold between in *. destruct (Z.ltb_spec y y2); lia.
Qed.

(** A row of tiles that satisfy [ok] can be walked from end to end. *)
Lemma hline (ok : Z * Z -> Prop) y : forall n x x2,
  Z.abs (x2 - x) = Z.of_nat n ->
  (forall k, Z.min x x2 <= k <= Z.max x x2 -> ok (k, y)) ->
  rtc (step_in ok) (x, y) (x2, y).
Proof.
  induction n as [|n IH]; intros x x2 Hn Hok.
  - assert (x2 = x) as -> by lia. apply rtc_refl.
  - set (x1 := if x <? x2 then x + 1 else x - 1).
    assert (Hx1 : Z.abs (x1 - x) = 1 /\ Z.abs (x2 - x1) = Z.of_nat n /\
                  Z.min x x2 <= x1 <= Z.max x x2 /\
                  Z.min x x2 <= Z.min x1 x2 /\ Z.max x1 x2 <= Z.max x x2)
      by (subst x1; destruct (Z.ltb_spec x x2); lia).
    clearbody x1. destruct Hx1 as (H1 & H2 & H3 & H4 & H5).
    apply rtc_l with (x1, y).
    + split; [apply Hok; lia|]. split; [apply Hok; lia|]. cbn. lia.
    + apply IH; [exact H2|]. intros k Hk. apply Hok. lia.
Qed.

(** A column of tiles that satisfy [ok] can be walked from end to end. *)
Lemma vline (ok : Z * Z -> Prop) x : forall n y y2,
  Z.abs (y2 - y) = Z.of_nat n ->
  (forall k, Z.min y y2 <= k <= Z.max y y2 -> ok (x, k)) ->
  rtc (step_in ok) (x, y) (x, y2).
Proof.
  induction n as [|n IH]; intros y y2 Hn Hok.
  - assert (y2 = y) as -> by lia. apply rtc_refl.
  - set (y1 := if y <? y2 then y + 1 else y - 1).
    assert (Hy1 : Z.abs (y1 - y) = 1 /\ Z.abs (y2 - y1) = Z.of_nat n /\
                  Z.min y y2 <= y1 <= Z.max y y2 /\
                  Z.min y y2 <= Z.min y1 y2 /\ Z.max y1 y2 <= Z.max y y2)
      by (subst y1; destruct (Z.ltb_spec y y2); lia).
    clearbody y1. destruct Hy1 as (H1 & H2 & H3 & H4 & H5).
    apply rtc_l with (x, y1).
    + split; [apply Hok; lia|]. split; [apply Hok; lia|]. cbn. lia.
    + apply IH; [exact H2|]. intros k Hk. apply Hok. lia.
Qed.

Lemma step_in_mono (ok ok' : Z * Z -> Prop) p q :
  (forall a, ok a -> ok' a) -> rtc (step_in ok) p q -> rtc (step_in ok') p q.
Proof.
  intros Hsub. induction 1 as [|p q s (Hp & Hq & Hd) _ IH]; [apply rtc_refl|].
  apply rtc_l with q; [|exact IH]. split; [auto|]. split; [auto | exact Hd].
Qed.

Lemma step_in_sym (ok : Z * Z -> Prop) p q :
  rtc (step_in ok) p q -> rtc (step_in ok) q p.
Proof.
  induction 1 as [|p q s (Hp & Hq & Hd) _ IH]; [apply rtc_refl|].
  eapply rtc_r; [exact IH|].
  split; [exact Hq|]. split; [exact Hp | lia].
Qed.

Lemma open_at_le w h t t' p : tiles_le t t' -> open_at w h t p -> open_at w h t' p.
Proof. intros Hle (Hx & Hy & Hn). split; [exact Hx|]. split; [exact Hy | apply Hle, Hn]. Qed.

(** A corridor joins the centres of the two rooms it connects, the
    second of which has been carved. *)
Lemma connect_path w h r1 r2 t t' :
  room_ok w h r1 -> room_ok w h r2 ->
  nonwall t (center r2).1 (center r2).2 ->
  _connect r1 r2 t = Ok t' ->
  tiles_le t t' /\ rtc (step_in (open_at w h t')) (center r1) (center r2).
Proof.
  intros H1 H2 Hc2 E. unfold _connect in E.
  pose proof (center_in w h r1 H1) as C1. pose proof (center_in w h r2 H2) as C2.
  destruct r1 as [[[x1 y1] w1] h1], r2 as [[[x2 y2] w2] h2].
  destruct (center (x1, y1, w1, h1)) as [cx1 cy1].
  destruct (center (x2, y2, w2, h2)) as [cx2 cy2]. cbn in C1, C2, Hc2.
  bind_inv E as [xe t1] Ex. bind_inv E as [ye t2] Ey. injection E as <-.
  apply connect_x_carves in Ex as (-> & Hle1 & Hrow).
  apply connect_y_carves in Ey as (-> & Hle2 & Hcol).
  assert (Hle : tiles_le t t2) by (eapply tiles_le_trans; eassumption).
  split; [exact Hle|].
  assert (Hend : nonwall t2 cx2 cy2) by (apply Hle, Hc2).
  assert (Hcolumn : forall k, Z.min cy1 cy2 <= k <= Z.max cy1 cy2 ->
            open_at w h t2 (cx2, k)).
  { intros k Hk. split; [cbn; lia|]. split; [cbn; lia|]. cbn.
    destruct (Z.eq_dec k cy2) as [->|Hne]; [exact Hend|].
    apply Hcol. unfold between. lia. }
  transitivity (cx2, cy1).
  - apply (hline _ cy1 (Z.to_nat (Z.abs (cx2 - cx1)))); [lia|].
    intros k Hk. destruct (Z.eq_dec k cx2) as [->|Hne]; [apply Hcolumn; lia|].
    split; [cbn; lia|]. split; [cbn; lia|]. cbn.
    apply Hle2, Hrow. unfold between. lia.
  - apply (vline _ cx2 (Z.to_nat (Z.abs (cy2 - cy1)))); [lia | exact Hcolumn].
Qed.

Lemma linked_le w h t t' rs : tiles_le t t' -> linked w h t rs -> linked w h t' rs.
Proof.
  intros Hle [Hin Hpath]. split.
  - intros room x y Hroom Hxy. apply Hle. eapply Hin; eassumption.
  - intros i a b Ha Hb. eapply step_in_mono; [|eapply Hpath; eassumption].
    intros p. apply open_at_le, Hle.
Qed.

(** The placement loop keeps the rooms carved and joined in a chain. *)
Lemma place_rooms_linked n : forall num r d r' d',
  place_rooms n num (r, d) = Ok (r', d') ->
  Forall (room_ok (d_w d) (d_h d)) (rooms d) ->
  linked (d_w d) (d_h d) (tiles d) (rooms d) ->
  linked (d_w d) (d_h d) (tiles d') (rooms d').
Proof.
  induction n as [|n IH]; intros num r d r' d' E Hok Hl.
  - injection E as <- <-. exact Hl.
  - rewrite place_rooms_S in E.
    destruct (num <=? len (rooms d)); [injection E as <- <-; exact Hl|].
    bind_inv E as [rw r1] E1. bind_inv E as [rh r2] E2.
    bind_inv E as [rx r3] E3. bind_inv E as [ry r4] E4. cbv zeta in E.
    apply randint_range in E1, E2, E3, E4.
    destruct (existsb _ (rooms d)); [apply IH in E; assumption|].
    bind_inv E as t1 Ec. bind_inv E as t2 Ek.
    assert (Hroom : room_ok (d_w d) (d_h d) (rx, ry, rw, rh)) by (cbn; lia).
    apply carve_room_carves in Ec as [Hle1 Hcarved].
    assert (Hcen : nonwall t1 (center (rx, ry, rw, rh)).1 (center (rx, ry, rw, rh)).2).
    { apply Hcarved. pose proof (center_in _ _ _ Hroom) as Hc. cbn in Hc |- *. lia. }
    apply IH in E; [exact E | |]; cbn [d_w d_h rooms tiles set_rooms set_tiles].
    + apply Forall_app. split; [exact Hok|].
      apply Forall_cons. split; [exact Hroom | apply Forall_nil_2].
    + destruct (last (rooms d)) as [prev|] eqn:Hlast.
      * assert (Hprev : room_ok (d_w d) (d_h d) prev).
        { apply last_Some_elem_of in Hlast.
          exact (proj1 (Forall_forall _ _) Hok _ Hlast). }
        apply (connect_path (d_w d) (d_h d)) in Ek as [Hle2 Hpath];
          [| exact Hprev | exact Hroom | exact Hcen].
        assert (Hle : tiles_le (tiles d) t2) by (eapply tiles_le_trans; eassumption).
        apply (linked_le _ _ _ _ _ Hle) in Hl as [Hin Hchain]. split.
        -- intros room x y Hr Hxy. apply elem_of_app in Hr as [Hr | Hr].
           ++ eapply Hin; eassumption.
           ++ apply list_elem_of_singleton in Hr as ->. apply Hle2, Hcarved, Hxy.
        -- intros i a b Ha Hb.
           apply lookup_snoc_Some in Hb as [[Hbl Hb] | [Hbl <-]].
           ++ rewrite lookup_app_l in Ha by lia. eapply Hchain; eassumption.
           ++ rewrite lookup_app_l in Ha by lia.
              rewrite last_lookup in Hlast.
              replace (Init.Nat.pred (length (rooms d))) with i in Hlast by lia.
              rewrite Ha in Hlast. injection Hlast as ->. exact Hpath.
      * injection Ek as <-. apply last_None in Hlast. rewrite Hlast. cbn. split.
        -- intros room x y Hr Hxy. apply list_elem_of_singleton in Hr as ->.
           apply Hcarved, Hxy.
        -- intros i a b Ha Hb. destruct i; discriminate Hb.
Qed.

Lemma passable_open d p :
  open_at (d_w d) (d_h d) (tiles d) p -> passable d p.
Proof.
  intros (Hx & Hy & a & Ha & Hna). unfold passable, is_walkable, in_bounds.
  destruct (Z.leb_spec 0 p.1); [|lia]. destruct (Z.ltb_spec p.1 (d_w d)); [|lia].
  destruct (Z.leb_spec 0 p.2); [|lia]. destruct (Z.ltb_spec p.2 (d_h d)); [|lia].
  cbn. rewrite Ha. cbn. destruct a; [contradiction | reflexivity ..].
Qed.

(** Every tile of a room can be walked to the centre of the room. *)
Lemma room_walk (ok : Z * Z -> Prop) w h room x y :
  room_ok w h room ->
  (forall x y, inside x y room -> ok (x, y)) ->
  inside x y room -> rtc (step_in ok) (x, y) (center room).
Proof.
  intros Hroom Hok Hxy. pose proof (center_in w h room Hroom) as Hc.
  destruct room as [[[rx ry] rw] rh]. destruct (center (rx, ry, rw, rh)) as [cx cy].
  cbn in Hc, Hxy, Hok. transitivity (cx, y).
  - apply (hline ok y (Z.to_nat (Z.abs (cx - x)))); [lia|].
    intros k Hk. apply Hok. lia.
  - apply (vline ok cx (Z.to_nat (Z.abs (cy - y)))); [lia|].
    intros k Hk. apply Hok. lia.
Qed.

(** In a chain of rooms every room is joined to every other. *)
Lemma linked_any w h t rs i j a b :
  linked w h t rs -> rs !! i = Some a -> rs !! j = Some b ->
  rtc (step_in (open_at w h t)) (center a) (center b).
Proof.
  intros [_ Hchain].
  assert (Hup : forall n i a b, rs !! i = Some a -> rs !! (i + n)%nat = Some b ->
            rtc (step_in (open_at w h t)) (center a) (center b)).
  { clear i j a b. induction n as [|n IH]; intros i a b Ha Hb.
    - rewrite Nat.add_0_r in Hb. rewrite Ha in Hb. injection Hb as ->.
      apply rtc_refl.
    - destruct (lookup_lt_is_Some_2 rs (S i)) as [c Hc].
      { apply lookup_lt_Some in Hb. lia. }
      etrans; [eapply Hchain; eassumption|].
      apply (IH (S i)); [exact Hc|].
      replace (S i + n)%nat with (i + S n)%nat by lia. exact Hb. }
  intros Ha Hb. destruct (Nat.le_ge_cases i j) as [Hij | Hji].
  - apply (Hup (j - i)%nat i); [exact Ha|].
    replace (i + (j - i))%nat with j by lia. exact Hb.
  - apply step_in_sym. apply (Hup (i - j)%nat j); [exact Hb|].
    replace (j + (i - j))%nat with i by lia. exact Ha.
Qed.

(** The tiles of the rooms of a chain are open. *)
Lemma linked_open w h t rs room x y :
  linked w h t rs -> Forall (room_ok w h) rs ->
  room ∈ rs -> inside x y room -> open_at w h t (x, y).
Proof.
  intros [Hin _] Hok Hroom Hxy.
  pose proof (proj1 (Forall_forall _ _) Hok _ Hroom) as Hrok.
  split; [|split; [|eapply Hin; eassumption]];
    destruct room as [[[rx ry] rw] rh]; cbn in Hrok, Hxy |- *; lia.
Qed.

Lemma passable_same d d' p :
  d_w d' = d_w d -> d_h d' = d_h d -> tiles d' = tiles d ->
  passable d p -> passable d' p.
Proof.
  unfold passable, is_walkable, in_bounds. intros -> -> ->. auto.
Qed.

Section Walks.
Context `{Float64}.

(** The rooms of a generated level are carved and joined in a chain. *)
Lemma init_linked width height depth r r' d :
  DungeonLevel_init width height depth r = Ok (r', d) ->
  linked width height (tiles d) (rooms d).
Proof.
  unfold DungeonLevel_init. intros E.
  apply generate_stages in E
    as (n & num & r1 & r2 & d2 & lr & t & E2 & Elr & Et & Hp & _);
    try reflexivity.
  destruct Hp as (_ & _ & _ & Ht & Hr & _). cbn in Ht, Hr.
  apply place_rooms_linked in E2; [| apply Forall_nil_2 |];
    [| split; [intros room x0 y0 Hroom; apply elem_of_nil in Hroom; destruct Hroom
             | intros i a0 b0 Hi; discriminate Hi]].
  cbn in E2. rewrite <- Hr in E2.
  apply (linked_le _ _ _ t) in E2; [| eapply grid_set_le; [|exact Et]; discriminate].
  rewrite <- Ht in E2. exact E2.
Qed.

(** Every tile of every room of a generated level is walkable, and any
    two of them are joined by a walk over walkable tiles: whatever
    generation puts in a room can be reached from the room the player
    starts in, the stairs among them. *)
Theorem generated_connected
    (width height depth : Z) (r r' : Rng) (d : DungeonLevel)
    (a b : Room) (x y x' y' : Z) :
  DungeonLevel_init width height depth r = Ok (r', d) ->
  a ∈ rooms d -> b ∈ rooms d -> inside x y a -> inside x' y' b ->
  passable d (x, y) /\ connected d (x, y) (x', y').
Proof.
  intros E Ha Hb Hxy Hxy'.
  pose proof (init_layout _ _ _ _ _ _ E) as (Hw & Hh & Hok & _).
  apply init_linked in E.
  assert (Hpass : forall p, open_at width height (tiles d) p -> passable d p).
  { intros p Hp. apply passable_open. rewrite Hw, Hh. exact Hp. }
  split; [apply Hpass; apply (linked_open _ _ _ (rooms d) a); assumption|].
  apply (step_in_mono (open_at width height (tiles d))); [exact Hpass|].
  pose proof Ha as Ha'. pose proof Hb as Hb'.
  apply list_elem_of_lookup in Ha' as [i Hi]. apply list_elem_of_lookup in Hb' as [j Hj].
  etrans;
    [apply (room_walk _ width height a);
       [exact (proj1 (Forall_forall _ _) Hok _ Ha)
       | intros x0 y0; apply (linked_open _ _ _ _ _ _ _ E Hok Ha) | exact Hxy]|].
  etrans; [exact (linked_any _ _ _ _ _ _ _ _ E Hi Hj)|].
  apply step_in_sym. apply (room_walk _ width height b);
    [exact (proj1 (Forall_forall _ _) Hok _ Hb)
    | intros x0 y0; apply (linked_open _ _ _ _ _ _ _ E Hok Hb) | exact Hxy'].
Qed.

(** A level is entered on a walkable tile from which the stairs can be
    reached over walkable tiles, and with no monster within two tiles of
    the player. *)
Theorem new_level_start (depth : Z) (g g' : Game) :
  new_level depth g = Ok g' ->
  exists d' sp,
    dungeon g' = Some d' /\ stairs_pos d' = Some sp /\
    passable d' (p_x (player g'), p_y (player g')) /\
    connected d' (p_x (player g'), p_y (player g')) sp /\
    forall m, m ∈ monsters d' ->
      3 <= Z.abs (m_x m - p_x (player g')) \/
      3 <= Z.abs (m_y m - p_y (player g')).
Proof.
  unfold new_level. intros E.
  bind_inv E as [r d] Eg. cbv zeta in E. bind_inv E as room Er.
  destruct (center room) as [x y] eqn:Ec.
  bind_inv E as d1 Ef.
  apply compute_fov_layout in Ef as (Fw & Fh & _ & Ft & _ & Fm & _ & Fs & _).
  injection E as <-.
  pose proof (init_layout _ _ _ _ _ _ Eg)
    as (Hw & Hh & Hok & Hap & (lr & Hlast & Hst & _) & Hmon & _).
  apply init_linked in Eg.
  apply py_get_inv in Er as (k & Hk & Hroom).
  apply py_index_nonneg in Hk as ->; [|lia]. cbn in Hroom.
  assert (Hin : room ∈ rooms d) by (apply list_elem_of_lookup; eauto).
  assert (Hrok : room_ok MAP_W MAP_H room)
    by exact (proj1 (Forall_forall _ _) Hok _ Hin).
  pose proof (center_inside _ _ _ Hrok) as Hc. rewrite Ec in Hc. cbn in Hc.
  assert (Hpass : forall p, open_at MAP_W MAP_H (tiles d) p -> passable d1 p).
  { intros p Hp. apply (passable_same d); [assumption ..|].
    apply passable_open. rewrite Hw, Hh. exact Hp. }
  exists d1, (center lr). cbn.
  split; [reflexivity|]. split; [rewrite Fs; exact Hst|].
  split; [apply Hpass; apply (linked_open _ _ _ (rooms d) room); assumption|]. split.
  - apply (step_in_mono (open_at MAP_W MAP_H (tiles d))); [exact Hpass|].
    rewrite <- Ec. rewrite last_lookup in Hlast.
    exact (linked_any _ _ _ _ _ _ _ _ Eg Hroom Hlast).
  - intros m Hm. rewrite Fm in Hm.
    apply (proj1 (Forall_forall _ _) Hmon) in Hm as ((mr & Hmr & Hint) & _).
    apply list_elem_of_lookup in Hmr as [j Hj]. rewrite lookup_drop in Hj.
    pose proof (Hap _ _ _ _ Hj Hroom ltac:(lia)) as Hov.
    apply interior_inside in Hint.
    exact (rooms_apart_inside _ _ _ _ _ _ Hov Hint Hc).
Qed.

End Walks.

Lemma generated_rooms_witness :
  exists r' d lr,
    @DungeonLevel_init axis_float MAP_W MAP_H 3 ex_rng_mixed = Ok (r', d) /\
    length (rooms d) = 8%nat /\
    last (rooms d) = Some lr /\ stairs_pos d = Some (center lr).
Proof.
  destruct (@generated_rooms axis_float MAP_W MAP_H 3 ex_rng_mixed _ _
              ltac:(vm_compute; reflexivity))
    as (_ & _ & lr & Hlast & Hst & _).
  eexists _, _, lr. split; [vm_compute; reflexivity|].
  split; [vm_compute; reflexivity|]. split; [exact Hlast | exact Hst].
Defined.

Lemma generated_population_witness :
  exists r' d,
    @DungeonLevel_init axis_float MAP_W MAP_H 3 ex_rng_mixed = Ok (r', d) /\
    length (monsters d) = 7%nat /\
    forall m, m ∈ monsters d -> stairs_pos d <> Some (m_x m, m_y m).
Proof.
  eexists _, _. split; [vm_compute; reflexivity|].
  split; [vm_compute; reflexivity|].
  destruct (@generated_population axis_float MAP_W MAP_H 3 ex_rng_mixed _ _
              ltac:(vm_compute; reflexivity)) as [Hmon _].
  intros m Hm. apply Hmon in Hm as (_ & _ & _ & _ & Hst). exact Hst.
Defined.

Lemma generated_merchant_witness :
  exists r' d mc,
    @DungeonLevel_init axis_float MAP_W MAP_H 3 ex_rng_mixed = Ok (r', d) /\
    merchant d = Some mc /\ stairs_pos d <> Some (mc_x mc, mc_y mc).
Proof.
  eexists _, _, _. split; [vm_compute; reflexivity|].
  split; [vm_compute; reflexivity|].
  destruct (@generated_merchant axis_float MAP_W MAP_H 3 ex_rng_mixed _ _
              ltac:(vm_compute; reflexivity)) as [_ Hmc].
  destruct (Hmc _ ltac:(vm_compute; reflexivity)) as (_ & Hst & _). exact Hst.
Defined.

Lemma generated_connected_witness :
  exists r' d,
    @DungeonLevel_init axis_float MAP_W MAP_H 3 ex_rng_mixed = Ok (r', d) /\
    stairs_pos d = Some (5, 17) /\ connected d (59, 5) (5, 17).
Proof.
  eexists _, _. split; [vm_compute; reflexivity|].
  split; [vm_compute; reflexivity|].
  refine (proj2 (@generated_connected axis_float MAP_W MAP_H 3 ex_rng_mixed _ _
                   (56, 3, 6, 5) (2, 14, 6, 6) 59 5 5 17 _ _ _ _ _)).
  - vm_compute. reflexivity.
  - apply list_elem_of_lookup. exists 0%nat. vm_compute. reflexivity.
  - apply list_elem_of_lookup. exists 7%nat. vm_compute. reflexivity.
  - cbn. lia.
  - cbn. lia.
Defined.

Lemma new_level_start_witness :
  exists g' d' sp,
    @new_level axis_float 3 (Game_init ex_rng_mixed) = Ok g' /\
    dungeon g' = Some d' /\ stairs_pos d' = Some sp /\
    connected d' (p_x (player g'), p_y (player g')) sp.
Proof.
  destruct (@new_level_start axis_float 3 (Game_init ex_rng_mixed) _
              ltac:(vm_compute; reflexivity))
    as (d' & sp & Hd & Hs & _ & Hc & _).
  eexists _, d', sp. split; [vm_compute; reflexivity|].
  split; [exact Hd|]. split; [exact Hs | exact Hc].
Defined.

(** ** What is seen is remembered *)

Lemma grid_shape_insert {A} w h (g : list (list A)) ky kx row v :
  grid_shape w h g -> g !! ky = Some row ->
  grid_shape w h (<[ky := <[kx := v]> row]> g).
Proof.
  intros [Hl Hrows] Hrow. split; [rewrite length_insert; exact Hl|].
  apply Forall_insert; [exact Hrows|]. rewrite length_insert.
  exact (proj1 (Forall_forall _ _) Hrows _ (list_elem_of_lookup_2 _ _ _ Hrow)).
Qed.

Lemma grid_shape_lookup {A} w h (g : list (list A)) ky row :
  grid_shape w h g -> g !! ky = Some row -> length row = Z.to_nat w.
Proof.
  intros [_ Hrows] Hrow.
  exact (proj1 (Forall_forall _ _) Hrows _ (list_elem_of_lookup_2 _ _ _ Hrow)).
Qed.

(** [mark] keeps every visible tile revealed. *)
Lemma mark_seen ix iy d d' :
  mark ix iy d = Ok d' -> seen_inv d -> seen_inv d'.
Proof.
  unfold mark. intros E (Hv & Hr & Hcell).
  bind_inv E as vis Ev. bind_inv E as rev Er. injection E as <-.
  apply grid_set_inv in Ev as (ky & kx & row & Hky & Hrow & Hkx & ->).
  apply grid_set_inv in Er as (ky' & kx' & row' & Hky' & Hrow' & Hkx' & ->).
  rewrite (proj1 Hr), <- (proj1 Hv), Hky in Hky'. injection Hky' as <-.
  rewrite (grid_shape_lookup _ _ _ _ _ Hr Hrow'),
    <- (grid_shape_lookup _ _ _ _ _ Hv Hrow), Hkx in Hkx'. injection Hkx' as <-.
  pose proof (py_index_lt _ _ _ Hkx) as Hlt.
  assert (Hlt' : (kx < length row')%nat).
  { rewrite (grid_shape_lookup _ _ _ _ _ Hr Hrow'),
      <- (grid_shape_lookup _ _ _ _ _ Hv Hrow). exact Hlt. }
  split; [|split]; cbn [visible revealed set_revealed set_visible d_w d_h].
  - apply grid_shape_insert; assumption.
  - apply grid_shape_insert; assumption.
  - intros a b ra Ha Hb. destruct (decide (a = ky)) as [->|Hne].
    + rewrite list_lookup_insert_eq in Ha by (apply (lookup_lt_Some _ _ _ Hrow)).
      injection Ha as <-.
      exists (<[kx := true]> row').
      split; [apply list_lookup_insert_eq; apply (lookup_lt_Some _ _ _ Hrow')|].
      destruct (decide (b = kx)) as [->|Hnb].
      * apply list_lookup_insert_eq. exact Hlt'.
      * rewrite list_lookup_insert_ne in Hb by congruence.
        rewrite list_lookup_insert_ne by congruence.
        destruct (Hcell _ _ _ Hrow Hb) as (rb & Hrb & Hb').
        rewrite Hrow' in Hrb. injection Hrb as <-. exact Hb'.
    + rewrite list_lookup_insert_ne in Ha by congruence.
      rewrite list_lookup_insert_ne by congruence.
      exact (Hcell _ _ _ Ha Hb).
Qed.

Section Seen.
Context `{Float64}.

(** After [compute_fov] on a level whose grids have the level's
    dimensions, every visible tile is revealed: what the player sees is
    on the map. *)
Theorem fov_visible_revealed (px py radius : Z) (d d' : DungeonLevel) (x y : Z) :
  level_shape d ->
  compute_fov px py radius d = Ok d' ->
  grid_get (visible d') x y = Ok true ->
  grid_get (revealed d') x y = Ok true.
Proof.
  intros (Ht & Hr & Hv) E Hvis. unfold compute_fov in E.
  assert (Hinv : seen_inv d').
  { eapply (for_each_inv seen_inv); [| exact E |].
    - intros a s s'. unfold cast_angle. apply (cast_ray_inv seen_inv).
      intros ix iy d1 d2. apply mark_seen.
    - split; [|split]; cbn [visible revealed set_visible d_w d_h].
      + apply grid_shape_map. exact Hv.
      + exact Hr.
      + intros a b ra Ha Hb. rewrite list_lookup_fmap in Ha.
        destruct (visible d !! a) as [row|]; [|discriminate Ha].
        injection Ha as <-. rewrite list_lookup_fmap in Hb.
        destruct (row !! b); discriminate Hb. }
  destruct Hinv as (Hv' & Hr' & Hcell).
  apply grid_get_inv in Hvis as (ky & kx & row & Hky & Hrow & Hkx & Ha).
  destruct (Hcell _ _ _ Hrow Ha) as (row' & Hrow' & Ha').
  apply (grid_get_intro _ _ _ ky kx row').
  - rewrite (proj1 Hr'), <- (proj1 Hv'). exact Hky.
  - exact Hrow'.
  - rewrite (grid_shape_lookup _ _ _ _ _ Hr' Hrow'),
      <- (grid_shape_lookup _ _ _ _ _ Hv' Hrow). exact Hkx.
  - exact Ha'.
Qed.

End Seen.

Lemma fov_visible_revealed_witness :
  exists d',
    @compute_fov axis_float 1 1 6 ex_seen = Ok d' /\
    grid_get (revealed d') 3 1 = Ok true.
Proof.
  eexists. split; [vm_compute; reflexivity|].
  apply (@fov_visible_revealed axis_float 1 1 6 ex_seen _ 3 1);
    [ | vm_compute; reflexivity | vm_compute; reflexivity].
  repeat split; try reflexivity; repeat constructor.
Defined.

(** ** The mapping scroll *)

(** On a level whose grids have the level's dimensions [reveal_all]
    returns, with every tile of the grid revealed and nothing else
    changed. *)
Theorem reveal_all_reveals (d : DungeonLevel) :
  level_shape d ->
  exists rev, reveal_all d = Ok (set_revealed rev d) /\
    grid_shape (d_w d) (d_h d) rev /\
    forall x y, 0 <= x < d_w d -> 0 <= y < d_h d -> grid_get rev x y = Ok true.
Proof.
  intros (Ht & Hr & Hv). unfold reveal_all.
  set (row := fun (y : Z) (rev : list (list bool)) =>
         for_each (range 0 (d_w d)) (fun x rev => grid_set rev x y true) rev).
  assert (Hrow : forall y rev, 0 <= y < d_h d -> grid_shape (d_w d) (d_h d) rev ->
            exists rev', row y rev = Ok rev' /\ grid_shape (d_w d) (d_h d) rev').
  { intros y rev Hy Hrev. apply (for_each_ok (grid_shape (d_w d) (d_h d))); [|exact Hrev].
    intros x s Hx Hs. apply elem_of_range in Hx. apply grid_set_ok; [exact Hs | lia | exact Hy]. }
  destruct (for_each_ok (grid_shape (d_w d) (d_h d)) row (range 0 (d_h d)))
    with (s := revealed d) as (rev & E & Hrev); [| exact Hr |].
  { intros y s Hy Hs. apply elem_of_range in Hy. apply Hrow; [lia | exact Hs]. }
  exists rev. fold row. rewrite E. split; [reflexivity|]. split; [exact Hrev|].
  intros x y Hx Hy.
  assert (Hkeep : forall x0 y0 y1 s s', row y1 s = Ok s' ->
            grid_get s x0 y0 = Ok true -> grid_get s' x0 y0 = Ok true).
  { intros x0 y0 y1 s s' Es Hs. unfold row in Es.
    eapply (for_each_inv (fun s => grid_get s x0 y0 = Ok true));
      [| exact Es | exact Hs].
    intros x1 u u' Hu Hg. exact (grid_set_true_mono _ _ _ _ _ _ Hu Hg). }
  pose proof (for_each_all
    (fun y s => forall x, x ∈ range 0 (d_w d) -> grid_get s x y = Ok true)
    row (range 0 (d_h d))) as Hall.
  cbv beta in Hall. eapply Hall; [| | exact E | |].
  - intros y0 s s' Es. unfold row in Es.
    apply (for_each_all (fun x s => grid_get s x y0 = Ok true)
             (fun x rev => grid_set rev x y0 true) _) with (s := s); [| | exact Es].
    + intros x0 u u' Hu. eapply grid_set_get. exact Hu.
    + intros x0 x1 u u' Hu Hg. exact (grid_set_true_mono _ _ _ _ _ _ Hu Hg).
  - intros y0 y1 s s' Es Hq x0 Hx0. eapply Hkeep; [exact Es|]. apply Hq, Hx0.
  - apply elem_of_range_2. lia.
  - apply elem_of_range_2. lia.
Qed.

Lemma reveal_all_reveals_witness :
  exists rev, reveal_all ex_seen = Ok (set_revealed rev ex_seen) /\
    grid_get rev 4 2 = Ok true.
Proof.
  destruct (reveal_all_reveals ex_seen) as (rev & E & _ & Hall).
  { repeat split; try reflexivity; repeat constructor. }
  exists rev. split; [exact E|]. apply Hall; cbn; lia.
Defined.

(** ** The stock of a merchant *)

Lemma stock_potions_inv n : forall depth acc r st r',
  stock_potions n depth acc r = Ok (st, r') ->
  exists ps, st = acc ++ ps /\ length ps = n /\ Forall (potion_entry depth) ps.
Proof.
  induction n as [|n IH]; intros depth acc r st r' E; cbn in E.
  - injection E as <- <-. exists []. rewrite app_nil_r. auto.
  - bind_inv E as [v r1] E1. cbv zeta in E. bind_inv E as [price r2] E2.
    apply IH in E as (ps & -> & Hlen & Hps).
    apply randint_range in E1, E2.
    eexists (_ :: ps). rewrite <- app_assoc. split; [reflexivity|].
    split; [cbn; lia|]. apply Forall_cons. split; [|exact Hps].
    eexists. split; [reflexivity|]. cbn. lia.
Qed.

Lemma stock_scrolls_inv n : forall acc r st r',
  stock_scrolls n acc r = Ok (st, r') ->
  exists ss, st = acc ++ ss /\ length ss = n /\ Forall scroll_entry ss.
Proof.
  induction n as [|n IH]; intros acc r st r' E; cbn in E.
  - injection E as <- <-. exists []. rewrite app_nil_r. auto.
  - bind_inv E as [eff r1] E1. bind_inv E as [price r2] E2.
    apply IH in E as (ss & -> & Hlen & Hss).
    apply randint_range in E2.
    unfold choice in E1. destruct (SCROLL_EFFECTS !! _) as [a|] eqn:Ha; [|discriminate E1].
    injection E1 as -> _. apply list_elem_of_lookup_2 in Ha.
    eexists (_ :: ss). rewrite <- app_assoc. split; [reflexivity|].
    split; [cbn; lia|]. apply Forall_cons. split; [|exact Hss].
    exists eff.1, eff.2. split; [destruct eff; exact Ha|].
    split; [reflexivity | cbn; lia].
Qed.

(** For a depth from 0 up a merchant's stock is always built, and holds
    3 to 5 entries in this order: one or two potions healing
    [10 + 2 * depth] to [20 + 2 * depth] for 15 to 25 gold, one weapon
    among the first [depth + 2] of the table for [20 + 3 * bonus] gold,
    and one or two scrolls of the table for 30 to 50 gold. *)
Theorem merchant_stock_shape (depth : Z) (r : Rng) :
  0 <= depth ->
  exists ps w ss r',
    _generate_merchant_stock depth r = Ok (ps ++ w :: ss, r') /\
    (1 <= length ps <= 2)%nat /\ Forall (potion_entry depth) ps /\
    weapon_entry depth w /\
    (1 <= length ss <= 2)%nat /\ Forall scroll_entry ss.
Proof.
  intros Hdepth.
  destruct (generate_merchant_stock_ok depth r Hdepth) as (st & r' & E).
  pose proof E as E0. unfold _generate_merchant_stock in E0.
  bind_inv E0 as [n1 r1] E1. bind_inv E0 as [st1 r2] E2.
  bind_inv E0 as [t r3] E3. cbv zeta in E0.
  bind_inv E0 as [name bonus] E4. bind_inv E0 as [n2 r4] E5.
  apply randint_range in E1, E3, E5.
  apply stock_potions_inv in E2 as (ps & -> & Hlp & Hps).
  apply stock_scrolls_inv in E0 as (ss & -> & Hls & Hss).
  change (len WEAPON_NAMES - 1) with 6 in E4.
  apply py_get_inv in E4 as (k & Hk & Hw).
  apply py_index_nonneg in Hk; [|lia].
  exists ps, (mkEntry name (weapon bonus) (20 + bonus * 3)), ss, r'.
  split; [rewrite E; cbn; rewrite <- app_assoc; reflexivity|].
  split; [lia|]. split; [exact Hps|]. split; [|split; [lia | exact Hss]].
  exists k, name, bonus. split; [exact Hw|]. split; [lia | reflexivity].
Qed.

Lemma merchant_stock_shape_witness :
  exists st r', _generate_merchant_stock 3 ex_rng_mixed = Ok (st, r') /\
    (3 <= length st <= 5)%nat.
Proof.
  destruct (merchant_stock_shape 3 ex_rng_mixed ltac:(lia))
    as (ps & w & ss & r' & E & Hp & _ & _ & Hs & _).
  exists (ps ++ w :: ss), r'. split; [exact E|].
  rewrite length_app. cbn. lia.
Defined.

(** ** The session raises nothing *)


Lemma playable_msg t g : playable g -> playable (msg t g).
Proof. intros H. exact H. Qed.
















Section NoRaise.
Context `{Float64}.









End NoRaise.

